(** * Openjourney: generation timeline, media addressing, provider routes

    A shallow embedding of the orchestration logic of the Openjourney
    front end (content-grid.tsx, image-grid.tsx, focused-media-view.tsx)
    and of its API routes (generate-images, generate-videos,
    image-to-video, improve-image), with the properties the design
    document states about them. *)

From Stdlib Require Import String Ascii List ZArith Lia Bool Arith.
From Stdlib Require Import Sorting.Sorted Sorting.Permutation.
From Stdlib Require Import DecimalString DecimalNat DecimalZ.
Import ListNotations.

Open Scope string_scope.
Open Scope list_scope.

(** Template-literal concatenation of strings. *)
Infix "^^" := String.append (right associativity, at level 60).

(* ================================================================== *)
(** ** JavaScript values used by the code *)
(* ================================================================== *)

Module Js.

(** Truthiness of a string: only the empty string is falsy. *)
Definition truthy (s : string) : bool :=
  match s with EmptyString => false | String _ _ => true end.

(** Truthiness of an optional string field ([undefined] is falsy). *)
Definition truthy_opt (o : option string) : bool :=
  match o with Some s => truthy s | None => false end.

(** Truthiness of an optional boolean field. *)
Definition truthy_flag (o : option bool) : bool :=
  match o with Some b => b | None => false end.

(** [a || b] where [a] is an optional string and [b] a string. *)
Definition or_else (a : option string) (b : string) : string :=
  match a with
  | Some s => if truthy s then s else b
  | None => b
  end.

(** Template rendering [`${n}`] of an array index. *)
Definition show_nat (n : nat) : string :=
  NilEmpty.string_of_uint (Nat.to_uint n).

(** Template rendering [`${t}`] of an integral number such as
    [Date.now()]. *)
Definition show_Z (z : Z) : string :=
  NilEmpty.string_of_int (Z.to_int z).

(** [hay.includes(needle)]. *)
Fixpoint includes (needle hay : string) : bool :=
  String.prefix needle hay ||
  match hay with
  | EmptyString => false
  | String _ rest => includes needle rest
  end.

(** [Array.prototype.map] / [forEach] with the index argument. *)
Fixpoint mapi_from {A B : Type} (i : nat) (f : A -> nat -> B) (l : list A)
  : list B :=
  match l with
  | [] => []
  | x :: rest => f x i :: mapi_from (S i) f rest
  end.

Definition mapi {A B : Type} (f : A -> nat -> B) (l : list A) : list B :=
  mapi_from 0 f l.

(** [Array.prototype.filter(Boolean)] on an array of objects-or-null. *)
Fixpoint filter_Boolean {A : Type} (l : list (option A)) : list A :=
  match l with
  | [] => []
  | Some x :: rest => x :: filter_Boolean rest
  | None :: rest => filter_Boolean rest
  end.

(** [Array.prototype.sort(cmp)]: a stable sort (ECMAScript 2019), which
    for a consistent comparator has exactly one possible result.  An
    element is placed before the first element it does not compare
    greater than, so equal elements keep their relative order. *)
Fixpoint sort_insert {A : Type} (cmp : A -> A -> Z) (x : A) (l : list A)
  : list A :=
  match l with
  | [] => [x]
  | y :: rest =>
      if (cmp x y <=? 0)%Z then x :: y :: rest
      else y :: sort_insert cmp x rest
  end.

Definition sort {A : Type} (cmp : A -> A -> Z) (l : list A) : list A :=
  fold_right (sort_insert cmp) [] l.

(** A thrown value: an [Error] with its name and message, or anything
    else. *)
Inductive Thrown : Type :=
| ErrorObj (name message : string)
| NonError.

(** [new Error(message)] *)
Definition new_Error (message : string) : Thrown := ErrorObj "Error" message.

(** [error instanceof Error ? error.message : fallback]. *)
Definition message_or (e : Thrown) (fallback : string) : string :=
  match e with
  | ErrorObj _ m => m
  | NonError => fallback
  end.

(** [err?.message || fallback] and [err?.name || fallback]. *)
Definition message_or_default (e : Thrown) (fallback : string) : string :=
  match e with
  | ErrorObj _ m => if truthy m then m else fallback
  | NonError => fallback
  end.

Definition name_or_default (e : Thrown) (fallback : string) : string :=
  match e with
  | ErrorObj n _ => if truthy n then n else fallback
  | NonError => fallback
  end.

End Js.

(* ================================================================== *)
(** ** content-grid.tsx: the generation timeline *)
(* ================================================================== *)

Module ContentGrid.

(** ["image" | "video"] *)
Inductive MediaType : Type := TImage | TVideo.

(** Elements of [ImageGeneration.images]. *)
Record ImageItem : Type := {
  url : string;
  imageBytes : option string;
  isSample : option bool
}.

Record ImageGeneration : Type := {
  ig_id : string;
  ig_prompt : string;
  ig_images : list ImageItem;
  ig_timestamp : Z;
  ig_isLoading : bool
}.

Record VideoGeneration : Type := {
  vg_id : string;
  vg_prompt : string;
  vg_videos : list string;
  vg_timestamp : Z;
  vg_isLoading : bool;
  vg_sourceImage : option string
}.

(** [isLoading: true] is part of the type of a loading record. *)
Record LoadingGeneration : Type := {
  lg_id : string;
  lg_prompt : string;
  lg_type : MediaType;
  lg_timestamp : Z;
  lg_sourceImage : option string
}.

(** [type Generation = ImageGeneration | VideoGeneration | LoadingGeneration];
    the code tells the variants apart with ['images' in g] and
    ['videos' in g]. *)
Inductive Generation : Type :=
| Images (g : ImageGeneration)
| Videos (g : VideoGeneration)
| Loading (g : LoadingGeneration).

Definition gen_id (g : Generation) : string :=
  match g with
  | Images g => ig_id g
  | Videos g => vg_id g
  | Loading g => lg_id g
  end.

Definition gen_prompt (g : Generation) : string :=
  match g with
  | Images g => ig_prompt g
  | Videos g => vg_prompt g
  | Loading g => lg_prompt g
  end.

Definition gen_timestamp (g : Generation) : Z :=
  match g with
  | Images g => ig_timestamp g
  | Videos g => vg_timestamp g
  | Loading g => lg_timestamp g
  end.

Definition isLoading (g : Generation) : bool :=
  match g with
  | Images g => ig_isLoading g
  | Videos g => vg_isLoading g
  | Loading _ => true
  end.

(** [createSampleGenerations]; the two arguments are the two readings
    of [Date.now()]. *)
Definition createSampleGenerations (now1 now2 : Z) : list Generation :=
  [ Videos {| vg_id := "sample-video-1";
              vg_prompt := "a race car formula 1 style in a highspeed track";
              vg_videos := ["/sample-videos/video-1.mp4";
                            "/sample-videos/video-2.mp4"];
              vg_timestamp := (now1 - 1000 * 60 * 2)%Z;
              vg_isLoading := false;
              vg_sourceImage := None |};
    Images {| ig_id := "sample-image-1";
              ig_prompt := "A majestic ice warrior in blue armor standing in a snowy landscape";
              ig_images :=
                map (fun u => {| url := u; imageBytes := None;
                                 isSample := Some true |})
                    ["/sample-images/generated-image-1.png";
                     "/sample-images/generated-image-2.png";
                     "/sample-images/generated-image-3.png";
                     "/sample-images/generated-image-4.png"];
              ig_timestamp := (now2 - 1000 * 60 * 5)%Z;
              ig_isLoading := false |} ].

(** Elements of the flattened media list. *)
Record MediaItem : Type := {
  m_id : string;
  m_type : MediaType;
  m_url : string;
  m_prompt : string;
  m_timestamp : Z;
  m_sourceImage : option string;
  m_imageBytes : option string
}.

(** Body of [generations.forEach] in [getAllMediaItems]: the items one
    generation pushes. *)
Definition items_of (generation : Generation) : list MediaItem :=
  if negb (isLoading generation) then
    match generation with
    | Images g =>
        Js.mapi (fun image index =>
                   {| m_id := ig_id g ^^ "-img-" ^^ Js.show_nat index;
                      m_type := TImage;
                      m_url := url image;
                      m_prompt := ig_prompt g;
                      m_timestamp := ig_timestamp g;
                      m_sourceImage := None;
                      m_imageBytes := imageBytes image |})
                (ig_images g)
    | Videos g =>
        Js.mapi (fun video index =>
                   {| m_id := vg_id g ^^ "-vid-" ^^ Js.show_nat index;
                      m_type := TVideo;
                      m_url := video;
                      m_prompt := vg_prompt g;
                      m_timestamp := vg_timestamp g;
                      m_sourceImage := vg_sourceImage g;
                      m_imageBytes := None |})
                (vg_videos g)
    | Loading _ => []
    end
  else [].

(** [(a, b) => b.timestamp.getTime() - a.timestamp.getTime()] *)
Definition by_timestamp_newest_first (a b : MediaItem) : Z :=
  (m_timestamp b - m_timestamp a)%Z.

(** [getAllMediaItems], as a function of the [generations] it reads. *)
Definition getAllMediaItems (generations : list Generation) : list MediaItem :=
  let mediaItems := flat_map items_of generations in
  Js.sort by_timestamp_newest_first mediaItems.

(** Number of media of a record ([gen.images.length] or
    [gen.videos.length], nothing for a record with neither field). *)
Definition media_length (gen : Generation) : nat :=
  match gen with
  | Images g => length (ig_images g)
  | Videos g => length (vg_videos g)
  | Loading _ => 0
  end.

(** The [for] loop of [openFocusedView]. *)
Fixpoint locateGlobalIndex_from (globalIndex : nat) (generations : list Generation)
    (generationId : string) (itemIndex : nat) : nat :=
  match generations with
  | [] => globalIndex
  | gen :: rest =>
      if isLoading gen then
        locateGlobalIndex_from globalIndex rest generationId itemIndex
      else if (gen_id gen =? generationId)%string then
        globalIndex + itemIndex
      else
        locateGlobalIndex_from (globalIndex + media_length gen) rest
                               generationId itemIndex
  end.

Definition locateGlobalIndex (generations : list Generation)
    (generationId : string) (itemIndex : nat) : nat :=
  locateGlobalIndex_from 0 generations generationId itemIndex.

(** *** Component state and its surroundings *)

(** The [fetch] calls the component issues. *)
Inductive Request : Type :=
| PostGenerateImages (prompt : string) (apiKey : option string)
| PostGenerateVideos (prompt : string) (apiKey : option string)
| PostImageToVideo (prompt imageBytes : string) (apiKey : option string)
| PostImproveImage (originalPrompt improvementPrompt imageBytes : string)
                   (apiKey : option string).

(** The JSON body of a response, as far as the component reads it. *)
Record ImageData : Type := { d_url : string; d_imageBytes : option string }.
Record VideoData : Type := { v_url : string }.

Record Data : Type := {
  success : option bool;
  images : option (list ImageData);
  videos : option (list (option VideoData));
  error : option string;
  enhancedPrompt : option string
}.

(** How [await fetch(...)] followed by [await response.json()] settles. *)
Inductive FetchResult : Type :=
| Rejected (e : Js.Thrown)
| Resolved (data : Data).

Record FocusedView : Type := {
  isOpen : bool;
  mediaItems : list MediaItem;
  initialIndex : nat
}.

Record ImproveImageModal : Type := {
  im_isOpen : bool;
  im_imageUrl : string;
  im_imageBytes : string;
  im_originalPrompt : string
}.

(** The [useState] cells of [ContentGrid], the local-storage key it reads
    and the effects it has on the outside (requests sent, alerts shown). *)
Record State : Type := {
  generations : list Generation;
  showApiKeyDialog : bool;
  focusedView : FocusedView;
  improveImageModal : ImproveImageModal;
  gemini_api_key : option string;
  fetches : list Request;
  alerts : list string
}.

(** State-passing computations over [State]. *)
Definition M (A : Type) : Type := State -> A * State.

Definition ret {A : Type} (a : A) : M A := fun s => (a, s).

Definition bind {A B : Type} (c : M A) (k : A -> M B) : M B :=
  fun s => let (a, s') := c s in k a s'.

Declare Scope m_scope.
Delimit Scope m_scope with M.
Notation "x <- c ;; k" := (bind c (fun x => k))
  (at level 61, c at next level, right associativity) : m_scope.
Notation "c ;; k" := (bind c (fun _ => k))
  (at level 61, right associativity) : m_scope.
Local Open Scope m_scope.

Definition exec {A : Type} (c : M A) (s : State) : State := snd (c s).
Definition eval {A : Type} (c : M A) (s : State) : A := fst (c s).

Definition getGenerations : M (list Generation) :=
  fun s => (generations s, s).

Definition getImproveImageModal : M ImproveImageModal :=
  fun s => (improveImageModal s, s).

(** [localStorage.getItem("gemini_api_key")] *)
Definition localStorage_getItem_gemini_api_key : M (option string) :=
  fun s => (gemini_api_key s, s).

(** [setGenerations(prev => f(prev))] *)
Definition setGenerations (f : list Generation -> list Generation) : M unit :=
  fun s => (tt, {| generations := f (generations s);
                   showApiKeyDialog := showApiKeyDialog s;
                   focusedView := focusedView s;
                   improveImageModal := improveImageModal s;
                   gemini_api_key := gemini_api_key s;
                   fetches := fetches s;
                   alerts := alerts s |}).

Definition setShowApiKeyDialog (b : bool) : M unit :=
  fun s => (tt, {| generations := generations s;
                   showApiKeyDialog := b;
                   focusedView := focusedView s;
                   improveImageModal := improveImageModal s;
                   gemini_api_key := gemini_api_key s;
                   fetches := fetches s;
                   alerts := alerts s |}).

Definition setFocusedView (v : FocusedView) : M unit :=
  fun s => (tt, {| generations := generations s;
                   showApiKeyDialog := showApiKeyDialog s;
                   focusedView := v;
                   improveImageModal := improveImageModal s;
                   gemini_api_key := gemini_api_key s;
                   fetches := fetches s;
                   alerts := alerts s |}).

Definition setImproveImageModal (v : ImproveImageModal) : M unit :=
  fun s => (tt, {| generations := generations s;
                   showApiKeyDialog := showApiKeyDialog s;
                   focusedView := focusedView s;
                   improveImageModal := v;
                   gemini_api_key := gemini_api_key s;
                   fetches := fetches s;
                   alerts := alerts s |}).

(** Issuing [fetch(...)]: the request leaves the browser. *)
Definition fetch (r : Request) : M unit :=
  fun s => (tt, {| generations := generations s;
                   showApiKeyDialog := showApiKeyDialog s;
                   focusedView := focusedView s;
                   improveImageModal := improveImageModal s;
                   gemini_api_key := gemini_api_key s;
                   fetches := fetches s ++ [r];
                   alerts := alerts s |}).

Definition alert (msg : string) : M unit :=
  fun s => (tt, {| generations := generations s;
                   showApiKeyDialog := showApiKeyDialog s;
                   focusedView := focusedView s;
                   improveImageModal := improveImageModal s;
                   gemini_api_key := gemini_api_key s;
                   fetches := fetches s;
                   alerts := alerts s ++ [msg] |}).

(** [getAllMediaItems] as the closure the component runs: it reads
    [generations] and builds a fresh array. *)
Definition getAllMediaItemsM : M (list MediaItem) :=
  generations <- getGenerations ;;
  ret (getAllMediaItems generations).

(** [openFocusedView(generationId, itemIndex)] *)
Definition openFocusedView (generationId : string) (itemIndex : nat) : M unit :=
  allMediaItems <- getAllMediaItemsM ;;
  generations <- getGenerations ;;
  let globalIndex := locateGlobalIndex generations generationId itemIndex in
  setFocusedView {| isOpen := true;
                    mediaItems := allMediaItems;
                    initialIndex := globalIndex |}.

(** *** The generation workflows

    Each handler is an [async] function.  Its [_start] part runs
    synchronously up to the [await fetch(...)]; its [_settle] part is the
    continuation that runs once the response (or the rejection) is
    there.  [now_id] is the reading of [Date.now()] and [now_ts] that of
    [new Date()]. *)

(** [prev => prev.map(gen => gen.id === id ? completed : gen)] *)
Definition completeGeneration (id : string) (completedGeneration : Generation)
    (prev : list Generation) : list Generation :=
  map (fun gen => if (gen_id gen =? id)%string then completedGeneration else gen)
      prev.

(** [prev => prev.filter(gen => gen.id !== id)] *)
Definition failGeneration (id : string) (prev : list Generation)
  : list Generation :=
  filter (fun gen => negb (gen_id gen =? id)%string) prev.

(** [prev => [loadingGeneration, ...prev]] *)
Definition beginGeneration (loadingGeneration : LoadingGeneration)
    (prev : list Generation) : list Generation :=
  Loading loadingGeneration :: prev.

(** The message of the [TypeError] raised by [x.map] on [undefined] and
    by [vid.url] on [null] (V8's wording; no handler depends on it
    beyond its not mentioning an API key). *)
Definition TypeError : Js.Thrown :=
  Js.ErrorObj "TypeError" "Cannot read properties of undefined".

(** [data.images.map(img => ({url: img.url, imageBytes: img.imageBytes}))] *)
Definition map_images (data : Data) : Js.Thrown + list ImageItem :=
  match images data with
  | None => inl TypeError
  | Some imgs =>
      inr (map (fun img => {| url := d_url img;
                              imageBytes := d_imageBytes img;
                              isSample := None |}) imgs)
  end.

(** [data.videos.map(vid => vid.url)] *)
Fixpoint map_urls (vids : list (option VideoData)) : Js.Thrown + list string :=
  match vids with
  | [] => inr []
  | None :: _ => inl TypeError
  | Some vid :: rest =>
      match map_urls rest with
      | inl e => inl e
      | inr urls => inr (v_url vid :: urls)
      end
  end.

Definition map_videos (data : Data) : Js.Thrown + list string :=
  match videos data with
  | None => inl TypeError
  | Some vids => map_urls vids
  end.

(** The [catch] block shared in shape by the three handlers: remove the
    loading record, then show the API-key dialog or an alert. *)
Definition catch_block (label fallback : string)
    (loadingGeneration : LoadingGeneration) (error : Js.Thrown) : M unit :=
  setGenerations (failGeneration (lg_id loadingGeneration)) ;;
  let errorMessage := Js.message_or error fallback in
  if Js.includes "API key" errorMessage
  then setShowApiKeyDialog true
  else alert (label ^^ ": " ^^ errorMessage).

(** [handleNewGeneration], up to the first [await]. *)
Definition handleNewGeneration_start (type : MediaType) (prompt : string)
    (now_id now_ts : Z) : M LoadingGeneration :=
  userApiKey <- localStorage_getItem_gemini_api_key ;;
  let loadingGeneration :=
    {| lg_id := "loading-" ^^ Js.show_Z now_id;
       lg_prompt := prompt;
       lg_type := type;
       lg_timestamp := now_ts;
       lg_sourceImage := None |} in
  setGenerations (beginGeneration loadingGeneration) ;;
  fetch (match type with
         | TImage => PostGenerateImages prompt userApiKey
         | TVideo => PostGenerateVideos prompt userApiKey
         end) ;;
  ret loadingGeneration.

(** The body of the [try] of [handleNewGeneration] after the response:
    the completed record, or what is thrown. *)
Definition handleNewGeneration_try (type : MediaType)
    (loadingGeneration : LoadingGeneration) (r : FetchResult)
  : Js.Thrown + Generation :=
  match r with
  | Rejected e => inl e
  | Resolved data =>
      match type with
      | TImage =>
          if Js.truthy_flag (success data) then
            match map_images data with
            | inl e => inl e
            | inr imgs =>
                inr (Images {| ig_id := lg_id loadingGeneration;
                               ig_prompt := lg_prompt loadingGeneration;
                               ig_images := imgs;
                               ig_timestamp := lg_timestamp loadingGeneration;
                               ig_isLoading := false |})
            end
          else inl (Js.new_Error (Js.or_else (error data) "Image generation failed"))
      | TVideo =>
          if Js.truthy_flag (success data) then
            match map_videos data with
            | inl e => inl e
            | inr urls =>
                inr (Videos {| vg_id := lg_id loadingGeneration;
                               vg_prompt := lg_prompt loadingGeneration;
                               vg_videos := urls;
                               vg_timestamp := lg_timestamp loadingGeneration;
                               vg_isLoading := false;
                               vg_sourceImage := None |})
            end
          else inl (Js.new_Error (Js.or_else (error data) "Video generation failed"))
      end
  end.

(** [handleNewGeneration], from the response on. *)
Definition handleNewGeneration_settle (type : MediaType)
    (loadingGeneration : LoadingGeneration) (r : FetchResult) : M unit :=
  match handleNewGeneration_try type loadingGeneration r with
  | inr completedGeneration =>
      setGenerations (completeGeneration (lg_id loadingGeneration)
                                         completedGeneration)
  | inl error =>
      catch_block "Generation failed" "Generation failed" loadingGeneration error
  end.

(** [handleImageToVideo], up to the first [await]. *)
Definition handleImageToVideo_start (imageUrl imageBytes prompt : string)
    (now_id now_ts : Z) : M LoadingGeneration :=
  userApiKey <- localStorage_getItem_gemini_api_key ;;
  let loadingGeneration :=
    {| lg_id := "video-loading-" ^^ Js.show_Z now_id;
       lg_prompt := prompt ^^ " - animated video";
       lg_type := TVideo;
       lg_timestamp := now_ts;
       lg_sourceImage := Some imageUrl |} in
  setGenerations (beginGeneration loadingGeneration) ;;
  fetch (PostImageToVideo (prompt ^^ " - animated video") imageBytes userApiKey) ;;
  ret loadingGeneration.

Definition handleImageToVideo_try (imageUrl : string)
    (loadingGeneration : LoadingGeneration) (r : FetchResult)
  : Js.Thrown + Generation :=
  match r with
  | Rejected e => inl e
  | Resolved data =>
      if Js.truthy_flag (success data) then
        match map_videos data with
        | inl e => inl e
        | inr urls =>
            inr (Videos {| vg_id := lg_id loadingGeneration;
                           vg_prompt := lg_prompt loadingGeneration;
                           vg_videos := urls;
                           vg_timestamp := lg_timestamp loadingGeneration;
                           vg_isLoading := false;
                           vg_sourceImage := Some imageUrl |})
        end
      else inl (Js.new_Error (Js.or_else (error data) "Video conversion failed"))
  end.

Definition handleImageToVideo_settle (imageUrl : string)
    (loadingGeneration : LoadingGeneration) (r : FetchResult) : M unit :=
  match handleImageToVideo_try imageUrl loadingGeneration r with
  | inr completedGeneration =>
      setGenerations (completeGeneration (lg_id loadingGeneration)
                                         completedGeneration)
  | inl error =>
      catch_block "Video conversion failed" "Video conversion failed"
                  loadingGeneration error
  end.

(** [handleOpenImproveModal] *)
Definition handleOpenImproveModal (imageUrl imageBytes originalPrompt : string)
  : M unit :=
  setImproveImageModal {| im_isOpen := true;
                          im_imageUrl := imageUrl;
                          im_imageBytes := imageBytes;
                          im_originalPrompt := originalPrompt |}.

(** [handleImproveImage], up to the first [await]. *)
Definition handleImproveImage_start (improvementPrompt : string)
    (now_id now_ts : Z) : M LoadingGeneration :=
  userApiKey <- localStorage_getItem_gemini_api_key ;;
  improveImageModal <- getImproveImageModal ;;
  let loadingGeneration :=
    {| lg_id := "improve-loading-" ^^ Js.show_Z now_id;
       lg_prompt := im_originalPrompt improveImageModal ^^ " - improved: "
                    ^^ improvementPrompt;
       lg_type := TImage;
       lg_timestamp := now_ts;
       lg_sourceImage := None |} in
  setGenerations (beginGeneration loadingGeneration) ;;
  fetch (PostImproveImage (im_originalPrompt improveImageModal)
                          improvementPrompt
                          (im_imageBytes improveImageModal)
                          userApiKey) ;;
  ret loadingGeneration.

Definition handleImproveImage_try
    (loadingGeneration : LoadingGeneration) (r : FetchResult)
  : Js.Thrown + Generation :=
  match r with
  | Rejected e => inl e
  | Resolved data =>
      if Js.truthy_flag (success data) then
        match map_images data with
        | inl e => inl e
        | inr imgs =>
            inr (Images {| ig_id := lg_id loadingGeneration;
                           ig_prompt := Js.or_else (enhancedPrompt data)
                                                   (lg_prompt loadingGeneration);
                           ig_images := imgs;
                           ig_timestamp := lg_timestamp loadingGeneration;
                           ig_isLoading := false |})
        end
      else inl (Js.new_Error (Js.or_else (error data) "Image improvement failed"))
  end.

Definition handleImproveImage_settle
    (loadingGeneration : LoadingGeneration) (r : FetchResult) : M unit :=
  match handleImproveImage_try loadingGeneration r with
  | inr completedGeneration =>
      setGenerations (completeGeneration (lg_id loadingGeneration)
                                         completedGeneration)
  | inl error =>
      catch_block "Image improvement failed" "Image improvement failed"
                  loadingGeneration error
  end.

(** *** The workflows side by side

    The four ways a generation is begun (text to image and text to
    video through [handleNewGeneration], image to video, improve
    image), with the arguments of the handler. *)
Inductive Workflow : Type :=
| NewGeneration (type : MediaType) (prompt : string)
| ImageToVideo (imageUrl imageBytes prompt : string)
| ImproveImage (improvementPrompt : string).

Definition start (w : Workflow) (now_id now_ts : Z) : M LoadingGeneration :=
  match w with
  | NewGeneration type prompt =>
      handleNewGeneration_start type prompt now_id now_ts
  | ImageToVideo imageUrl imageBytes prompt =>
      handleImageToVideo_start imageUrl imageBytes prompt now_id now_ts
  | ImproveImage improvementPrompt =>
      handleImproveImage_start improvementPrompt now_id now_ts
  end.

Definition attempt (w : Workflow) (loadingGeneration : LoadingGeneration)
    (r : FetchResult) : Js.Thrown + Generation :=
  match w with
  | NewGeneration type _ => handleNewGeneration_try type loadingGeneration r
  | ImageToVideo imageUrl _ _ =>
      handleImageToVideo_try imageUrl loadingGeneration r
  | ImproveImage _ => handleImproveImage_try loadingGeneration r
  end.

Definition settle (w : Workflow) (loadingGeneration : LoadingGeneration)
    (r : FetchResult) : M unit :=
  match w with
  | NewGeneration type _ => handleNewGeneration_settle type loadingGeneration r
  | ImageToVideo imageUrl _ _ =>
      handleImageToVideo_settle imageUrl loadingGeneration r
  | ImproveImage _ => handleImproveImage_settle loadingGeneration r
  end.

(** The prefix each handler puts before [Date.now()] in the id. *)
Definition id_prefix (w : Workflow) : string :=
  match w with
  | NewGeneration _ _ => "loading-"
  | ImageToVideo _ _ _ => "video-loading-"
  | ImproveImage _ => "improve-loading-"
  end.

(** What happens to the component during a session: a handler starts, a
    pending handler resumes with its response, the viewer or the improve
    dialog is opened.  A resumed handler carries the loading record of
    its closure. *)
Inductive Event : Type :=
| Start (w : Workflow) (now_id now_ts : Z)
| Settle (w : Workflow) (loadingGeneration : LoadingGeneration)
         (r : FetchResult)
| OpenFocusedView (generationId : string) (itemIndex : nat)
| OpenImproveModal (imageUrl imageBytes originalPrompt : string).

Definition step (s : State) (e : Event) : State :=
  match e with
  | Start w now_id now_ts => exec (start w now_id now_ts) s
  | Settle w loadingGeneration r => exec (settle w loadingGeneration r) s
  | OpenFocusedView generationId itemIndex =>
      exec (openFocusedView generationId itemIndex) s
  | OpenImproveModal imageUrl imageBytes originalPrompt =>
      exec (handleOpenImproveModal imageUrl imageBytes originalPrompt) s
  end.

Definition run (events : list Event) (s : State) : State :=
  fold_left step events s.

(** The state once the component is mounted: the [useState] initial
    values, with the sample generations the mount effect installs. *)
Definition mounted (now1 now2 : Z) (key : option string) : State :=
  {| generations := createSampleGenerations now1 now2;
     showApiKeyDialog := false;
     focusedView := {| isOpen := false; mediaItems := []; initialIndex := 0 |};
     improveImageModal := {| im_isOpen := false; im_imageUrl := "";
                             im_imageBytes := ""; im_originalPrompt := "" |};
     gemini_api_key := key;
     fetches := [];
     alerts := [] |}.

End ContentGrid.

(* ================================================================== *)
(** ** image-grid.tsx *)
(* ================================================================== *)

Module ImageGrid.

(** What a handler of the grid does: it logs, sets its own
    [convertingToVideo] cell, or calls the [onImageToVideo] prop. *)
Inductive Effect : Type :=
| ConsoleError (message : string)
| SetConvertingToVideo (index : option nat)
| OnImageToVideo (imageUrl imageBytes prompt : string).

(** [handleConvertToVideo(imageData, index)]; [onImageToVideo] tells
    whether the prop is there.  The prop the grid is given is an [async]
    function, which does not throw into its caller. *)
Definition handleConvertToVideo (onImageToVideo : bool)
    (generation : ContentGrid.ImageGeneration)
    (imageData : ContentGrid.ImageItem) (index : nat) : list Effect :=
  if negb onImageToVideo
     || negb (Js.truthy_opt (ContentGrid.imageBytes imageData))
     || Js.truthy_flag (ContentGrid.isSample imageData)
  then
    [ConsoleError "Image to video conversion not available for sample images"]
  else
    [SetConvertingToVideo (Some index);
     OnImageToVideo (ContentGrid.url imageData)
                    (Js.or_else (ContentGrid.imageBytes imageData) "")
                    (ContentGrid.ig_prompt generation);
     SetConvertingToVideo None].

(** The [disabled] attribute of the "Animate with Veo 2" button. *)
Definition animate_disabled (convertingToVideo : option nat)
    (imageData : ContentGrid.ImageItem) (index : nat) : bool :=
  match convertingToVideo with Some i => (i =? index)%nat | None => false end
  || negb (Js.truthy_opt (ContentGrid.imageBytes imageData))
  || Js.truthy_flag (ContentGrid.isSample imageData).

End ImageGrid.

(* ================================================================== *)
(** ** focused-media-view.tsx *)
(* ================================================================== *)

Module FocusedMediaView.
Import ContentGrid.

(** The props; for the two optional callbacks, whether they are there. *)
Record Props : Type := {
  isOpen : bool;
  mediaItems : list MediaItem;
  initialIndex : Z;
  onImageToVideo : bool;
  onImageImprove : bool
}.

(** The component renders a stacked layout and a side-by-side layout,
    each with its own buttons. *)
Inductive Layout : Type := Mobile | Desktop.

(** What the user can do to the open viewer. *)
Inductive Action : Type :=
| KeyDown (key : string)
| WheelNavigate (forward : bool)
| ClickClose (layout : Layout)
| ClickDownload (layout : Layout)
| ClickImprove (layout : Layout)
| ClickAnimate (layout : Layout)
| ClickThumbnail (layout : Layout) (index : nat)
| ClickPrevious (layout : Layout)
| ClickNext (layout : Layout).

(** What a handler of the viewer does: it calls one of the callback
    props, moves the current index, or starts a download. *)
Inductive Effect : Type :=
| OnClose
| OnImageImprove (imageUrl imageBytes originalPrompt : string)
| OnImageToVideo (imageUrl imageBytes prompt : string)
| SetCurrentIndex (index : Z)
| Download (href filename : string).

(** [mediaItems[currentIndex]] *)
Definition currentItem (props : Props) (currentIndex : Z) : option MediaItem :=
  if (currentIndex <? 0)%Z then None
  else nth_error (mediaItems props) (Z.to_nat currentIndex).

Definition last_index (props : Props) : Z :=
  (Z.of_nat (length (mediaItems props)) - 1)%Z.

Definition type_name (t : MediaType) : string :=
  match t with TImage => "image" | TVideo => "video" end.

(** [handleDownload] *)
Definition handleDownload (item : MediaItem) : list Effect :=
  [Download (m_url item)
            (type_name (m_type item) ^^ "_" ^^ m_id item ^^ "."
             ^^ match m_type item with TVideo => "mp4" | TImage => "png" end)].

(** The "Improve Image" button is rendered. *)
Definition improve_rendered (props : Props) (item : MediaItem) : bool :=
  match m_type item with TImage => true | TVideo => false end
  && onImageImprove props && Js.truthy_opt (m_imageBytes item).

(** The "Animate with Veo 2" button is rendered. *)
Definition animate_rendered (props : Props) (item : MediaItem) : bool :=
  match m_type item with TImage => true | TVideo => false end
  && onImageToVideo props.

(** The handler that runs for an action, given the current index. *)
Definition handle (props : Props) (currentIndex : Z) (a : Action) : list Effect :=
  match a with
  | KeyDown key =>
      if isOpen props then
        if (key =? "Escape")%string then [OnClose]
        else if (key =? "ArrowLeft")%string then
          [SetCurrentIndex (Z.max 0 (currentIndex - 1))]
        else if (key =? "ArrowRight")%string then
          [SetCurrentIndex (Z.min (last_index props) (currentIndex + 1))]
        else []
      else []
  | WheelNavigate forward =>
      if isOpen props then
        let direction := if forward then 1%Z else (-1)%Z in
        [SetCurrentIndex
           (Z.max 0 (Z.min (last_index props) (currentIndex + direction)))]
      else []
  | _ =>
      match currentItem props currentIndex with
      | None => []
      | Some item =>
          if negb (isOpen props) then [] else
          match a with
          | ClickClose _ => [OnClose]
          | ClickDownload _ => handleDownload item
          | ClickImprove _ =>
              if improve_rendered props item then
                [OnImageImprove (m_url item)
                                (Js.or_else (m_imageBytes item) "")
                                (m_prompt item);
                 OnClose]
              else []
          | ClickAnimate _ =>
              if animate_rendered props item then [OnClose] else []
          | ClickThumbnail _ index => [SetCurrentIndex (Z.of_nat index)]
          | ClickPrevious _ =>
              if (currentIndex =? 0)%Z then []
              else [SetCurrentIndex (Z.max 0 (currentIndex - 1))]
          | ClickNext _ =>
              if (currentIndex =? last_index props)%Z then []
              else [SetCurrentIndex (Z.min (last_index props) (currentIndex + 1))]
          | KeyDown _ | WheelNavigate _ => []
          end
      end
  end.

End FocusedMediaView.

(* ================================================================== *)
(** ** app/api/generate-images/route.ts *)
(* ================================================================== *)

Module GenerateImages.

(** The request body, as far as the route destructures it. *)
Record RequestBody : Type := {
  prompt : option string;
  apiKey : option string;
  imageBytes : option string
}.

(** The parts of a [generateContent] response the route looks at. *)
Record InlineData : Type := {
  data : option string;
  mimeType : option string
}.

Record Part : Type := { inlineData : option InlineData }.

(** [candidate.content?.parts] *)
Record Candidate : Type := { content_parts : option (list Part) }.

Record GenerateContentResponse : Type := {
  candidates : option (list Candidate)
}.

(** The content parts of a request to the model. *)
Inductive ContentPart : Type :=
| TextPart (text : string)
| InlinePart (mime : string) (bytes : string).

(** What surrounds the route: the environment variable, the provider
    (how the call of each index settles) and the clock read when the
    image of each index is extracted. *)
Record Env : Type := {
  GOOGLE_AI_API_KEY : option string;
  generateContent : nat -> list ContentPart -> Js.Thrown + GenerateContentResponse;
  Date_now : nat -> Z
}.

Record Image : Type := {
  id : string;
  url : string;
  image_imageBytes : string
}.

(** The JSON body of the answer. *)
Record Body : Type := {
  success : option bool;
  images : option (list Image);
  body_prompt : option string;
  error : option string;
  details : option string
}.

Record Response : Type := { status : nat; body : Body }.

(** The inner [for] loop: the first part with data. *)
Fixpoint first_part (parts : list Part) : option (string * string) :=
  match parts with
  | [] => None
  | part :: rest =>
      match inlineData part with
      | Some d =>
          match data d with
          | Some bytes =>
              if Js.truthy bytes
              then Some (bytes, Js.or_else (mimeType d) "image/png")
              else first_part rest
          | None => first_part rest
          end
      | None => first_part rest
      end
  end.

(** The outer [for] loop over the candidates. *)
Fixpoint first_image (cands : list Candidate) : option (string * string) :=
  match cands with
  | [] => None
  | candidate :: rest =>
      match content_parts candidate with
      | Some parts =>
          match first_part parts with
          | Some found => Some found
          | None => first_image rest
          end
      | None => first_image rest
      end
  end.

(** [contentParts]: the prompt, and the input image when there is
    one. *)
Definition contentParts (prompt : string) (imageBytes : option string)
  : list ContentPart :=
  TextPart prompt ::
  match imageBytes with
  | Some bytes => if Js.truthy bytes then [InlinePart "image/png" bytes] else []
  | None => []
  end.

(** One of the four [async (_, index) => ...] calls: an image or
    [null]. *)
Definition imagePromise (env : Env) (prompt : string)
    (imageBytes : option string) (index : nat) : option Image :=
  match generateContent env index (contentParts prompt imageBytes) with
  | inr response =>
      let candidates :=
        match candidates response with Some c => c | None => [] end in
      match first_image candidates with
      | Some (bytes, mimeType) =>
          Some {| id := Js.show_Z (Date_now env index) ^^ "-" ^^ Js.show_nat index;
                  url := "data:" ^^ mimeType ^^ ";base64," ^^ bytes;
                  image_imageBytes := bytes |}
      | None => None
      end
  | inl _ => None
  end.

Definition error_response (status : nat) (message : string) : Response :=
  {| status := status;
     body := {| success := None; images := None; body_prompt := None;
                error := Some message; details := None |} |}.

(** [POST]; the argument is how [await request.json()] settles. *)
Definition POST (env : Env) (request_json : Js.Thrown + RequestBody) : Response :=
  match request_json with
  | inl err =>
      {| status := 500;
         body := {| success := Some false; images := None; body_prompt := None;
                    error := Some (Js.message_or_default err "Failed to generate images");
                    details := Some (Js.name_or_default err "Unknown error") |} |}
  | inr req =>
      if negb (Js.truthy_opt (prompt req)) then
        error_response 400 "Prompt is required"
      else
        let prompt := Js.or_else (prompt req) "" in
        let apiKey :=
          if Js.truthy_opt (apiKey req) then apiKey req
          else GOOGLE_AI_API_KEY env in
        if negb (Js.truthy_opt apiKey) then
          error_response 401
            "No API key provided. Please add your Google AI API key in the settings."
        else
          let imagePromises :=
            map (imagePromise env prompt (imageBytes req)) (seq 0 4) in
          let generatedImages := imagePromises in
          let images := Js.filter_Boolean generatedImages in
          {| status := 200;
             body := {| success := Some true; images := Some images;
                        body_prompt := Some prompt;
                        error := None; details := None |} |}
  end.

End GenerateImages.

(* ================================================================== *)
(** ** app/api/generate-videos/route.ts and app/api/image-to-video/route.ts *)
(* ================================================================== *)

Module VideoRoutes.

(** The two routes differ in the request they validate, in the model
    call and in the message of their [catch]; the polling loop and what
    follows it are the same text. *)
Inductive Route : Type := GenerateVideos | ImageToVideo.

Record RequestBody : Type := {
  prompt : option string;
  imageBytes : option string;
  apiKey : option string
}.

(** [generatedVideo.video?.uri] *)
Record GeneratedVideo : Type := { video_uri : option string }.

(** A long-running operation, as far as the routes read it:
    [operation.done] and [operation.response?.generatedVideos]. *)
Record Operation : Type := {
  done : option bool;
  generatedVideos : option (list GeneratedVideo)
}.

(** The model call of each route. *)
Inductive ModelCall : Type :=
| Veo3 (prompt : string)
| Veo2 (prompt imageBytes : string).

(** What surrounds a route: the environment variable, the provider (how
    the model call settles, and how the status check number [k], counted
    from 0, of an operation settles) and the clock read for the video of
    each index. *)
Record Env : Type := {
  GOOGLE_AI_API_KEY : option string;
  generateVideos : ModelCall -> Js.Thrown + Operation;
  getVideosOperation : nat -> Operation -> Js.Thrown + Operation;
  Date_now : nat -> Z
}.

(** What the route does towards the outside while it polls. *)
Inductive Effect : Type :=
| Wait (milliseconds : Z)          (* await new Promise(r => setTimeout(r, ms)) *)
| StatusCheck (operation : Operation).  (* ai.operations.getVideosOperation *)

Record Video : Type := { id : string; url : string; uri : string }.

Record Body : Type := {
  success : option bool;
  videos : option (list (option Video));
  body_prompt : option string;
  error : option string
}.

Record Response : Type := { status : nat; body : Body }.

Definition error_response (status : nat) (message : string) : Response :=
  {| status := status;
     body := {| success := None; videos := None; body_prompt := None;
                error := Some message |} |}.

Definition maxAttempts : nat := 60.

(** The variables of the polling loop, with the effects so far. *)
Record Loop : Type := {
  operation : Operation;
  attempts : nat;
  trace : list Effect
}.

(** [while (!operation.done && attempts < maxAttempts) { ... }].  The
    result is [None] when the fuel runs out, and otherwise the state at
    the exit of the loop or, when a status check throws, what it threw
    with the state at that point. *)
Fixpoint poll (env : Env) (fuel : nat) (st : Loop)
  : option (Js.Thrown * Loop + Loop) :=
  match fuel with
  | 0 => None
  | S fuel =>
      if negb (Js.truthy_flag (done (operation st)))
         && (attempts st <? maxAttempts)%nat
      then
        let waited := trace st ++ [Wait 10000%Z] in
        let checked := waited ++ [StatusCheck (operation st)] in
        match getVideosOperation env (attempts st) (operation st) with
        | inl thrown =>
            Some (inl (thrown, {| operation := operation st;
                                  attempts := attempts st;
                                  trace := checked |}))
        | inr operation' =>
            poll env fuel {| operation := operation';
                             attempts := S (attempts st);
                             trace := checked |}
        end
      else Some (inr st)
  end.

(** The [map] over the generated videos; since [filter(Boolean)] is
    applied to the promises and not to their results, a video without
    uri stays in the list as [null]. *)
Definition collect_videos (env : Env) (apiKey : string) (op : Operation)
  : list (option Video) :=
  match generatedVideos op with
  | Some l =>
      Js.mapi (fun generatedVideo index =>
                 match video_uri generatedVideo with
                 | Some videoUri =>
                     if Js.truthy videoUri then
                       Some {| id := Js.show_Z (Date_now env index) ^^ "-"
                                     ^^ Js.show_nat index;
                               url := videoUri ^^ "&key=" ^^ apiKey;
                               uri := videoUri |}
                     else None
                 | None => None
                 end) l
  | None => []
  end.

Definition catch_message (route : Route) : string :=
  match route with
  | GenerateVideos => "Failed to generate videos"
  | ImageToVideo => "Failed to convert image to video"
  end.

(** The check of the request body at the head of each route. *)
Definition invalid (route : Route) (req : RequestBody) : option string :=
  match route with
  | GenerateVideos =>
      if negb (Js.truthy_opt (prompt req)) then Some "Prompt is required"
      else None
  | ImageToVideo =>
      if negb (Js.truthy_opt (prompt req)) || negb (Js.truthy_opt (imageBytes req))
      then Some "Prompt and image are required"
      else None
  end.

Definition model_call (route : Route) (req : RequestBody) : ModelCall :=
  match route with
  | GenerateVideos => Veo3 (Js.or_else (prompt req) "")
  | ImageToVideo =>
      Veo2 (Js.or_else (prompt req) "") (Js.or_else (imageBytes req) "")
  end.

(** [POST] of either route, run with the given fuel for its loop; the
    result is the answer with the waits and status checks made. *)
Definition POST_with (fuel : nat) (route : Route) (env : Env)
    (request_json : Js.Thrown + RequestBody) : option (Response * list Effect) :=
  match request_json with
  | inl _ => Some (error_response 500 (catch_message route), [])
  | inr req =>
      match invalid route req with
      | Some message => Some (error_response 400 message, [])
      | None =>
          let apiKey :=
            if Js.truthy_opt (apiKey req) then apiKey req
            else GOOGLE_AI_API_KEY env in
          if negb (Js.truthy_opt apiKey) then
            Some (error_response 401
                    "No API key provided. Please add your Google AI API key in the settings.",
                  [])
          else
            match generateVideos env (model_call route req) with
            | inl _ => Some (error_response 500 (catch_message route), [])
            | inr operation0 =>
                match poll env fuel {| operation := operation0;
                                       attempts := 0;
                                       trace := [] |} with
                | None => None
                | Some (inl (_, st)) =>
                    Some (error_response 500 (catch_message route), trace st)
                | Some (inr st) =>
                    if negb (Js.truthy_flag (done (operation st))) then
                      Some (error_response 408 "Video generation timed out",
                            trace st)
                    else
                      Some ({| status := 200;
                               body := {| success := Some true;
                                          videos :=
                                            Some (collect_videos env
                                                    (Js.or_else apiKey "")
                                                    (operation st));
                                          body_prompt := prompt req;
                                          error := None |} |},
                            trace st)
                end
            end
      end
  end.

(** The loop leaves within [maxAttempts] rounds; one more unit of fuel
    lets it test its condition a last time. *)
Definition POST : Route -> Env -> Js.Thrown + RequestBody
                  -> option (Response * list Effect) :=
  POST_with (S maxAttempts).

End VideoRoutes.

(* ================================================================== *)
(** ** app/api/improve-image/route.ts *)
(* ================================================================== *)

Module ImproveImage.

Record RequestBody : Type := {
  originalPrompt : option string;
  improvementPrompt : option string;
  imageBytes : option string;
  apiKey : option string
}.

(** [generatedImage.image?.imageBytes] *)
Record GeneratedImage : Type := { image_imageBytes : option string }.

Record GenerateImagesResponse : Type := {
  generatedImages : option (list GeneratedImage)
}.

(** [requestConfig]: the model is fixed. *)
Record RequestConfig : Type := {
  config_prompt : string;
  numberOfImages : nat
}.

Record Env : Type := {
  GOOGLE_AI_API_KEY : option string;
  generateImages : RequestConfig -> Js.Thrown + GenerateImagesResponse;
  Date_now : nat -> Z
}.

Record Image : Type := { id : string; url : string; image_bytes : string }.

Record Body : Type := {
  success : option bool;
  images : option (list Image);
  body_originalPrompt : option string;
  body_improvementPrompt : option string;
  enhancedPrompt : option string;
  error : option string;
  details : option string
}.

Record Response : Type := { status : nat; body : Body }.

Definition error_response (status : nat) (message : string) : Response :=
  {| status := status;
     body := {| success := None; images := None;
                body_originalPrompt := None; body_improvementPrompt := None;
                enhancedPrompt := None;
                error := Some message; details := None |} |}.

(** [`${originalPrompt}. Please improve this image by: ${improvementPrompt}`] *)
Definition compose (originalPrompt improvementPrompt : string) : string :=
  originalPrompt ^^ ". Please improve this image by: " ^^ improvementPrompt.

(** The [map] over [response.generatedImages], before [filter(Boolean)]. *)
Definition convert (env : Env) (response : GenerateImagesResponse)
  : list (option Image) :=
  Js.mapi (fun generatedImage index =>
             match image_imageBytes generatedImage with
             | Some imageData =>
                 if Js.truthy imageData then
                   Some {| id := "improved-" ^^ Js.show_Z (Date_now env index)
                                 ^^ "-" ^^ Js.show_nat index;
                           url := "data:image/png;base64," ^^ imageData;
                           image_bytes := imageData |}
                 else None
             | None => None
             end)
          (match generatedImages response with Some l => l | None => [] end).

Definition POST (env : Env) (request_json : Js.Thrown + RequestBody) : Response :=
  let failed err :=
    {| status := 500;
       body := {| success := Some false; images := None;
                  body_originalPrompt := None; body_improvementPrompt := None;
                  enhancedPrompt := None;
                  error := Some (Js.message_or_default err "Failed to improve image");
                  details := Some (Js.name_or_default err "Unknown error") |} |} in
  match request_json with
  | inl err => failed err
  | inr req =>
      if negb (Js.truthy_opt (originalPrompt req))
         || negb (Js.truthy_opt (improvementPrompt req)) then
        error_response 400 "Both original and improvement prompts are required"
      else if negb (Js.truthy_opt (imageBytes req)) then
        error_response 400 "Image data is required for improvement"
      else
        let apiKey :=
          if Js.truthy_opt (apiKey req) then apiKey req
          else GOOGLE_AI_API_KEY env in
        if negb (Js.truthy_opt apiKey) then
          error_response 401
            "No API key provided. Please add your Google AI API key in the settings."
        else
          let enhancedPrompt :=
            compose (Js.or_else (originalPrompt req) "")
                    (Js.or_else (improvementPrompt req) "") in
          let requestConfig :=
            {| config_prompt := enhancedPrompt; numberOfImages := 4 |} in
          match generateImages env requestConfig with
          | inl err => failed err
          | inr response =>
              let images := Js.filter_Boolean (convert env response) in
              {| status := 200;
                 body := {| success := Some true; images := Some images;
                            body_originalPrompt := originalPrompt req;
                            body_improvementPrompt := improvementPrompt req;
                            enhancedPrompt := Some enhancedPrompt;
                            error := None; details := None |} |}
          end
  end.

End ImproveImage.

(* ================================================================== *)
(** ** The components wired together, as [ContentGrid] renders them *)
(* ================================================================== *)

Module App.
Import ContentGrid.
Local Open Scope m_scope.

(** [ImageGrid] is given [onImageToVideo={handleImageToVideo}]: calling
    the prop runs the handler up to its first [await]. *)
Definition grid_effect (now_id now_ts : Z) (e : ImageGrid.Effect) : M unit :=
  match e with
  | ImageGrid.OnImageToVideo imageUrl imageBytes prompt =>
      _ <- handleImageToVideo_start imageUrl imageBytes prompt now_id now_ts ;;
      ret tt
  | ImageGrid.ConsoleError _ => ret tt
  | ImageGrid.SetConvertingToVideo _ => ret tt
  end.

Fixpoint grid_effects (now_id now_ts : Z) (es : list ImageGrid.Effect) : M unit :=
  match es with
  | [] => ret tt
  | e :: rest => grid_effect now_id now_ts e ;; grid_effects now_id now_ts rest
  end.

(** The user asks to animate image [index] of a generation shown in the
    grid. *)
Definition convertToVideo (generation : ImageGeneration) (imageData : ImageItem)
    (index : nat) (now_id now_ts : Z) : M (list ImageGrid.Effect) :=
  let effects := ImageGrid.handleConvertToVideo true generation imageData index in
  grid_effects now_id now_ts effects ;;
  ret effects.

(** [FocusedMediaView] is given [onClose], [onImageToVideo] and
    [onImageImprove] by [ContentGrid]. *)
Definition viewer_props (s : State) : FocusedMediaView.Props :=
  {| FocusedMediaView.isOpen := isOpen (focusedView s);
     FocusedMediaView.mediaItems := mediaItems (focusedView s);
     FocusedMediaView.initialIndex := Z.of_nat (initialIndex (focusedView s));
     FocusedMediaView.onImageToVideo := true;
     FocusedMediaView.onImageImprove := true |}.

Definition viewer_effect (now_id now_ts : Z) (e : FocusedMediaView.Effect)
  : M unit :=
  match e with
  | FocusedMediaView.OnClose =>
      (* setFocusedView(prev => ({ ...prev, isOpen: false })) *)
      fun s => setFocusedView {| isOpen := false;
                                 mediaItems := mediaItems (focusedView s);
                                 initialIndex := initialIndex (focusedView s) |} s
  | FocusedMediaView.OnImageToVideo imageUrl imageBytes prompt =>
      _ <- handleImageToVideo_start imageUrl imageBytes prompt now_id now_ts ;;
      ret tt
  | FocusedMediaView.OnImageImprove imageUrl imageBytes originalPrompt =>
      handleOpenImproveModal imageUrl imageBytes originalPrompt
  | FocusedMediaView.SetCurrentIndex _ => ret tt
  | FocusedMediaView.Download _ _ => ret tt
  end.

Fixpoint viewer_effects (now_id now_ts : Z) (es : list FocusedMediaView.Effect)
  : M unit :=
  match es with
  | [] => ret tt
  | e :: rest => viewer_effect now_id now_ts e ;; viewer_effects now_id now_ts rest
  end.

(** The user acts on the open viewer. *)
Definition viewer_action (currentIndex : Z) (a : FocusedMediaView.Action)
    (now_id now_ts : Z) : M unit :=
  fun s =>
    viewer_effects now_id now_ts
                   (FocusedMediaView.handle (viewer_props s) currentIndex a) s.

(** The request of the improve workflow as the route receives it, and
    the answer of the route as the component reads it. *)
Definition improve_request (r : Request) : option ImproveImage.RequestBody :=
  match r with
  | PostImproveImage originalPrompt improvementPrompt imageBytes apiKey =>
      Some {| ImproveImage.originalPrompt := Some originalPrompt;
              ImproveImage.improvementPrompt := Some improvementPrompt;
              ImproveImage.imageBytes := Some imageBytes;
              ImproveImage.apiKey := apiKey |}
  | _ => None
  end.

(** The answer of the image route as the component reads it. *)
Definition images_answer (r : GenerateImages.Response) : FetchResult :=
  Resolved {| success := GenerateImages.success (GenerateImages.body r);
              images :=
                option_map
                  (map (fun img => {| d_url := GenerateImages.url img;
                                      d_imageBytes :=
                                        Some (GenerateImages.image_imageBytes img) |}))
                  (GenerateImages.images (GenerateImages.body r));
              videos := None;
              error := GenerateImages.error (GenerateImages.body r);
              enhancedPrompt := None |}.

Definition improve_answer (r : ImproveImage.Response) : FetchResult :=
  Resolved {| success := ImproveImage.success (ImproveImage.body r);
              images :=
                option_map
                  (map (fun img => {| d_url := ImproveImage.url img;
                                      d_imageBytes :=
                                        Some (ImproveImage.image_bytes img) |}))
                  (ImproveImage.images (ImproveImage.body r));
              videos := None;
              error := ImproveImage.error (ImproveImage.body r);
              enhancedPrompt := ImproveImage.enhancedPrompt (ImproveImage.body r) |}.

End App.

(* ================================================================== *)
(** ** Vocabulary of the properties *)
(* ================================================================== *)

Module Spec.
Import ContentGrid.

(** [a] may stand before [b] in a newest-first order by [key]. *)
Definition newest_first {A : Type} (key : A -> Z) (a b : A) : Prop :=
  (key b <= key a)%Z.

(** Comparators of the shape [(a, b) => key(b) - key(a)]. *)
Definition descending {A : Type} (key : A -> Z) (a b : A) : Z :=
  (key b - key a)%Z.

(** The completed (non-loading) records of a timeline, in order. *)
Definition completed (timeline : list Generation) : list Generation :=
  filter (fun g => negb (isLoading g)) timeline.

(** The separator between generation id and local index in the id of a
    flattened item. *)
Definition media_tag (g : Generation) : string :=
  match g with
  | Images _ => "-img-"
  | Videos _ => "-vid-"
  | Loading _ => ""
  end.

Definition media_type (g : Generation) : MediaType :=
  match g with
  | Images _ => TImage
  | Videos _ => TVideo
  | Loading g => lg_type g
  end.

(** The ids of the records of a timeline, in order. *)
Definition ids (timeline : list Generation) : list string :=
  map gen_id timeline.

(** The clock readings that enter the ids begun by a run of events,
    each with the prefix of its handler. *)
Fixpoint id_clock_readings (events : list Event) : list (string * Z) :=
  match events with
  | [] => []
  | Start w now_id _ :: rest => (id_prefix w, now_id) :: id_clock_readings rest
  | _ :: rest => id_clock_readings rest
  end.

(** The readings of [new Date()] stamped on the records begun by a run
    of events. *)
Fixpoint timestamp_readings (events : list Event) : list Z :=
  match events with
  | [] => []
  | Start _ _ now_ts :: rest => now_ts :: timestamp_readings rest
  | _ :: rest => timestamp_readings rest
  end.

(** Every handler a run resumes is one the run has started: [pending]
    holds the loading records of the handlers started so far. *)
Fixpoint resumes_started (pending : list LoadingGeneration) (s : State)
    (events : list Event) : Prop :=
  match events with
  | [] => True
  | Start w now_id now_ts :: rest =>
      resumes_started (eval (start w now_id now_ts) s :: pending)
                      (step s (Start w now_id now_ts)) rest
  | Settle w lg r :: rest =>
      In lg pending /\ resumes_started pending (step s (Settle w lg r)) rest
  | e :: rest => resumes_started pending (step s e) rest
  end.

(** What a run keeps true of the timeline under a clock that does not
    go back: it is newest first, no record is stamped later than [hi],
    every record is a sample or carries the id and the timestamp of a
    handler started, and the handlers started got their ids from the
    clock readings [seen], one timestamp per id. *)
Definition in_order (now1 now2 : Z) (s : State)
    (started : list LoadingGeneration) (seen : list (string * Z)) (hi : Z)
  : Prop :=
  StronglySorted (newest_first gen_timestamp) (generations s) /\
  (forall g, In g (generations s) -> (gen_timestamp g <= hi)%Z) /\
  (forall g, In g (generations s) ->
     In (gen_id g) (ids (createSampleGenerations now1 now2)) \/
     exists lg, In lg started /\ gen_id g = lg_id lg /\
                gen_timestamp g = lg_timestamp lg) /\
  (forall lg, In lg started ->
     exists w n, In (id_prefix w, n) seen /\
                 lg_id lg = id_prefix w ^^ Js.show_Z n) /\
  (forall lg lg', In lg started -> In lg' started ->
     lg_id lg = lg_id lg' -> lg_timestamp lg = lg_timestamp lg').

(** [s] occurs in [t]. *)
Definition occurs_in (s t : string) : Prop :=
  exists before after, t = before ^^ s ^^ after.

End Spec.

Module GenerateImagesSpec.
Import GenerateImages.

(** An answer reports a failure when its status is not 2xx or its
    [success] field is not true (the client reads the latter). *)
Definition is_failure (r : Response) : bool :=
  negb ((200 <=? status r)%nat && (status r <? 300)%nat) ||
  negb (Js.truthy_flag (success (body r))).

(** A response carries an image payload: some part of some candidate
    has non-empty inline data. *)
Definition has_payload (response : GenerateContentResponse) : Prop :=
  exists cands candidate parts part d bytes,
    candidates response = Some cands /\ In candidate cands /\
    content_parts candidate = Some parts /\ In part parts /\
    inlineData part = Some d /\ data d = Some bytes /\ bytes <> "".

(** The sub-call of an index produced an image payload: it did not
    throw and its response carries one. *)
Definition produced_payload (env : Env) (prompt : string)
    (imageBytes : option string) (index : nat) : Prop :=
  exists response,
    generateContent env index (contentParts prompt imageBytes) = inr response /\
    has_payload response.

(** The request passes the checks made before the batch is launched. *)
Definition launches (env : Env) (req : RequestBody) : Prop :=
  Js.truthy_opt (prompt req) = true /\
  (Js.truthy_opt (apiKey req) || Js.truthy_opt (GOOGLE_AI_API_KEY env)) = true.

(** The images of an answer ([[]] when it has none). *)
Definition images_of (r : Response) : list Image :=
  match images (body r) with Some l => l | None => [] end.

(** *** Providers for the examples *)

Definition png (bytes : string) : Js.Thrown + GenerateContentResponse :=
  inr {| candidates :=
           Some [ {| content_parts :=
                       Some [ {| inlineData := None |};
                              {| inlineData :=
                                   Some {| data := Some bytes;
                                           mimeType := None |} |} ] |} ] |}.

Definition no_image : Js.Thrown + GenerateContentResponse :=
  inr {| candidates := Some [ {| content_parts := None |} ] |}.

Definition quota_error : Js.Thrown + GenerateContentResponse :=
  inl (Js.ErrorObj "ApiError" "quota exceeded").

(** Two of the four sub-calls give an image, one gives a response
    without image and one throws. *)
Definition two_of_four : Env :=
  {| GOOGLE_AI_API_KEY := None;
     generateContent := fun index _ =>
       match index with
       | 0 => png "AAAA"
       | 1 => no_image
       | 2 => png "BBBB"
       | _ => quota_error
       end;
     Date_now := fun _ => 1700000000000%Z |}.

(** None of the four sub-calls gives an image. *)
Definition none_of_four : Env :=
  {| GOOGLE_AI_API_KEY := None;
     generateContent := fun index _ =>
       match index with
       | 0 => no_image
       | 1 => quota_error
       | 2 => inr {| candidates := None |}
       | _ => quota_error
       end;
     Date_now := fun _ => 1700000000000%Z |}.

Definition fox_request : RequestBody :=
  {| prompt := Some "a red fox"; apiKey := Some "key"; imageBytes := None |}.

End GenerateImagesSpec.

Module VideoRoutesSpec.
Import VideoRoutes.

(** The request passes the checks made before the model is called. *)
Definition accepted (route : Route) (env : Env) (req : RequestBody) : Prop :=
  invalid route req = None /\
  (Js.truthy_opt (apiKey req) || Js.truthy_opt (GOOGLE_AI_API_KEY env)) = true.

(** The key the route uses. *)
Definition key_of (env : Env) (req : RequestBody) : string :=
  Js.or_else (if Js.truthy_opt (apiKey req) then apiKey req
              else GOOGLE_AI_API_KEY env) "".

(** The operation handle after [n] status checks, when none of them
    throws. *)
Fixpoint handle_after (env : Env) (op0 : Operation) (n : nat) : option Operation :=
  match n with
  | 0 => Some op0
  | S k =>
      match handle_after env op0 k with
      | Some op =>
          match getVideosOperation env k op with
          | inr op' => Some op'
          | inl _ => None
          end
      | None => None
      end
  end.

(** The handle is still pending after [n] checks. *)
Definition pending_after (env : Env) (op0 : Operation) (n : nat) : Prop :=
  exists op, handle_after env op0 n = Some op /\ Js.truthy_flag (done op) = false.

(** The handle reports done after [n] checks. *)
Definition done_after (env : Env) (op0 : Operation) (n : nat) (op : Operation)
  : Prop :=
  handle_after env op0 n = Some op /\ Js.truthy_flag (done op) = true.

(** The number of status checks in a trace. *)
Definition status_checks (t : list Effect) : nat :=
  length (filter (fun e => match e with StatusCheck _ => true | Wait _ => false end) t).

(** A trace of [n] rounds, each a wait of ten seconds followed by one
    status check. *)
Fixpoint rounds (t : list Effect) (n : nat) : Prop :=
  match n, t with
  | 0, [] => True
  | S k, Wait ms :: StatusCheck _ :: rest => ms = 10000%Z /\ rounds rest k
  | _, _ => False
  end.

(** *** Providers for the examples *)

Definition pending : Operation := {| done := Some false; generatedVideos := None |}.

Definition finished : Operation :=
  {| done := Some true;
     generatedVideos := Some [ {| video_uri := Some "https://v/1?alt=media" |};
                               {| video_uri := Some "https://v/2?alt=media" |} ] |}.

(** A provider whose handle never reports done. *)
Definition never_done : Env :=
  {| GOOGLE_AI_API_KEY := Some "env-key";
     generateVideos := fun _ => inr pending;
     getVideosOperation := fun _ _ => inr pending;
     Date_now := fun _ => 1700000000000%Z |}.

(** A provider whose handle reports done at the third status check. *)
Definition done_at_third : Env :=
  {| GOOGLE_AI_API_KEY := Some "env-key";
     generateVideos := fun _ => inr pending;
     getVideosOperation := fun k _ =>
       match k with 0 | 1 => inr pending | _ => inr finished end;
     Date_now := fun _ => 1700000000000%Z |}.

Definition skyline : RequestBody :=
  {| prompt := Some "a city skyline"; imageBytes := Some "b"; apiKey := None |}.

End VideoRoutesSpec.

(* ================================================================== *)
(** ** Concrete timelines, sessions and providers *)
(* ================================================================== *)

Module Timelines.
Import ContentGrid.

(** A state with the given timeline and nothing else. *)
Definition state_of (timeline : list Generation) : State :=
  {| generations := timeline;
     showApiKeyDialog := false;
     focusedView := {| isOpen := false; mediaItems := []; initialIndex := 0 |};
     improveImageModal := {| im_isOpen := false; im_imageUrl := "";
                             im_imageBytes := ""; im_originalPrompt := "" |};
     gemini_api_key := Some "key";
     fetches := [];
     alerts := [] |}.

Definition one_image (id : string) (u : string) (t : Z) : Generation :=
  Images {| ig_id := id; ig_prompt := "p";
            ig_images := [ {| url := u; imageBytes := Some "b";
                              isSample := None |} ];
            ig_timestamp := t; ig_isLoading := false |}.

(** Two completed records whose order in the timeline is not their
    order in time: the record at the head is the older one. *)
Definition older_first : list Generation :=
  [ one_image "a" "a.png" 1; one_image "b" "b.png" 2 ].

(** The same two records, newest at the head. *)
Definition newer_first : list Generation :=
  [ one_image "b" "b.png" 2; one_image "a" "a.png" 1 ].

Definition item_a : MediaItem :=
  {| m_id := "a-img-0"; m_type := TImage; m_url := "a.png"; m_prompt := "p";
     m_timestamp := 1; m_sourceImage := None; m_imageBytes := Some "b" |}.

Definition item_b : MediaItem :=
  {| m_id := "b-img-0"; m_type := TImage; m_url := "b.png"; m_prompt := "p";
     m_timestamp := 2; m_sourceImage := None; m_imageBytes := Some "b" |}.

End Timelines.

Module RedFox.
Import ContentGrid.

(** The response of the image route with four images. *)
Definition four_images : FetchResult :=
  Resolved {| success := Some true;
              images := Some (map (fun u => {| d_url := u;
                                               d_imageBytes := Some "b" |})
                                  ["1.png"; "2.png"; "3.png"; "4.png"]);
              videos := None;
              error := None;
              enhancedPrompt := None |}.

(** The loading record of [handleNewGeneration("image", "a red fox")]
    begun at clock reading 7. *)
Definition fox_loading : LoadingGeneration :=
  {| lg_id := "loading-7"; lg_prompt := "a red fox"; lg_type := TImage;
     lg_timestamp := 7; lg_sourceImage := None |}.

Definition fox_completed : Generation :=
  Images {| ig_id := "loading-7"; ig_prompt := "a red fox";
            ig_images := map (fun u => {| url := u; imageBytes := Some "b";
                                          isSample := None |})
                             ["1.png"; "2.png"; "3.png"; "4.png"];
            ig_timestamp := 7; ig_isLoading := false |}.

(** A loading record for the same prompt begun at the same clock
    reading as [fox_loading] but stamped one millisecond later. *)
Definition fox_loading_again : LoadingGeneration :=
  {| lg_id := "loading-7"; lg_prompt := "a red fox"; lg_type := TImage;
     lg_timestamp := 8; lg_sourceImage := None |}.

End RedFox.

Module Sessions.
Import ContentGrid.

Definition fox : Workflow := NewGeneration TImage "a red fox".



(** The answer of the image route with one image. *)
Definition one_image_answer (u : string) : FetchResult :=
  Resolved {| success := Some true;
              images := Some [ {| d_url := u; d_imageBytes := Some "b" |} ];
              videos := None;
              error := None;
              enhancedPrompt := None |}.

(** Two image workflows, each answered with one image, the second
    begun after the clock of the browser was set back from 5 to 3. *)
Definition clock_set_back : list Event :=
  [ Start (NewGeneration TImage "p") 5 5;
    Settle (NewGeneration TImage "p")
           {| lg_id := "loading-5"; lg_prompt := "p"; lg_type := TImage;
              lg_timestamp := 5; lg_sourceImage := None |}
           (one_image_answer "b.png");
    Start (NewGeneration TImage "p") 3 3;
    Settle (NewGeneration TImage "p")
           {| lg_id := "loading-3"; lg_prompt := "p"; lg_type := TImage;
              lg_timestamp := 3; lg_sourceImage := None |}
           (one_image_answer "a.png") ].

End Sessions.

Module Screens.
Import ContentGrid.

(** A sample image of the seeded generation, and a generated image that
    kept its bytes. *)
Definition sample_image : ImageItem :=
  {| url := "/sample-images/generated-image-1.png"; imageBytes := None;
     isSample := Some true |}.

Definition generated_image : ImageItem :=
  {| url := "data:image/png;base64,AAAA"; imageBytes := Some "AAAA";
     isSample := None |}.

Definition sample_generation : ImageGeneration :=
  {| ig_id := "sample-image-1";
     ig_prompt := "A majestic ice warrior in blue armor standing in a snowy landscape";
     ig_images := [sample_image];
     ig_timestamp := 0;
     ig_isLoading := false |}.

(** The improve dialog opened on an image of prompt "a fox". *)
Definition fox_dialog : State :=
  exec (handleOpenImproveModal "data:image/png;base64,AAAA" "AAAA" "a fox")
       (mounted 0 0 (Some "key")).

(** A provider of the improve route that returns four images. *)
Definition four_improved : ImproveImage.Env :=
  {| ImproveImage.GOOGLE_AI_API_KEY := None;
     ImproveImage.generateImages := fun _ =>
       inr {| ImproveImage.generatedImages :=
                Some (map (fun b => {| ImproveImage.image_imageBytes := Some b |})
                          ["AAAA"; "BBBB"; "CCCC"; "DDDD"]) |};
     ImproveImage.Date_now := fun _ => 1700000000000%Z |}.

(** A finished operation one of whose two videos has no uri, and a
    provider that returns it at once. *)
Definition half_finished : VideoRoutes.Operation :=
  {| VideoRoutes.done := Some true;
     VideoRoutes.generatedVideos :=
       Some [ {| VideoRoutes.video_uri := Some "https://v/1?alt=media" |};
              {| VideoRoutes.video_uri := None |} ] |}.

Definition one_without_uri : VideoRoutes.Env :=
  {| VideoRoutes.GOOGLE_AI_API_KEY := None;
     VideoRoutes.generateVideos := fun _ => inr half_finished;
     VideoRoutes.getVideosOperation := fun _ op => inr op;
     VideoRoutes.Date_now := fun _ => 1700000000000%Z |}.

(** The viewer open on a generated image that kept its bytes. *)
Definition viewing_generated : State :=
  exec (openFocusedView "b" 0) (Timelines.state_of Timelines.newer_first).

End Screens.

Module ImproveFox.
Import ContentGrid.

(** The body the improve route is sent by an improve run of
    "sharper fur" on the dialog of [Screens.fox_dialog]. *)
Definition fox_improve_request : ImproveImage.RequestBody :=
  {| ImproveImage.originalPrompt := Some "a fox";
     ImproveImage.improvementPrompt := Some "sharper fur";
     ImproveImage.imageBytes := Some "AAAA";
     ImproveImage.apiKey := Some "key" |}.

(** What the component reads of the route's answer to it. *)
Definition fox_improved : Data :=
  {| success := Some true;
     images := Some (map (fun b => {| d_url := "data:image/png;base64," ^^ b;
                                      d_imageBytes := Some b |})
                         ["AAAA"; "BBBB"; "CCCC"; "DDDD"]);
     videos := None;
     error := None;
     enhancedPrompt := Some "a fox. Please improve this image by: sharper fur" |}.

(** The same answer from a provider that echoes no prompt. *)
Definition fox_improved_silent : Data :=
  {| success := Some true;
     images := images fox_improved;
     videos := None;
     error := None;
     enhancedPrompt := None |}.

End ImproveFox.

(* ================================================================== *)
(** ** Further vocabulary: ids, traces, requests *)
(* ================================================================== *)

Module Notions.
Import ContentGrid.

(** A decimal digit. *)
Definition is_digit (c : ascii) : bool :=
  match c with
  | "0" | "1" | "2" | "3" | "4" | "5" | "6" | "7" | "8" | "9" => true
  | _ => false
  end%char.

Fixpoint all_digits (s : string) : bool :=
  match s with
  | EmptyString => true
  | String c rest => is_digit c && all_digits rest
  end.

(** The ids of the items of a flattened list, in order. *)
Definition item_ids (items : list MediaItem) : list string :=
  map m_id items.

(** The records of a timeline that carry another id than [id]. *)
Definition others (id : string) (timeline : list Generation) : list Generation :=
  filter (fun g => negb (gen_id g =? id)%string) timeline.

(** A trace is made of rounds, each a wait of ten seconds followed by
    one status check, and of nothing else. *)
Definition paced (t : list VideoRoutes.Effect) : Prop :=
  VideoRoutesSpec.rounds t (VideoRoutesSpec.status_checks t).

End Notions.

(* ================================================================== *)
(** ** The component and the routes, one request at a time *)
(* ================================================================== *)

Module Network.
Import ContentGrid.

(** The surroundings of the three route files. *)
Record Servers : Type := {
  images_env : GenerateImages.Env;
  videos_env : VideoRoutes.Env;
  improve_env : ImproveImage.Env
}.

(** The answer of a video route as the component reads it. *)
Definition videos_answer (r : VideoRoutes.Response) : FetchResult :=
  Resolved {| success := VideoRoutes.success (VideoRoutes.body r);
              images := None;
              videos :=
                option_map
                  (map (option_map (fun v => {| v_url := VideoRoutes.url v |})))
                  (VideoRoutes.videos (VideoRoutes.body r));
              error := VideoRoutes.error (VideoRoutes.body r);
              enhancedPrompt := None |}.

(** What [await fetch(...)] and [await response.json()] give for a
    request: the route of its path runs on the body sent. *)
Definition serve (srv : Servers) (r : Request) : option FetchResult :=
  match r with
  | PostGenerateImages prompt apiKey =>
      Some (App.images_answer
              (GenerateImages.POST (images_env srv)
                 (inr {| GenerateImages.prompt := Some prompt;
                         GenerateImages.apiKey := apiKey;
                         GenerateImages.imageBytes := None |})))
  | PostGenerateVideos prompt apiKey =>
      option_map (fun a => videos_answer (fst a))
        (VideoRoutes.POST VideoRoutes.GenerateVideos (videos_env srv)
           (inr {| VideoRoutes.prompt := Some prompt;
                   VideoRoutes.imageBytes := None;
                   VideoRoutes.apiKey := apiKey |}))
  | PostImageToVideo prompt imageBytes apiKey =>
      option_map (fun a => videos_answer (fst a))
        (VideoRoutes.POST VideoRoutes.ImageToVideo (videos_env srv)
           (inr {| VideoRoutes.prompt := Some prompt;
                   VideoRoutes.imageBytes := Some imageBytes;
                   VideoRoutes.apiKey := apiKey |}))
  | PostImproveImage originalPrompt improvementPrompt imageBytes apiKey =>
      Some (App.improve_answer
              (ImproveImage.POST (improve_env srv)
                 (inr {| ImproveImage.originalPrompt := Some originalPrompt;
                         ImproveImage.improvementPrompt := Some improvementPrompt;
                         ImproveImage.imageBytes := Some imageBytes;
                         ImproveImage.apiKey := apiKey |})))
  end.

(** The request a handler sends when it starts. *)
Definition request_of (w : Workflow) (s : State) : Request :=
  match w with
  | NewGeneration TImage prompt => PostGenerateImages prompt (gemini_api_key s)
  | NewGeneration TVideo prompt => PostGenerateVideos prompt (gemini_api_key s)
  | ImageToVideo _ imageBytes prompt =>
      PostImageToVideo (prompt ^^ " - animated video") imageBytes
                       (gemini_api_key s)
  | ImproveImage improvementPrompt =>
      PostImproveImage (im_originalPrompt (improveImageModal s))
                       improvementPrompt
                       (im_imageBytes (improveImageModal s))
                       (gemini_api_key s)
  end.

(** A workflow from its start to its end, with nothing in between: the
    handler starts, its request is served, the handler resumes with the
    answer. *)
Definition round_trip (srv : Servers) (w : Workflow) (now_id now_ts : Z)
    (s : State) : option State :=
  let (lg, s1) := start w now_id now_ts s in
  match last (map Some (fetches s1)) None with
  | Some request =>
      match serve srv request with
      | Some answer => Some (exec (settle w lg answer) s1)
      | None => None
      end
  | None => None
  end.

(** The arguments of a workflow pass the checks the routes make on the
    request body. *)
Definition callable (w : Workflow) (s : State) : Prop :=
  match w with
  | NewGeneration _ prompt => Js.truthy prompt = true
  | ImageToVideo _ imageBytes _ => Js.truthy imageBytes = true
  | ImproveImage improvementPrompt =>
      Js.truthy improvementPrompt = true /\
      Js.truthy (im_originalPrompt (improveImageModal s)) = true /\
      Js.truthy (im_imageBytes (improveImageModal s)) = true
  end.

(** No key is stored in the browser and none is set on the server. *)
Definition no_key (srv : Servers) (s : State) : Prop :=
  Js.truthy_opt (gemini_api_key s) = false /\
  Js.truthy_opt (GenerateImages.GOOGLE_AI_API_KEY (images_env srv)) = false /\
  Js.truthy_opt (VideoRoutes.GOOGLE_AI_API_KEY (videos_env srv)) = false /\
  Js.truthy_opt (ImproveImage.GOOGLE_AI_API_KEY (improve_env srv)) = false.

(** The key a video route uses for a workflow started in [s]. *)
Definition video_key (srv : Servers) (s : State) : string :=
  Js.or_else (if Js.truthy_opt (gemini_api_key s) then gemini_api_key s
              else VideoRoutes.GOOGLE_AI_API_KEY (videos_env srv)) "".

(** The video route a workflow calls, if it calls one, and the body it
    sends to it. *)
Definition video_route (w : Workflow) : option VideoRoutes.Route :=
  match w with
  | NewGeneration TVideo _ => Some VideoRoutes.GenerateVideos
  | ImageToVideo _ _ _ => Some VideoRoutes.ImageToVideo
  | _ => None
  end.

Definition video_body (w : Workflow) (s : State) : VideoRoutes.RequestBody :=
  match w with
  | ImageToVideo _ imageBytes prompt =>
      {| VideoRoutes.prompt := Some (prompt ^^ " - animated video");
         VideoRoutes.imageBytes := Some imageBytes;
         VideoRoutes.apiKey := gemini_api_key s |}
  | NewGeneration _ prompt =>
      {| VideoRoutes.prompt := Some prompt;
         VideoRoutes.imageBytes := None;
         VideoRoutes.apiKey := gemini_api_key s |}
  | ImproveImage _ =>
      {| VideoRoutes.prompt := None;
         VideoRoutes.imageBytes := None;
         VideoRoutes.apiKey := gemini_api_key s |}
  end.

(** A key is stored in the browser or set for the video routes. *)
Definition video_key_there (srv : Servers) (s : State) : Prop :=
  (Js.truthy_opt (gemini_api_key s)
   || Js.truthy_opt (VideoRoutes.GOOGLE_AI_API_KEY (videos_env srv))) = true.

(** The source image a completed video record keeps. *)
Definition source_image (w : Workflow) : option string :=
  match w with
  | ImageToVideo imageUrl _ _ => Some imageUrl
  | _ => None
  end.

(** A key is stored in the browser or set for the image route. *)
Definition image_key_there (srv : Servers) (s : State) : Prop :=
  (Js.truthy_opt (gemini_api_key s)
   || Js.truthy_opt (GenerateImages.GOOGLE_AI_API_KEY (images_env srv))) = true.

(** The state in which the improve dialog holds other image bytes. *)
Definition with_image_bytes (bytes : string) (s : State) : State :=
  {| generations := generations s;
     showApiKeyDialog := showApiKeyDialog s;
     focusedView := focusedView s;
     improveImageModal :=
       {| im_isOpen := im_isOpen (improveImageModal s);
          im_imageUrl := im_imageUrl (improveImageModal s);
          im_imageBytes := bytes;
          im_originalPrompt := im_originalPrompt (improveImageModal s) |};
     gemini_api_key := gemini_api_key s;
     fetches := fetches s;
     alerts := alerts s |}.

(** The message each handler puts before the error in its alert. *)
Definition alert_label (w : Workflow) : string :=
  match w with
  | NewGeneration _ _ => "Generation failed"
  | ImageToVideo _ _ _ => "Video conversion failed"
  | ImproveImage _ => "Image improvement failed"
  end.

(** The status of the answer of the route to a request. *)
Definition status (srv : Servers) (r : Request) : option nat :=
  match r with
  | PostGenerateImages prompt apiKey =>
      Some (GenerateImages.status
              (GenerateImages.POST (images_env srv)
                 (inr {| GenerateImages.prompt := Some prompt;
                         GenerateImages.apiKey := apiKey;
                         GenerateImages.imageBytes := None |})))
  | PostGenerateVideos prompt apiKey =>
      option_map (fun a => VideoRoutes.status (fst a))
        (VideoRoutes.POST VideoRoutes.GenerateVideos (videos_env srv)
           (inr {| VideoRoutes.prompt := Some prompt;
                   VideoRoutes.imageBytes := None;
                   VideoRoutes.apiKey := apiKey |}))
  | PostImageToVideo prompt imageBytes apiKey =>
      option_map (fun a => VideoRoutes.status (fst a))
        (VideoRoutes.POST VideoRoutes.ImageToVideo (videos_env srv)
           (inr {| VideoRoutes.prompt := Some prompt;
                   VideoRoutes.imageBytes := Some imageBytes;
                   VideoRoutes.apiKey := apiKey |}))
  | PostImproveImage originalPrompt improvementPrompt imageBytes apiKey =>
      Some (ImproveImage.status
              (ImproveImage.POST (improve_env srv)
                 (inr {| ImproveImage.originalPrompt := Some originalPrompt;
                         ImproveImage.improvementPrompt := Some improvementPrompt;
                         ImproveImage.imageBytes := Some imageBytes;
                         ImproveImage.apiKey := apiKey |})))
  end.

(** The state in which the local storage holds another key, or none. *)
Definition with_key (key : option string) (s : State) : State :=
  {| generations := generations s;
     showApiKeyDialog := showApiKeyDialog s;
     focusedView := focusedView s;
     improveImageModal := improveImageModal s;
     gemini_api_key := key;
     fetches := fetches s;
     alerts := alerts s |}.

(** What the user sees of the state of [ContentGrid]: everything but
    the stored key and the requests sent. *)
Definition visible (s : State)
  : list Generation * bool * list string * FocusedView * ImproveImageModal :=
  (generations s, showApiKeyDialog s, alerts s, focusedView s,
   improveImageModal s).

End Network.

(* ================================================================== *)
(** ** The viewer as the user goes through it *)
(* ================================================================== *)

Module Viewer.
Import ContentGrid.

(** The [currentIndex] cell once the effects of a handler are done. *)
Definition index_after (currentIndex : Z)
    (effects : list FocusedMediaView.Effect) : Z :=
  fold_left (fun index e =>
               match e with
               | FocusedMediaView.SetCurrentIndex i => i
               | _ => index
               end)
            effects currentIndex.

(** One action of the user on the viewer [ContentGrid] renders: the
    handler runs on the props of the moment, its calls of the callback
    props run in [ContentGrid], its [setCurrentIndex] in the viewer. *)
Definition act (now_id now_ts : Z) (st : State * Z)
    (a : FocusedMediaView.Action) : State * Z :=
  let effects := FocusedMediaView.handle (App.viewer_props (fst st)) (snd st) a in
  (exec (App.viewer_effects now_id now_ts effects) (fst st),
   index_after (snd st) effects).

Definition browse (now_id now_ts : Z) (st : State * Z)
    (actions : list FocusedMediaView.Action) : State * Z :=
  fold_left (act now_id now_ts) actions st.

(** The effect on [initialIndex]: the index cell, which the viewer
    keeps while it is closed, is set to [initialIndex] when a render
    brings another one than the render before, and only then. *)
Definition follow (before after : State) (currentIndex : Z) : Z :=
  if (initialIndex (focusedView after) =? initialIndex (focusedView before))%nat
  then currentIndex
  else Z.of_nat (initialIndex (focusedView after)).

(** The index cell when [ContentGrid] mounts the viewer:
    [useState(initialIndex)] on the initial [focusedView]. *)
Definition mounted_index : Z := 0.

(** The action is one the viewer offers for these items: a thumbnail
    that is clicked is one of the film strip. *)
Definition offered (items : list MediaItem) (a : FocusedMediaView.Action)
  : Prop :=
  match a with
  | FocusedMediaView.ClickThumbnail _ index => index < length items
  | _ => True
  end.

End Viewer.


(* ================================================================== *)
(** ** image-grid.tsx and video-grid.tsx: what the two grids share *)
(* ================================================================== *)

Module Grids.

(** [formatTimeAgo(date)]; [now] is the reading of [new Date()], both
    in milliseconds.  [Math.floor] of a quotient by a positive number
    is [Z.div]. *)
Definition formatTimeAgo (now date : Z) : string :=
  let diffInMinutes := ((now - date) / (1000 * 60))%Z in
  if (diffInMinutes <? 1)%Z then "Just now"
  else if (diffInMinutes <? 60)%Z then Js.show_Z diffInMinutes ^^ "m ago"
  else
    let diffInHours := (diffInMinutes / 60)%Z in
    if (diffInHours <? 24)%Z then Js.show_Z diffInHours ^^ "h ago"
    else
      let diffInDays := (diffInHours / 24)%Z in
      Js.show_Z diffInDays ^^ "d ago".

(** What [handleViewFullscreen] does: it calls the [onViewFullscreen]
    prop, or opens the lightbox of the grid. *)
Inductive Effect : Type :=
| OnViewFullscreen (generationId : string) (index : nat)
| SetLightboxIndex (index : nat)
| SetLightboxOpen (open : bool).

(** [handleViewFullscreen(index)]; [onViewFullscreen] tells whether the
    prop is there. *)
Definition handleViewFullscreen (onViewFullscreen : bool)
    (generation_id : string) (index : nat) : list Effect :=
  if onViewFullscreen then [OnViewFullscreen generation_id index]
  else [SetLightboxIndex index; SetLightboxOpen true].

End Grids.

(* ================================================================== *)
(** ** lightbox-modal.tsx *)
(* ================================================================== *)

Module LightboxModal.

(** The updates of [currentIndex]; [length] is [items.length]. *)
Definition goToPrevious (length prev : Z) : Z :=
  if (prev >? 0)%Z then (prev - 1)%Z else (length - 1)%Z.

Definition goToNext (length prev : Z) : Z :=
  if (prev <? length - 1)%Z then (prev + 1)%Z else 0%Z.

Inductive Effect : Type :=
| OnClose
| GoToPrevious
| GoToNext.

(** [handleKeyDown], the listener on [window]. *)
Definition handleKeyDown (isOpen : bool) (key : string) : list Effect :=
  if negb isOpen then []
  else if (key =? "Escape")%string then [OnClose]
  else if (key =? "ArrowLeft")%string then [GoToPrevious]
  else if (key =? "ArrowRight")%string then [GoToNext]
  else [].

(** [currentIndex] once the effects of a handler are done. *)
Definition index_after (length currentIndex : Z) (effects : list Effect) : Z :=
  fold_left (fun index e =>
               match e with
               | GoToPrevious => goToPrevious length index
               | GoToNext => goToNext length index
               | OnClose => index
               end)
            effects currentIndex.

(** [currentIndex] after a run of keys on the open lightbox. *)
Definition after_keys (length currentIndex : Z) (keys : list string) : Z :=
  fold_left (fun index key => index_after length index (handleKeyDown true key))
            keys currentIndex.

End LightboxModal.


(* ================================================================== *)
(** ** The grids as [ContentGrid] renders them *)
(* ================================================================== *)

Module Tiles.
Import ContentGrid.
Local Open Scope m_scope.

(** [ImageGrid] and [VideoGrid] are given
    [onViewFullscreen={openFocusedView}]; the lightbox cells are the
    grid's own. *)
Definition grid_effect (e : Grids.Effect) : M unit :=
  match e with
  | Grids.OnViewFullscreen generationId index =>
      openFocusedView generationId index
  | Grids.SetLightboxIndex _ => ret tt
  | Grids.SetLightboxOpen _ => ret tt
  end.

Fixpoint grid_effects (es : list Grids.Effect) : M unit :=
  match es with
  | [] => ret tt
  | e :: rest => grid_effect e ;; grid_effects rest
  end.

(** The user clicks tile [index] of a generation of the timeline; a
    generation that is loading is rendered by [LoadingGrid], which has
    no tiles. *)
Definition viewFullscreen (generation : Generation) (index : nat) : M unit :=
  if isLoading generation then ret tt
  else grid_effects (Grids.handleViewFullscreen true (gen_id generation) index).

(** The click as the viewer lives it: its index cell follows the
    [initialIndex] it is given. *)
Definition click_tile (st : State * Z) (generation : Generation) (index : nat)
  : State * Z :=
  let s' := exec (viewFullscreen generation index) (fst st) in
  (s', Viewer.follow (fst st) s' (snd st)).

End Tiles.


(* ================================================================== *)
(** ** Text typed by the user *)
(* ================================================================== *)

Module Text.

(** The handlers call [String.prototype.trim] on what the user typed;
    they are given it as [trim].  [trim_ascii] is that function on text
    whose white space is ASCII (tab, line feed, vertical tab, form
    feed, carriage return, space). *)
Definition is_space (c : ascii) : bool :=
  let n := nat_of_ascii c in
  ((9 <=? n)%nat && (n <=? 13)%nat) || (n =? 32)%nat.

Fixpoint trim_start (s : string) : string :=
  match s with
  | EmptyString => EmptyString
  | String c rest => if is_space c then trim_start rest else s
  end.

Fixpoint trim_end (s : string) : string :=
  match s with
  | EmptyString => EmptyString
  | String c rest =>
      match trim_end rest with
      | EmptyString => if is_space c then EmptyString else String c EmptyString
      | rest' => String c rest'
      end
  end.

Definition trim_ascii (s : string) : string := trim_end (trim_start s).

End Text.

(* ================================================================== *)
(** ** prompt-bar.tsx *)
(* ================================================================== *)

Module PromptBar.
Import ContentGrid.

Inductive Effect : Type :=
| SetIsGenerating (b : bool)
| OnGenerate (type : MediaType) (prompt : string)
| SetPrompt (prompt : string).

(** [handleGenerate(type)]; [prompt] is the cell of the input,
    [onGenerate] tells whether the prop is there.  The timer that
    resets [isGenerating] half a second later is not part of it. *)
Definition handleGenerate (trim : string -> string) (onGenerate : bool)
    (prompt : string) (type : MediaType) : list Effect :=
  if negb (Js.truthy (trim prompt)) then []
  else
    [SetIsGenerating true]
    ++ (if onGenerate then [OnGenerate type (trim prompt)] else [])
    ++ [SetPrompt ""].

(** [handleKeyDown]: Enter without Shift generates an image. *)
Definition handleKeyDown (trim : string -> string) (onGenerate : bool)
    (prompt : string) (key : string) (shiftKey : bool) : list Effect :=
  if (key =? "Enter")%string && negb shiftKey
  then handleGenerate trim onGenerate prompt TImage
  else [].

End PromptBar.

(* ================================================================== *)
(** ** api-key-dialog.tsx *)
(* ================================================================== *)

Module ApiKeyDialog.

Inductive Effect : Type :=
| SetIsLoading (b : bool)
| LocalStorageSetItem (key value : string)
| OnOpenChange (open : bool)
| OnApiKeySaved
| SetApiKey (value : string).

(** [handleSave]; [apiKey] is the cell of the input.  Writing to the
    local storage is taken not to throw. *)
Definition handleSave (trim : string -> string) (apiKey : string)
  : list Effect :=
  if negb (Js.truthy (trim apiKey)) then []
  else
    [SetIsLoading true;
     LocalStorageSetItem "gemini_api_key" (trim apiKey);
     OnOpenChange false;
     OnApiKeySaved;
     SetApiKey "";
     SetIsLoading false].

Definition handleKeyDown (trim : string -> string) (apiKey : string)
    (key : string) : list Effect :=
  if (key =? "Enter")%string then handleSave trim apiKey else [].

End ApiKeyDialog.

(* ================================================================== *)
(** ** settings-dropdown.tsx *)
(* ================================================================== *)

Module SettingsDropdown.

(** The [useState] cells of one instance, as far as the handlers below
    write them. *)
Record Cells : Type := {
  apiKey : string;
  darkMode : bool;
  saveStatus : option string
}.

(** The two items of the local storage the component uses. *)
Record Storage : Type := {
  gemini_api_key : option string;
  openjourney_dark_mode : option string
}.

(** [loadApiKey]: [setApiKey(savedApiKey || "")] *)
Definition loadApiKey (st : Storage) (c : Cells) : Cells :=
  {| apiKey := Js.or_else (gemini_api_key st) "";
     darkMode := darkMode c;
     saveStatus := saveStatus c |}.

(** The mount effect on the initial cells. *)
Definition mount (st : Storage) : Cells :=
  let c := loadApiKey st {| apiKey := ""; darkMode := false;
                            saveStatus := None |} in
  match openjourney_dark_mode st with
  | Some savedDarkMode =>
      {| apiKey := apiKey c;
         darkMode := (savedDarkMode =? "true")%string;
         saveStatus := saveStatus c |}
  | None => c
  end.

(** [handleApiKeyChange(value)] *)
Definition handleApiKeyChange (trim : string -> string) (value : string)
    (x : Storage * Cells) : Storage * Cells :=
  ({| gemini_api_key := Some value;
      openjourney_dark_mode := openjourney_dark_mode (fst x) |},
   {| apiKey := value;
      darkMode := darkMode (snd x);
      saveStatus :=
        if Js.truthy (trim value)
        then Some "Google Gemini API key saved successfully!"
        else None |}).

(** [handleDarkModeToggle(checked)] *)
Definition handleDarkModeToggle (checked : bool) (x : Storage * Cells)
  : Storage * Cells :=
  ({| gemini_api_key := gemini_api_key (fst x);
      openjourney_dark_mode := Some (if checked then "true" else "false") |},
   {| apiKey := apiKey (snd x);
      darkMode := checked;
      saveStatus := saveStatus (snd x) |}).

(** [handleClearApiKey] *)
Definition handleClearApiKey (x : Storage * Cells) : Storage * Cells :=
  ({| gemini_api_key := None;
      openjourney_dark_mode := openjourney_dark_mode (fst x) |},
   {| apiKey := "";
      darkMode := darkMode (snd x);
      saveStatus := Some "Google Gemini API key cleared" |}).

(** The listener of the [apiKeyUpdated] event. *)
Definition handleApiKeyUpdate (x : Storage * Cells) : Storage * Cells :=
  (fst x, loadApiKey (fst x) (snd x)).

(** What happens to an instance and the storage: the user acts on the
    instance, or the API-key dialog saves a key and raises the event. *)
Inductive Action : Type :=
| ApiKeyChange (value : string)
| DarkModeToggle (checked : bool)
| ClearApiKey
| DialogSaved (apiKey : string).

Definition act (trim : string -> string) (x : Storage * Cells) (a : Action)
  : Storage * Cells :=
  match a with
  | ApiKeyChange value => handleApiKeyChange trim value x
  | DarkModeToggle checked => handleDarkModeToggle checked x
  | ClearApiKey => handleClearApiKey x
  | DialogSaved apiKey =>
      match ApiKeyDialog.handleSave trim apiKey with
      | [] => x
      | _ =>
          handleApiKeyUpdate
            ({| gemini_api_key := Some (trim apiKey);
                openjourney_dark_mode := openjourney_dark_mode (fst x) |},
             snd x)
      end
  end.

End SettingsDropdown.

(* ================================================================== *)
(** ** improve-image-modal.tsx *)
(* ================================================================== *)

Module ImproveModal.

Inductive Effect : Type :=
| SetIsImproving (b : bool)
| OnImproveImage (improvementPrompt : string)
| OnOpenChange (open : bool)
| SetImprovementPrompt (value : string).

(** [handleImprove] up to its [await onImproveImage(...)], and from
    there on; [improvementPrompt] is the cell of the text area.  The
    prop it awaits is [handleImproveImage], which catches what its
    request throws. *)
Definition handleImprove_start (trim : string -> string)
    (improvementPrompt : string) : list Effect :=
  if negb (Js.truthy (trim improvementPrompt)) then []
  else [SetIsImproving true; OnImproveImage (trim improvementPrompt)].

Definition handleImprove_resume : list Effect :=
  [OnOpenChange false; SetImprovementPrompt ""; SetIsImproving false].

End ImproveModal.

(* ================================================================== *)
(** ** The page: prompt bar, dialogs and [ContentGrid] wired together *)
(* ================================================================== *)

Module Page.
Import ContentGrid.
Local Open Scope m_scope.

(** [localStorage.setItem("gemini_api_key", value)] *)
Definition localStorage_setItem_gemini_api_key (value : string) : M unit :=
  fun s => (tt, {| generations := generations s;
                   showApiKeyDialog := showApiKeyDialog s;
                   focusedView := focusedView s;
                   improveImageModal := improveImageModal s;
                   gemini_api_key := Some value;
                   fetches := fetches s;
                   alerts := alerts s |}).

(** [PromptBar] is given the [handleNewGeneration] that [ContentGrid]
    hands to the page when it mounts. *)
Definition bar_effect (now_id now_ts : Z) (e : PromptBar.Effect) : M unit :=
  match e with
  | PromptBar.OnGenerate type prompt =>
      _ <- handleNewGeneration_start type prompt now_id now_ts ;;
      ret tt
  | PromptBar.SetIsGenerating _ => ret tt
  | PromptBar.SetPrompt _ => ret tt
  end.

Fixpoint bar_effects (now_id now_ts : Z) (es : list PromptBar.Effect) : M unit :=
  match es with
  | [] => ret tt
  | e :: rest => bar_effect now_id now_ts e ;; bar_effects now_id now_ts rest
  end.

(** The user asks the prompt bar for an image or a video of the text
    in its input. *)
Definition generate (trim : string -> string) (prompt : string)
    (type : MediaType) (now_id now_ts : Z) : M unit :=
  bar_effects now_id now_ts (PromptBar.handleGenerate trim true prompt type).

(** [ApiKeyDialog] is given [onOpenChange={setShowApiKeyDialog}]; its
    [onApiKeySaved] raises the event the settings listen to. *)
Definition dialog_effect (e : ApiKeyDialog.Effect) : M unit :=
  match e with
  | ApiKeyDialog.LocalStorageSetItem _ value =>
      localStorage_setItem_gemini_api_key value
  | ApiKeyDialog.OnOpenChange open => setShowApiKeyDialog open
  | ApiKeyDialog.OnApiKeySaved => ret tt
  | ApiKeyDialog.SetIsLoading _ => ret tt
  | ApiKeyDialog.SetApiKey _ => ret tt
  end.

Fixpoint dialog_effects (es : list ApiKeyDialog.Effect) : M unit :=
  match es with
  | [] => ret tt
  | e :: rest => dialog_effect e ;; dialog_effects rest
  end.

(** The user saves the text of the API-key dialog. *)
Definition saveKey (trim : string -> string) (apiKey : string) : M unit :=
  dialog_effects (ApiKeyDialog.handleSave trim apiKey).

(** [ImproveImageModal] is given [onImproveImage={handleImproveImage}]
    and an [onOpenChange] that writes [isOpen]. *)
Definition modal_effect (now_id now_ts : Z) (e : ImproveModal.Effect)
  : M (option LoadingGeneration) :=
  match e with
  | ImproveModal.OnImproveImage improvementPrompt =>
      lg <- handleImproveImage_start improvementPrompt now_id now_ts ;;
      ret (Some lg)
  | ImproveModal.OnOpenChange open =>
      (fun s =>
         setImproveImageModal
           {| im_isOpen := open;
              im_imageUrl := im_imageUrl (improveImageModal s);
              im_imageBytes := im_imageBytes (improveImageModal s);
              im_originalPrompt := im_originalPrompt (improveImageModal s) |} s) ;;
      ret None
  | ImproveModal.SetIsImproving _ => ret None
  | ImproveModal.SetImprovementPrompt _ => ret None
  end.

Fixpoint modal_effects (now_id now_ts : Z) (es : list ImproveModal.Effect)
  : M (option LoadingGeneration) :=
  match es with
  | [] => ret None
  | e :: rest =>
      started <- modal_effect now_id now_ts e ;;
      later <- modal_effects now_id now_ts rest ;;
      ret (match later with Some lg => Some lg | None => started end)
  end.

(** The user submits the text of the improve dialog: the part up to the
    request, which gives the loading record when a workflow began, and
    the part that runs once the request is answered. *)
Definition improve_start (trim : string -> string) (improvementPrompt : string)
    (now_id now_ts : Z) : M (option LoadingGeneration) :=
  modal_effects now_id now_ts
                (ImproveModal.handleImprove_start trim improvementPrompt).

Definition improve_resume (loadingGeneration : LoadingGeneration)
    (r : FetchResult) (now_id now_ts : Z) : M unit :=
  handleImproveImage_settle loadingGeneration r ;;
  _ <- modal_effects now_id now_ts ImproveModal.handleImprove_resume ;;
  ret tt.

End Page.


(* ================================================================== *)
(** ** app/api/improve-image/route.ts, the image-conditioned version *)
(* ================================================================== *)

Module ImproveImageV2.

(** [`Please improve this image by: ${improvementPrompt}`] *)
Definition compose (improvementPrompt : string) : string :=
  "Please improve this image by: " ^^ improvementPrompt.

(** The parts every one of the four calls sends to the model. *)
Definition parts (enhancedPrompt imageBytes : string)
  : list GenerateImages.ContentPart :=
  [GenerateImages.TextPart enhancedPrompt;
   GenerateImages.InlinePart "image/png" imageBytes].

(** One of the four [async (_, index) => ...] calls: an image or
    [null]. *)
Definition imagePromise (env : GenerateImages.Env)
    (enhancedPrompt imageBytes : string) (index : nat)
  : option ImproveImage.Image :=
  match GenerateImages.generateContent env index
          (parts enhancedPrompt imageBytes) with
  | inr response =>
      let candidates :=
        match GenerateImages.candidates response with
        | Some c => c
        | None => []
        end in
      match GenerateImages.first_image candidates with
      | Some (generatedImageBytes, mimeType) =>
          Some {| ImproveImage.id :=
                    "improved-" ^^ Js.show_Z (GenerateImages.Date_now env index)
                    ^^ "-" ^^ Js.show_nat index;
                  ImproveImage.url :=
                    "data:" ^^ mimeType ^^ ";base64," ^^ generatedImageBytes;
                  ImproveImage.image_bytes := generatedImageBytes |}
      | None => None
      end
  | inl _ => None
  end.

(** [POST]; the argument is how [await request.json()] settles. *)
Definition POST (env : GenerateImages.Env)
    (request_json : Js.Thrown + ImproveImage.RequestBody)
  : ImproveImage.Response :=
  match request_json with
  | inl err =>
      {| ImproveImage.status := 500;
         ImproveImage.body :=
           {| ImproveImage.success := Some false;
              ImproveImage.images := None;
              ImproveImage.body_originalPrompt := None;
              ImproveImage.body_improvementPrompt := None;
              ImproveImage.enhancedPrompt := None;
              ImproveImage.error :=
                Some (Js.message_or_default err "Failed to improve image");
              ImproveImage.details :=
                Some (Js.name_or_default err "Unknown error") |} |}
  | inr req =>
      if negb (Js.truthy_opt (ImproveImage.originalPrompt req))
         || negb (Js.truthy_opt (ImproveImage.improvementPrompt req)) then
        ImproveImage.error_response 400
          "Both original and improvement prompts are required"
      else if negb (Js.truthy_opt (ImproveImage.imageBytes req)) then
        ImproveImage.error_response 400 "Image data is required for improvement"
      else
        let apiKey :=
          if Js.truthy_opt (ImproveImage.apiKey req)
          then ImproveImage.apiKey req
          else GenerateImages.GOOGLE_AI_API_KEY env in
        if negb (Js.truthy_opt apiKey) then
          ImproveImage.error_response 401
            "No API key provided. Please add your Google AI API key in the settings."
        else
          let enhancedPrompt :=
            compose (Js.or_else (ImproveImage.improvementPrompt req) "") in
          let imagePromises :=
            map (imagePromise env enhancedPrompt
                              (Js.or_else (ImproveImage.imageBytes req) ""))
                (seq 0 4) in
          let generatedImages := imagePromises in
          let images := Js.filter_Boolean generatedImages in
          {| ImproveImage.status := 200;
             ImproveImage.body :=
               {| ImproveImage.success := Some true;
                  ImproveImage.images := Some images;
                  ImproveImage.body_originalPrompt :=
                    ImproveImage.originalPrompt req;
                  ImproveImage.body_improvementPrompt :=
                    ImproveImage.improvementPrompt req;
                  ImproveImage.enhancedPrompt := Some enhancedPrompt;
                  ImproveImage.error := None;
                  ImproveImage.details := None |} |}
  end.

(** What [handleImproveImage] reads of the answer of this version to
    the request it sends from [s]. *)
Definition answer (env : GenerateImages.Env) (improvementPrompt : string)
    (s : ContentGrid.State) : ContentGrid.FetchResult :=
  App.improve_answer
    (POST env
       (inr {| ImproveImage.originalPrompt :=
                 Some (ContentGrid.im_originalPrompt
                         (ContentGrid.improveImageModal s));
               ImproveImage.improvementPrompt := Some improvementPrompt;
               ImproveImage.imageBytes :=
                 Some (ContentGrid.im_imageBytes
                         (ContentGrid.improveImageModal s));
               ImproveImage.apiKey := ContentGrid.gemini_api_key s |})).

End ImproveImageV2.


(* ================================================================== *)
(** ** The image route on Imagen that reports the provider's error *)
(* ================================================================== *)

Module GenerateImagesImagen.

(** The [map] over [response.generatedImages], before
    [filter(Boolean)]. *)
Definition convert (env : ImproveImage.Env)
    (response : ImproveImage.GenerateImagesResponse)
  : list (option GenerateImages.Image) :=
  Js.mapi (fun generatedImage index =>
             match ImproveImage.image_imageBytes generatedImage with
             | Some imageBytes =>
                 if Js.truthy imageBytes then
                   Some {| GenerateImages.id :=
                             Js.show_Z (ImproveImage.Date_now env index)
                             ^^ "-" ^^ Js.show_nat index;
                           GenerateImages.url :=
                             "data:image/png;base64," ^^ imageBytes;
                           GenerateImages.image_imageBytes := imageBytes |}
                 else None
             | None => None
             end)
          (match ImproveImage.generatedImages response with
           | Some l => l
           | None => []
           end).

(** [POST]: one call of the model for the four images.  Its [catch]
    answers with the message and the name of what was thrown and with
    [success: false]; the other version of the route on Imagen, whose
    [catch] answers a fixed message, is not this function. *)
Definition POST (env : ImproveImage.Env)
    (request_json : Js.Thrown + GenerateImages.RequestBody)
  : GenerateImages.Response :=
  let failed err :=
    {| GenerateImages.status := 500;
       GenerateImages.body :=
         {| GenerateImages.success := Some false;
            GenerateImages.images := None;
            GenerateImages.body_prompt := None;
            GenerateImages.error :=
              Some (Js.message_or_default err "Failed to generate images");
            GenerateImages.details :=
              Some (Js.name_or_default err "Unknown error") |} |} in
  match request_json with
  | inl err => failed err
  | inr req =>
      if negb (Js.truthy_opt (GenerateImages.prompt req)) then
        GenerateImages.error_response 400 "Prompt is required"
      else
        let apiKey :=
          if Js.truthy_opt (GenerateImages.apiKey req)
          then GenerateImages.apiKey req
          else ImproveImage.GOOGLE_AI_API_KEY env in
        if negb (Js.truthy_opt apiKey) then
          GenerateImages.error_response 401
            "No API key provided. Please add your Google AI API key in the settings."
        else
          let requestConfig :=
            {| ImproveImage.config_prompt :=
                 Js.or_else (GenerateImages.prompt req) "";
               ImproveImage.numberOfImages := 4 |} in
          match ImproveImage.generateImages env requestConfig with
          | inl err => failed err
          | inr response =>
              let images := Js.filter_Boolean (convert env response) in
              {| GenerateImages.status := 200;
                 GenerateImages.body :=
                   {| GenerateImages.success := Some true;
                      GenerateImages.images := Some images;
                      GenerateImages.body_prompt := GenerateImages.prompt req;
                      GenerateImages.error := None;
                      GenerateImages.details := None |} |}
          end
  end.

(** What [handleNewGeneration] reads of the answer of this version to
    the request it sends from [s]. *)
Definition answer (env : ImproveImage.Env) (prompt : string)
    (s : ContentGrid.State) : ContentGrid.FetchResult :=
  App.images_answer
    (POST env (inr {| GenerateImages.prompt := Some prompt;
                      GenerateImages.apiKey := ContentGrid.gemini_api_key s;
                      GenerateImages.imageBytes := None |})).

End GenerateImagesImagen.


(* ================================================================== *)
(** * Properties *)
(* ================================================================== *)

(* ------------------------------------------------------------------ *)
(** Facts about the JavaScript helpers. *)

Lemma show_nat_inj (n m : nat) : Js.show_nat n = Js.show_nat m -> n = m.
Proof.
  unfold Js.show_nat. intros H.
  apply Unsigned.to_uint_inj.
  assert (E : NilEmpty.uint_of_string (NilEmpty.string_of_uint (Nat.to_uint n))
              = NilEmpty.uint_of_string (NilEmpty.string_of_uint (Nat.to_uint m)))
    by (rewrite H; reflexivity).
  rewrite !NilEmpty.usu in E. congruence.
Qed.

Lemma show_Z_inj (a b : Z) : Js.show_Z a = Js.show_Z b -> a = b.
Proof.
  unfold Js.show_Z. intros H.
  apply DecimalZ.to_int_inj.
  assert (E : NilEmpty.int_of_string (NilEmpty.string_of_int (Z.to_int a))
              = NilEmpty.int_of_string (NilEmpty.string_of_int (Z.to_int b)))
    by (rewrite H; reflexivity).
  rewrite !NilEmpty.isi in E. congruence.
Qed.

Lemma append_inj_l (p s t : string) : p ^^ s = p ^^ t -> s = t.
Proof.
  induction p as [|c p IH]; simpl; intros H; [exact H|].
  injection H as H. auto.
Qed.

Lemma mapi_from_length {A B : Type} (f : A -> nat -> B) (l : list A) (i : nat) :
  length (Js.mapi_from i f l) = length l.
Proof.
  revert i. induction l as [|x l IH]; intros i; simpl; [reflexivity|].
  now rewrite IH.
Qed.

Lemma mapi_from_nth_error {A B : Type} (f : A -> nat -> B) (l : list A) (i k : nat) :
  nth_error (Js.mapi_from i f l) k =
  option_map (fun x => f x (i + k)) (nth_error l k).
Proof.
  revert i k. induction l as [|x l IH]; intros i k.
  - destruct k; reflexivity.
  - destruct k; simpl.
    + now rewrite Nat.add_0_r.
    + rewrite IH. now rewrite Nat.add_succ_comm.
Qed.

Lemma mapi_nth_error {A B : Type} (f : A -> nat -> B) (l : list A) (k : nat) :
  nth_error (Js.mapi f l) k = option_map (fun x => f x k) (nth_error l k).
Proof. unfold Js.mapi. now rewrite mapi_from_nth_error. Qed.

Lemma mapi_length {A B : Type} (f : A -> nat -> B) (l : list A) :
  length (Js.mapi f l) = length l.
Proof. apply mapi_from_length. Qed.

(* ------------------------------------------------------------------ *)
(** ** The stable sort by timestamp *)

Section SortByKey.

Context {A : Type} (key : A -> Z).

#[local] Abbreviation cmp := (Spec.descending key).
#[local] Abbreviation newest_first := (Spec.newest_first key).

Lemma sort_insert_perm (x : A) (l : list A) :
  Permutation (Js.sort_insert cmp x l) (x :: l).
Proof.
  induction l as [|y l IH]; simpl; [apply Permutation_refl|].
  destruct (cmp x y <=? 0)%Z; [apply Permutation_refl|].
  eapply perm_trans; [apply perm_skip, IH | apply perm_swap].
Qed.

Lemma sort_perm (l : list A) : Permutation (Js.sort cmp l) l.
Proof.
  induction l as [|x l IH]; simpl; [constructor|].
  eapply perm_trans; [apply sort_insert_perm | now apply perm_skip].
Qed.

Lemma sort_insert_sorted (x : A) (l : list A) :
  StronglySorted newest_first l ->
  StronglySorted newest_first (Js.sort_insert cmp x l).
Proof.
  induction 1 as [|y l Hl IH Hy]; simpl.
  - repeat constructor.
  - destruct (cmp x y <=? 0)%Z eqn:E.
    + apply Z.leb_le in E. constructor; [now constructor|].
      constructor; [unfold Spec.newest_first, Spec.descending in *; lia|].
      rewrite Forall_forall in Hy |- *. intros z Hz.
      specialize (Hy z Hz). unfold Spec.newest_first, Spec.descending in *. lia.
    + apply Z.leb_gt in E. constructor; [exact IH|].
      rewrite Forall_forall in Hy |- *. intros z Hz.
      apply (Permutation_in _ (sort_insert_perm x l)) in Hz.
      destruct Hz as [<-|Hz]; [unfold Spec.newest_first, Spec.descending in *; lia|auto].
Qed.

Lemma sort_sorted (l : list A) : StronglySorted newest_first (Js.sort cmp l).
Proof.
  induction l as [|x l IH]; simpl; [constructor|].
  now apply sort_insert_sorted.
Qed.

(** A list already in order is left as it is. *)
Lemma sort_sorted_id (l : list A) :
  StronglySorted newest_first l -> Js.sort cmp l = l.
Proof.
  induction 1 as [|x l Hl IH Hx]; simpl; [reflexivity|].
  rewrite IH. destruct l as [|y l]; simpl; [reflexivity|].
  inversion Hx as [|? ? Hxy _]; subst.
  replace (cmp x y <=? 0)%Z with true; [reflexivity|].
  symmetry. apply Z.leb_le. unfold Spec.newest_first, Spec.descending in *. lia.
Qed.

(** Stability: the elements of one key keep their relative order. *)
Lemma sort_insert_stable (t : Z) (x : A) (l : list A) :
  filter (fun a => (key a =? t)%Z) (Js.sort_insert cmp x l) =
  filter (fun a => (key a =? t)%Z) (x :: l).
Proof.
  induction l as [|y l IH]; [reflexivity|].
  simpl Js.sort_insert. destruct (cmp x y <=? 0)%Z eqn:E; [reflexivity|].
  apply Z.leb_gt in E. unfold Spec.descending in E.
  simpl in *. rewrite IH.
  destruct (key x =? t)%Z eqn:Ex; [|reflexivity].
  apply Z.eqb_eq in Ex.
  replace (key y =? t)%Z with false; [reflexivity|].
  symmetry. apply Z.eqb_neq. lia.
Qed.

Lemma sort_stable (t : Z) (l : list A) :
  filter (fun a => (key a =? t)%Z) (Js.sort cmp l) =
  filter (fun a => (key a =? t)%Z) l.
Proof.
  induction l as [|x l IH]; [reflexivity|].
  simpl Js.sort. rewrite sort_insert_stable. simpl. now rewrite IH.
Qed.

End SortByKey.

(* ------------------------------------------------------------------ *)
(** ** Flattening the timeline *)

Import ContentGrid.

Lemma items_of_loading (g : Generation) :
  isLoading g = true -> items_of g = [].
Proof. unfold items_of. now intros ->. Qed.

Lemma items_of_length (g : Generation) :
  length (items_of g) = if isLoading g then 0 else media_length g.
Proof.
  unfold items_of. destruct (isLoading g) eqn:E; simpl; [reflexivity|].
  destruct g; simpl in *; try discriminate; apply mapi_length.
Qed.

Lemma items_of_nth (g : Generation) (i : nat) (m : MediaItem) :
  nth_error (items_of g) i = Some m ->
  isLoading g = false /\
  i < media_length g /\
  m_id m = gen_id g ^^ Spec.media_tag g ^^ Js.show_nat i /\
  m_type m = Spec.media_type g /\
  m_prompt m = gen_prompt g /\
  m_timestamp m = gen_timestamp g.
Proof.
  intros H.
  assert (Hlen : i < length (items_of g))
    by (apply nth_error_Some; congruence).
  rewrite items_of_length in Hlen.
  destruct (isLoading g) eqn:E; [lia|].
  split; [reflexivity|]. split; [exact Hlen|].
  unfold items_of in H. rewrite E in H. simpl in H.
  destruct g as [g|g|g]; simpl in *; try discriminate.
  - rewrite mapi_nth_error in H.
    destruct (nth_error (ig_images g) i); simpl in H; [|discriminate].
    injection H as <-. simpl. auto.
  - rewrite mapi_nth_error in H.
    destruct (nth_error (vg_videos g) i); simpl in H; [|discriminate].
    injection H as <-. simpl. auto.
Qed.

Lemma items_of_timestamp (g : Generation) (m : MediaItem) :
  In m (items_of g) -> m_timestamp m = gen_timestamp g.
Proof.
  intros H. apply In_nth_error in H as [i H].
  now apply items_of_nth in H.
Qed.

Lemma getAllMediaItems_perm (gens : list Generation) :
  Permutation (getAllMediaItems gens) (flat_map items_of gens).
Proof. unfold getAllMediaItems. apply (sort_perm m_timestamp). Qed.

Lemma getAllMediaItems_length (gens : list Generation) :
  length (getAllMediaItems gens) = length (flat_map items_of gens).
Proof. apply Permutation_length, getAllMediaItems_perm. Qed.

(** C4. Flattening reads the timeline and nothing else, and leaves it as
    it is: run twice in a row it returns the same list, the list it
    returns from the snapshot alone.  The list holds exactly the items of
    the records that are not loading, one per image or video (none for a
    loading record); the item at local index [i] of record [g] carries
    the id of [g] followed by ["-img-"] or ["-vid-"] and [i], and the
    prompt and timestamp of [g]; the list is ordered by timestamp, newest
    first, items of one timestamp keeping the order of the timeline. *)
Theorem getAllMediaItems_flatten (s : State) :
  let out := getAllMediaItems (generations s) in
  getAllMediaItemsM s = (out, s) /\
  (let (out1, s1) := getAllMediaItemsM s in
   let (out2, s2) := getAllMediaItemsM s1 in
   out1 = out2 /\ s2 = s) /\
  Permutation out (flat_map items_of (generations s)) /\
  (forall g, length (items_of g) = if isLoading g then 0 else media_length g) /\
  (forall g i m, nth_error (items_of g) i = Some m ->
     isLoading g = false /\
     i < media_length g /\
     m_id m = gen_id g ^^ Spec.media_tag g ^^ Js.show_nat i /\
     m_type m = Spec.media_type g /\
     m_prompt m = gen_prompt g /\
     m_timestamp m = gen_timestamp g) /\
  StronglySorted (Spec.newest_first m_timestamp) out /\
  (forall t, filter (fun m => (m_timestamp m =? t)%Z) out =
             filter (fun m => (m_timestamp m =? t)%Z)
                    (flat_map items_of (generations s))).
Proof.
  cbv zeta. repeat split.
  - apply getAllMediaItems_perm.
  - apply items_of_length.
  - now apply items_of_nth in H.
  - now apply items_of_nth in H.
  - now apply items_of_nth in H.
  - now apply items_of_nth in H.
  - now apply items_of_nth in H.
  - now apply items_of_nth in H.
  - apply (sort_sorted m_timestamp).
  - intros t. apply (sort_stable m_timestamp).
Qed.

(* ------------------------------------------------------------------ *)
(** ** Locating an item in the flattened list *)

Lemma flat_map_items_length_from (gens : list Generation) (gid : string)
      (i acc : nat) :
  (exists g, In g gens /\ isLoading g = false /\ gen_id g = gid /\
             i < media_length g) ->
  locateGlobalIndex_from acc gens gid i < acc + length (flat_map items_of gens).
Proof.
  revert acc. induction gens as [|h gens IH]; intros acc (g & Hin & Hl & Hid & Hi).
  - destruct Hin.
  - simpl. rewrite length_app, items_of_length.
    destruct (isLoading h) eqn:Eh.
    + destruct Hin as [->|Hin]; [congruence|].
      simpl. apply IH. eauto 6.
    + destruct (gen_id h =? gid)%string eqn:Eid.
      * destruct Hin as [->|Hin]; [lia|].
        assert (Hg : length (items_of g) <= length (flat_map items_of gens)).
        { clear - Hin. induction gens as [|x gens IH]; [destruct Hin|].
          simpl. rewrite length_app. destruct Hin as [->|Hin]; [lia|].
          specialize (IH Hin). lia. }
        rewrite items_of_length, Hl in Hg. lia.
      * destruct Hin as [->|Hin].
        { apply String.eqb_neq in Eid. congruence. }
        specialize (IH (acc + media_length h)).
        assert (Hex : exists g, In g gens /\ isLoading g = false /\
                                gen_id g = gid /\ i < media_length g) by eauto 6.
        specialize (IH Hex). lia.
Qed.

Lemma locateGlobalIndex_in_range (gens : list Generation) (g : Generation)
      (i : nat) :
  In g gens -> isLoading g = false -> i < media_length g ->
  locateGlobalIndex gens (gen_id g) i < length (getAllMediaItems gens).
Proof.
  intros Hin Hl Hi. rewrite getAllMediaItems_length.
  unfold locateGlobalIndex.
  apply (flat_map_items_length_from gens (gen_id g) i 0). eauto 6.
Qed.

Lemma flat_map_items_completed (gens : list Generation) :
  flat_map items_of gens = flat_map items_of (Spec.completed gens).
Proof.
  induction gens as [|h gens IH]; [reflexivity|].
  simpl. destruct (isLoading h) eqn:E; simpl.
  - now rewrite items_of_loading.
  - now rewrite IH.
Qed.

Lemma flat_map_items_sorted (gens : list Generation) :
  StronglySorted (Spec.newest_first gen_timestamp) gens ->
  StronglySorted (Spec.newest_first m_timestamp) (flat_map items_of gens).
Proof.
  induction 1 as [|g gens Hs IH Hg]; simpl; [constructor|].
  assert (Hk : forall l,
             (forall m, In m l -> m_timestamp m = gen_timestamp g) ->
             StronglySorted (Spec.newest_first m_timestamp)
                            (l ++ flat_map items_of gens)).
  { induction l as [|m l IHl]; intros Hl; simpl; [exact IH|].
    constructor; [apply IHl; intros; apply Hl; now right|].
    apply Forall_forall. intros m' Hm'.
    unfold Spec.newest_first. rewrite (Hl m (or_introl eq_refl)).
    apply in_app_or in Hm' as [Hm'|Hm'].
    - rewrite (Hl m' (or_intror Hm')). lia.
    - apply in_flat_map in Hm' as (g' & Hg' & Hm').
      rewrite (items_of_timestamp _ _ Hm').
      rewrite Forall_forall in Hg. apply (Hg g' Hg'). }
  apply Hk. intros m. apply items_of_timestamp.
Qed.

Lemma getAllMediaItems_in_order (gens : list Generation) :
  StronglySorted (Spec.newest_first gen_timestamp) (Spec.completed gens) ->
  getAllMediaItems gens = flat_map items_of gens.
Proof.
  intros H. unfold getAllMediaItems.
  apply (sort_sorted_id m_timestamp).
  rewrite flat_map_items_completed. now apply flat_map_items_sorted.
Qed.

Lemma locate_from_nth (gens : list Generation) (g : Generation) (i acc : nat)
      (m : MediaItem) :
  In g gens -> NoDup (Spec.ids (Spec.completed gens)) ->
  nth_error (items_of g) i = Some m ->
  exists k, locateGlobalIndex_from acc gens (gen_id g) i = acc + k /\
            nth_error (flat_map items_of gens) k = Some m.
Proof.
  intros Hin Hnd Hm. pose proof (items_of_nth _ _ _ Hm) as (Hl & Hi & _).
  revert acc Hin Hnd. induction gens as [|h gens IH]; intros acc Hin Hnd.
  - destruct Hin.
  - simpl. destruct (isLoading h) eqn:Eh.
    + destruct Hin as [->|Hin]; [congruence|].
      rewrite (items_of_loading h Eh). simpl.
      apply IH; [exact Hin|]. simpl in Hnd. now rewrite Eh in Hnd.
    + simpl in Hnd. rewrite Eh in Hnd. simpl in Hnd.
      inversion Hnd as [|? ? Hnotin Hnd']; subst.
      destruct (gen_id h =? gen_id g)%string eqn:Eid.
      * apply String.eqb_eq in Eid.
        destruct Hin as [->|Hin].
        { exists i. split; [reflexivity|].
          rewrite nth_error_app1; [exact Hm|].
          apply nth_error_Some. congruence. }
        exfalso. apply Hnotin. rewrite Eid.
        apply in_map. apply filter_In. split; [exact Hin|].
        now rewrite Hl.
      * destruct Hin as [->|Hin].
        { apply String.eqb_neq in Eid. congruence. }
        destruct (IH (acc + media_length h) Hin Hnd') as (k & Hk & Hnth).
        exists (media_length h + k). split; [lia|].
        rewrite nth_error_app2; rewrite items_of_length, Eh; [|lia].
        now replace (media_length h + k - media_length h) with k by lia.
Qed.

(** [openFocusedView] opens the viewer on the flattened list, at the
    index the loop computes, and touches nothing else. *)
Lemma openFocusedView_spec (generationId : string) (itemIndex : nat) (s : State) :
  let s' := exec (openFocusedView generationId itemIndex) s in
  focusedView s'
  = {| isOpen := true;
       mediaItems := getAllMediaItems (generations s);
       initialIndex := locateGlobalIndex (generations s) generationId itemIndex |} /\
  generations s' = generations s /\
  ContentGrid.fetches s' = ContentGrid.fetches s.
Proof. repeat split. Qed.

(** Where [openFocusedView] does find the item (C5).  Whenever a
    generation id and a local index denote an item of a completed record
    of the timeline, the index computed for them lies within the
    flattened list.  When moreover the completed records carry distinct
    ids and stand newest first by timestamp in the timeline, the
    flattened list holds exactly that item at that index. *)
Theorem locateGlobalIndex_spec (gens : list Generation) (g : Generation)
        (i : nat) (m : MediaItem) :
  In g gens ->
  nth_error (items_of g) i = Some m ->
  locateGlobalIndex gens (gen_id g) i < length (getAllMediaItems gens) /\
  (NoDup (Spec.ids (Spec.completed gens)) ->
   StronglySorted (Spec.newest_first gen_timestamp) (Spec.completed gens) ->
   nth_error (getAllMediaItems gens) (locateGlobalIndex gens (gen_id g) i)
   = Some m).
Proof.
  intros Hin Hm. pose proof (items_of_nth _ _ _ Hm) as (Hl & Hi & _).
  split; [now apply locateGlobalIndex_in_range|].
  intros Hnd Hs. rewrite (getAllMediaItems_in_order gens Hs).
  destruct (locate_from_nth gens g i 0 m Hin Hnd Hm) as (k & Hk & Hnth).
  unfold locateGlobalIndex. now rewrite Hk.
Qed.

Lemma locateGlobalIndex_spec_witness :
  locateGlobalIndex Timelines.newer_first "a" 0
    < length (getAllMediaItems Timelines.newer_first) /\
  nth_error (getAllMediaItems Timelines.newer_first)
            (locateGlobalIndex Timelines.newer_first "a" 0)
  = Some Timelines.item_a.
Proof.
  destruct (locateGlobalIndex_spec Timelines.newer_first
              (Timelines.one_image "a" "a.png" 1) 0 Timelines.item_a)
    as [Hrange Hitem].
  - simpl. right. left. reflexivity.
  - reflexivity.
  - split; [exact Hrange|]. apply Hitem.
    + repeat constructor; simpl; intuition discriminate.
    + repeat constructor; unfold Spec.newest_first; simpl; lia.
Defined.

(** C5: where [openFocusedView] does not find the item.  The loop
    counts the items of the records that stand before the record asked
    for in the timeline, while the list it indexes is sorted by
    timestamp.  In a timeline whose head is older than its second
    record, the pair of the head's id and local index 0 denotes the
    head's image, the index computed for it is 0, and the flattened list
    holds the other record's image there.  The handlers build such a
    timeline when the clock of the browser is set back between two
    workflows: the viewer, asked for the image of the record at the
    head, is then opened on the image of the record below it. *)
Lemma locateGlobalIndex_wrong_item :
  (In (Timelines.one_image "a" "a.png" 1) Timelines.older_first /\
   nth_error (items_of (Timelines.one_image "a" "a.png" 1)) 0
     = Some Timelines.item_a /\
   locateGlobalIndex Timelines.older_first "a" 0 = 0 /\
   nth_error (getAllMediaItems Timelines.older_first)
             (locateGlobalIndex Timelines.older_first "a" 0)
     = Some Timelines.item_b /\
   Timelines.item_b <> Timelines.item_a) /\
  (let s := run Sessions.clock_set_back (Timelines.state_of []) in
   let s' := exec (openFocusedView "loading-3" 0) s in
   generations s = [ Timelines.one_image "loading-3" "a.png" 3;
                     Timelines.one_image "loading-5" "b.png" 5 ] /\
   option_map m_url
     (nth_error (items_of (Timelines.one_image "loading-3" "a.png" 3)) 0)
     = Some "a.png" /\
   initialIndex (focusedView s') = 0 /\
   option_map m_url
     (FocusedMediaView.currentItem (App.viewer_props s')
        (Z.of_nat (initialIndex (focusedView s'))))
     = Some "b.png").
Proof.
  split; repeat split; try reflexivity.
  - left. reflexivity.
  - discriminate.
Qed.

(* ------------------------------------------------------------------ *)
(** ** The timeline store: begin, complete, fail *)

Lemma start_spec (w : Workflow) (now_id now_ts : Z) (s : State) :
  let (lg, s') := start w now_id now_ts s in
  generations s' = Loading lg :: generations s /\
  lg_id lg = id_prefix w ^^ Js.show_Z now_id /\
  lg_timestamp lg = now_ts /\
  length (fetches s') = S (length (fetches s)).
Proof.
  destruct w; simpl; repeat split; rewrite length_app; simpl; lia.
Qed.

Lemma attempt_completed (w : Workflow) (lg : LoadingGeneration)
      (r : FetchResult) (c : Generation) :
  attempt w lg r = inr c ->
  gen_id c = lg_id lg /\ gen_timestamp c = lg_timestamp lg /\
  isLoading c = false.
Proof.
  destruct w as [[|] p| |]; simpl;
    unfold handleNewGeneration_try, handleImageToVideo_try,
           handleImproveImage_try;
    destruct r as [e|data]; try discriminate;
    destruct (Js.truthy_flag (success data)); try discriminate;
    try (destruct (map_images data); try discriminate);
    try (destruct (map_videos data); try discriminate);
    intros H; injection H as <-; simpl; auto.
Qed.

Lemma settle_success (w : Workflow) (lg : LoadingGeneration) (r : FetchResult)
      (c : Generation) (s : State) :
  attempt w lg r = inr c ->
  generations (exec (settle w lg r) s)
  = completeGeneration (lg_id lg) c (generations s).
Proof.
  destruct w; simpl; intros H;
    unfold handleNewGeneration_settle, handleImageToVideo_settle,
           handleImproveImage_settle; rewrite H; reflexivity.
Qed.

Lemma catch_block_generations (label fallback : string)
      (lg : LoadingGeneration) (e : Js.Thrown) (s : State) :
  generations (exec (catch_block label fallback lg e) s)
  = failGeneration (lg_id lg) (generations s).
Proof.
  unfold catch_block, exec, bind. simpl.
  destruct (Js.includes "API key" (Js.message_or e fallback)); reflexivity.
Qed.

Lemma settle_failure (w : Workflow) (lg : LoadingGeneration) (r : FetchResult)
      (e : Js.Thrown) (s : State) :
  attempt w lg r = inl e ->
  generations (exec (settle w lg r) s)
  = failGeneration (lg_id lg) (generations s).
Proof.
  destruct w; simpl; intros H;
    unfold handleNewGeneration_settle, handleImageToVideo_settle,
           handleImproveImage_settle; rewrite H;
    apply catch_block_generations.
Qed.

Lemma completeGeneration_ids (id : string) (c : Generation)
      (prev : list Generation) :
  gen_id c = id ->
  Spec.ids (completeGeneration id c prev) = Spec.ids prev.
Proof.
  intros Hc. unfold Spec.ids, completeGeneration. rewrite map_map.
  apply map_ext. intros g. destruct (gen_id g =? id)%string eqn:E; [|reflexivity].
  apply String.eqb_eq in E. congruence.
Qed.

Lemma completeGeneration_absent (id : string) (c : Generation)
      (prev : list Generation) :
  ~ In id (Spec.ids prev) -> completeGeneration id c prev = prev.
Proof.
  unfold completeGeneration, Spec.ids.
  induction prev as [|g prev IH]; simpl; intros H; [reflexivity|].
  destruct (gen_id g =? id)%string eqn:E.
  - apply String.eqb_eq in E. tauto.
  - rewrite IH; [reflexivity|tauto].
Qed.

Lemma failGeneration_absent (id : string) (prev : list Generation) :
  ~ In id (Spec.ids prev) -> failGeneration id prev = prev.
Proof.
  unfold failGeneration, Spec.ids.
  induction prev as [|g prev IH]; simpl; intros H; [reflexivity|].
  destruct (gen_id g =? id)%string eqn:E; simpl.
  - apply String.eqb_eq in E. tauto.
  - rewrite IH; [reflexivity|tauto].
Qed.

Lemma failGeneration_removed (id : string) (prev : list Generation) :
  ~ In id (Spec.ids (failGeneration id prev)).
Proof.
  unfold Spec.ids, failGeneration. rewrite in_map_iff.
  intros (g & Hid & Hin). apply filter_In in Hin as [_ Hne].
  apply negb_true_iff, String.eqb_neq in Hne. auto.
Qed.




Lemma attempt_rejected (w : Workflow) (lg : LoadingGeneration) (e : Js.Thrown) :
  attempt w lg (Rejected e) = inl e.
Proof. destruct w as [[|] ?| |]; reflexivity. Qed.

Lemma attempt_error_response (w : Workflow) (lg : LoadingGeneration)
      (data : Data) :
  Js.truthy_flag (success data) = false ->
  exists msg, attempt w lg (Resolved data) = inl (Js.new_Error msg).
Proof.
  intros H. destruct w as [[|] ?| |]; simpl;
    unfold handleNewGeneration_try, handleImageToVideo_try,
           handleImproveImage_try; rewrite H; eauto.
Qed.

(** What the [catch] block does (C3).  In each of the workflows a
    rejected request and an error response both end in the [catch]
    block; and whenever a
    workflow ends there, in whatever state the timeline is by then, the
    timeline afterwards is the timeline before without the records that
    carry the id of the workflow's loading record, so no record with
    that id is left.  When the failure follows the insertion directly
    and no record of the timeline before the insertion carried that id,
    the timeline is again what it was before the insertion. *)
Theorem failure_removes_loading (w : Workflow) (now_id now_ts : Z)
        (r : FetchResult) (s later : State) :
  let lg := eval (start w now_id now_ts) s in
  let s1 := exec (start w now_id now_ts) s in
  (forall e, attempt w lg (Rejected e) = inl e) /\
  (forall data, Js.truthy_flag (success data) = false ->
     exists msg, attempt w lg (Resolved data) = inl (Js.new_Error msg)) /\
  ((exists e, attempt w lg r = inl e) ->
   generations (exec (settle w lg r) later)
   = failGeneration (lg_id lg) (generations later) /\
   ~ In (lg_id lg) (Spec.ids (generations (exec (settle w lg r) later))) /\
   generations (exec (settle w lg r) s1)
   = failGeneration (lg_id lg) (generations s) /\
   (~ In (lg_id lg) (Spec.ids (generations s)) ->
    generations (exec (settle w lg r) s1) = generations s)).
Proof.
  intros lg s1. split; [apply attempt_rejected|].
  split; [apply attempt_error_response|].
  intros [e He].
  assert (Hs1 : generations s1 = Loading lg :: generations s).
  { pose proof (start_spec w now_id now_ts s) as H.
    unfold lg, s1, eval, exec.
    destruct (start w now_id now_ts s) as [lg' s']. simpl. tauto. }
  assert (Hgo : generations (exec (settle w lg r) s1)
                = failGeneration (lg_id lg) (generations s)).
  { rewrite (settle_failure w lg r e s1 He), Hs1.
    unfold failGeneration. simpl. now rewrite String.eqb_refl. }
  rewrite (settle_failure w lg r e later He).
  repeat split.
  - apply failGeneration_removed.
  - exact Hgo.
  - intros Hfresh. rewrite Hgo. now apply failGeneration_absent.
Qed.

Lemma failure_removes_loading_witness :
  generations
    (exec (settle Sessions.fox RedFox.fox_loading (Rejected Js.NonError))
          (exec (start Sessions.fox 7 7) (mounted 0 0 None)))
  = createSampleGenerations 0 0.
Proof.
  pose proof (failure_removes_loading Sessions.fox 7 7 (Rejected Js.NonError)
                (mounted 0 0 None) (mounted 0 0 None)) as H.
  cbv zeta in H. destruct H as (_ & _ & H).
  destruct H as (_ & _ & _ & H).
  - exists Js.NonError. reflexivity.
  - apply H. simpl. intuition discriminate.
Defined.

(** C3: where the [catch] block removes more than the loading
    generation.  Two image workflows are begun within one millisecond
    of [Date.now()], so that their loading records carry one id; the
    request of the second is rejected while the first is pending.  The
    [catch] block of the second removes both records: the timeline is
    not what it was before the second was begun, the placeholder of
    the first is gone while its request is under way, and when that
    request is answered its images find no record to go to. *)
Lemma failure_removes_other_record :
  let s0 := exec (start Sessions.fox 7 7) (Timelines.state_of []) in
  let lg := eval (start Sessions.fox 7 8) s0 in
  let s1 := exec (start Sessions.fox 7 8) s0 in
  let s2 := exec (settle Sessions.fox lg (Rejected Js.NonError)) s1 in
  let s3 := exec (settle Sessions.fox RedFox.fox_loading RedFox.four_images) s2 in
  generations s0 = [Loading RedFox.fox_loading] /\
  generations s1 = [Loading RedFox.fox_loading_again;
                    Loading RedFox.fox_loading] /\
  generations s2 = [] /\
  generations s2 <> generations s0 /\
  generations s3 = [].
Proof.
  cbv zeta. repeat split. discriminate.
Qed.

(* ------------------------------------------------------------------ *)
(** ** Ids of the records of a session *)

Lemma id_prefix_inj (w w' : Workflow) (t t' : Z) :
  id_prefix w ^^ Js.show_Z t = id_prefix w' ^^ Js.show_Z t' ->
  id_prefix w = id_prefix w' /\ t = t'.
Proof.
  destruct w, w'; simpl id_prefix; intros H;
    try (simpl in H; discriminate);
    (split; [reflexivity|]); apply append_inj_l in H; now apply show_Z_inj.
Qed.

Lemma id_prefix_not_sample (w : Workflow) (t now1 now2 : Z) :
  ~ In (id_prefix w ^^ Js.show_Z t)
       (Spec.ids (createSampleGenerations now1 now2)).
Proof.
  destruct w; simpl; intuition discriminate.
Qed.

Lemma step_ids (s : State) (e : Event) :
  match e with
  | Start w now_id _ =>
      Spec.ids (generations (step s e))
      = (id_prefix w ^^ Js.show_Z now_id) :: Spec.ids (generations s)
  | _ =>
      exists keep : string -> bool,
        Spec.ids (generations (step s e))
        = filter keep (Spec.ids (generations s))
  end.
Proof.
  destruct e as [w n t|w lg r| |]; simpl.
  - pose proof (start_spec w n t s) as H. unfold exec.
    destruct (start w n t s) as [lg s']. simpl.
    destruct H as (-> & <- & _). reflexivity.
  - destruct (attempt w lg r) as [e|c] eqn:E.
    + exists (fun id => negb (id =? lg_id lg)%string).
      rewrite (settle_failure _ _ _ _ _ E).
      unfold Spec.ids, failGeneration.
      induction (generations s) as [|g l IH]; [reflexivity|].
      simpl. destruct (gen_id g =? lg_id lg)%string; simpl; now rewrite IH.
    + exists (fun _ => true).
      rewrite (settle_success _ _ _ _ _ E).
      rewrite completeGeneration_ids
        by (now apply attempt_completed in E).
      induction (Spec.ids (generations s)) as [|x l IH]; simpl; congruence.
  - exists (fun _ => true).
    induction (Spec.ids (generations s)) as [|x l IH]; simpl; congruence.
  - exists (fun _ => true).
    induction (Spec.ids (generations s)) as [|x l IH]; simpl; congruence.
Qed.

Lemma NoDup_filter_string (keep : string -> bool) (l : list string) :
  NoDup l -> NoDup (filter keep l).
Proof.
  induction 1 as [|x l Hx Hl IH]; simpl; [constructor|].
  destruct (keep x); [|exact IH].
  constructor; [|exact IH]. rewrite filter_In. tauto.
Qed.

Lemma run_ids_unique (now1 now2 : Z) (events : list Event) (s : State)
      (seen : list (string * Z)) :
  NoDup (Spec.ids (generations s)) ->
  (forall id, In id (Spec.ids (generations s)) ->
     In id (Spec.ids (createSampleGenerations now1 now2)) \/
     exists w t, In (id_prefix w, t) seen /\ id = id_prefix w ^^ Js.show_Z t) ->
  NoDup (seen ++ Spec.id_clock_readings events) ->
  NoDup (Spec.ids (generations (run events s))).
Proof.
  revert s seen. induction events as [|e events IH]; intros s seen Hnd Hids Hclk.
  - exact Hnd.
  - simpl. pose proof (step_ids s e) as Hstep.
    destruct e as [w n t|w lg r|gid i|u b p].
    + simpl Spec.id_clock_readings in Hclk.
      apply (IH _ (seen ++ [(id_prefix w, n)])).
      * rewrite Hstep. constructor; [|exact Hnd].
        intros Hin. destruct (Hids _ Hin) as [Hsample|(w' & t' & Hseen & Heq)].
        { exact (id_prefix_not_sample _ _ _ _ Hsample). }
        apply id_prefix_inj in Heq as [Hp ->]. rewrite <- Hp in Hseen.
        apply NoDup_remove_2 in Hclk. apply Hclk.
        apply in_or_app. now left.
      * intros id Hin. rewrite Hstep in Hin. destruct Hin as [<-|Hin].
        { right. exists w, n. split; [|reflexivity].
          apply in_or_app. right. now left. }
        destruct (Hids _ Hin) as [Hsample|(w' & t' & Hseen & Heq)]; [now left|].
        right. exists w', t'. split; [|exact Heq].
        apply in_or_app. now left.
      * now rewrite <- app_assoc.
    + destruct Hstep as [keep Hstep]. apply (IH _ seen).
      * rewrite Hstep. now apply NoDup_filter_string.
      * intros id Hin. rewrite Hstep in Hin. apply filter_In in Hin as [Hin _].
        auto.
      * exact Hclk.
    + destruct Hstep as [keep Hstep]. apply (IH _ seen).
      * rewrite Hstep. now apply NoDup_filter_string.
      * intros id Hin. rewrite Hstep in Hin. apply filter_In in Hin as [Hin _].
        auto.
      * exact Hclk.
    + destruct Hstep as [keep Hstep]. apply (IH _ seen).
      * rewrite Hstep. now apply NoDup_filter_string.
      * intros id Hin. rewrite Hstep in Hin. apply filter_In in Hin as [Hin _].
        auto.
      * exact Hclk.
Qed.




(* ------------------------------------------------------------------ *)
(** ** The image route: a batch of four sub-requests *)

Section ImageBatch.
Import GenerateImages GenerateImagesSpec.

Lemma first_part_found (parts : list Part) :
  (exists found, first_part parts = Some found) <->
  (exists part d bytes,
      In part parts /\ inlineData part = Some d /\
      data d = Some bytes /\ bytes <> "").
Proof.
  induction parts as [|part parts IH]; simpl.
  - split; [intros [? H]; discriminate | intros (? & ? & ? & [] & _)].
  - destruct (inlineData part) as [d|] eqn:Ed.
    + destruct (data d) as [bytes|] eqn:Eb.
      * destruct bytes as [|c bytes]; simpl.
        { rewrite IH. split.
          - intros (p & d' & b & Hin & H). exists p, d', b. tauto.
          - intros (p & d' & b & [<-|Hin] & Hd & Hb & Hne).
            + congruence.
            + exists p, d', b. tauto. }
        { split; [|eauto]. intros _.
          exists part, d, (String c bytes).
          repeat split; auto. discriminate. }
      * rewrite IH. split.
        { intros (p & d' & b & Hin & H). exists p, d', b. tauto. }
        { intros (p & d' & b & [<-|Hin] & Hd & Hb & Hne).
          - congruence.
          - exists p, d', b. tauto. }
    + rewrite IH. split.
      * intros (p & d' & b & Hin & H). exists p, d', b. tauto.
      * intros (p & d' & b & [<-|Hin] & Hd & Hb & Hne).
        { congruence. }
        { exists p, d', b. tauto. }
Qed.

Lemma first_image_found (cands : list Candidate) :
  (exists found, first_image cands = Some found) <->
  (exists candidate parts part d bytes,
      In candidate cands /\ content_parts candidate = Some parts /\
      In part parts /\ inlineData part = Some d /\
      data d = Some bytes /\ bytes <> "").
Proof.
  induction cands as [|c cands IH]; simpl.
  - split; [intros [? H]; discriminate | intros (? & ? & ? & ? & ? & [] & _)].
  - destruct (content_parts c) as [parts|] eqn:Ec.
    + destruct (first_part parts) as [found|] eqn:Ef.
      * split; [|eauto]. intros _.
        destruct (proj1 (first_part_found parts)) as (p & d & b & H);
          [eauto|].
        exists c, parts, p, d, b. tauto.
      * rewrite IH. split.
        { intros (c' & ps & p & d & b & Hin & H).
          exists c', ps, p, d, b. tauto. }
        { intros (c' & ps & p & d & b & [<-|Hin] & Hc & H).
          - exfalso. rewrite Ec in Hc. injection Hc as <-.
            destruct (proj2 (first_part_found parts)) as [f Hf];
              [eauto|congruence].
          - exists c', ps, p, d, b. tauto. }
    + rewrite IH. split.
      * intros (c' & ps & p & d & b & Hin & H).
        exists c', ps, p, d, b. tauto.
      * intros (c' & ps & p & d & b & [<-|Hin] & Hc & H).
        { congruence. }
        { exists c', ps, p, d, b. tauto. }
Qed.

(** A sub-call gives an image exactly when it produced a payload. *)
Lemma imagePromise_some (env : Env) (prompt : string)
      (imageBytes : option string) (index : nat) :
  (exists img, imagePromise env prompt imageBytes index = Some img) <->
  produced_payload env prompt imageBytes index.
Proof.
  unfold imagePromise, produced_payload, has_payload.
  destruct (generateContent env index (contentParts prompt imageBytes))
    as [e|response].
  - split; [intros [? H]; discriminate | intros (? & H & _); discriminate].
  - destruct (candidates response) as [cands|] eqn:Ec.
    + pose proof (first_image_found cands) as Hf.
      destruct (first_image cands) as [[bytes mime]|].
      * split; [|eauto]. intros _. exists response. split; [reflexivity|].
        destruct (proj1 Hf) as (c & ps & p & d & b & H); [eauto|].
        exists cands, c, ps, p, d, b. rewrite Ec. tauto.
      * split; [intros [? H]; discriminate|].
        intros (r & Hr & cs & c & ps & p & d & b & Hcs & H).
        injection Hr as <-. rewrite Ec in Hcs. injection Hcs as <-.
        destruct (proj2 Hf) as [f Hf']; [|discriminate].
        exists c, ps, p, d, b. exact H.
    + simpl. split; [intros [? H]; discriminate|].
      intros (r & Hr & cs & c & ps & p & d & b & Hcs & H).
      injection Hr as <-. congruence.
Qed.

Lemma filter_Boolean_map {A B : Type} (f : A -> option B) (l : list A) :
  Js.filter_Boolean (map f l)
  = flat_map (fun a => match f a with Some b => [b] | None => [] end) l.
Proof.
  induction l as [|a l IH]; simpl; [reflexivity|].
  destruct (f a); simpl; now rewrite IH.
Qed.

Lemma filter_Boolean_length {A B : Type} (f : A -> option B) (l : list A) :
  length (Js.filter_Boolean (map f l))
  = length (filter (fun a => match f a with Some _ => true | None => false end) l).
Proof.
  induction l as [|a l IH]; simpl; [reflexivity|].
  destruct (f a); simpl; now rewrite IH.
Qed.

Lemma filter_Boolean_In {A B : Type} (f : A -> option B) (l : list A) (b : B) :
  In b (Js.filter_Boolean (map f l)) <-> exists a, In a l /\ f a = Some b.
Proof.
  induction l as [|a l IH]; simpl.
  - split; [tauto | intros (? & [] & _)].
  - destruct (f a) as [b'|] eqn:E; simpl; rewrite IH; split.
    + intros [<-|(a' & Hin & H)]; eauto.
    + intros (a' & [<-|Hin] & H); [left; congruence | eauto].
    + intros (a' & Hin & H); eauto.
    + intros (a' & [<-|Hin] & H); [congruence | eauto].
Qed.

Lemma POST_launched (env : Env) (req : RequestBody) :
  launches env req ->
  POST env (inr req)
  = {| status := 200;
       body := {| success := Some true;
                  images := Some (Js.filter_Boolean
                                    (map (imagePromise env
                                            (Js.or_else (prompt req) "")
                                            (imageBytes req))
                                         (seq 0 4)));
                  body_prompt := Some (Js.or_else (prompt req) "");
                  error := None; details := None |} |}.
Proof.
  intros [Hp Hk]. unfold POST. rewrite Hp. simpl.
  destruct (Js.truthy_opt (apiKey req)) eqn:Ea; simpl in *.
  - rewrite Ea. reflexivity.
  - rewrite Hk. reflexivity.
Qed.

End ImageBatch.

Import GenerateImages GenerateImagesSpec.

(** C1 (as amended). For a request that launches the batch (a prompt and
    a key are there), the route answers 200 with [success: true] and
    exactly the images of the sub-calls that produced an image payload,
    in the order of their indices 0 to 3: a sub-call that throws or whose
    response carries no payload contributes nothing, so the number of
    images is the number of sub-calls that produced one.  When no
    sub-call produced a payload the answer is still a success, with an
    empty list of images. *)
Theorem generate_images_batch (env : Env) (req : RequestBody) :
  launches env req ->
  let sub := imagePromise env (Js.or_else (prompt req) "") (imageBytes req) in
  let yields := fun index =>
    match sub index with Some _ => true | None => false end in
  let answer := POST env (inr req) in
  status answer = 200 /\
  success (body answer) = Some true /\
  is_failure answer = false /\
  (forall index,
     yields index = true <->
     produced_payload env (Js.or_else (prompt req) "") (imageBytes req) index) /\
  images_of answer
  = flat_map (fun index => match sub index with Some img => [img] | None => [] end)
             [0; 1; 2; 3] /\
  length (images_of answer) = length (filter yields [0; 1; 2; 3]) /\
  (forall img, In img (images_of answer) <->
               exists index, index < 4 /\ sub index = Some img) /\
  ((forall index, index < 4 ->
      ~ produced_payload env (Js.or_else (prompt req) "") (imageBytes req) index) ->
   images_of answer = []).
Proof.
  intros Hl sub yields answer.
  assert (Hy : forall index,
             yields index = true <->
             produced_payload env (Js.or_else (prompt req) "") (imageBytes req) index).
  { intros index. rewrite <- imagePromise_some. unfold yields. fold sub.
    destruct (sub index); split; eauto; try discriminate.
    intros [? H]; discriminate. }
  unfold answer, images_of. rewrite (POST_launched env req Hl).
  cbn [status body success images]. fold sub.
  repeat split.
  - apply Hy.
  - apply Hy.
  - apply (filter_Boolean_map sub (seq 0 4)).
  - apply (filter_Boolean_length sub (seq 0 4)).
  - intros Hin. apply filter_Boolean_In in Hin as (index & Hin & Hs).
    exists index. split; [|exact Hs]. apply in_seq in Hin. lia.
  - intros (index & Hlt & Hs). apply filter_Boolean_In.
    exists index. split; [|exact Hs]. apply in_seq. lia.
  - intros Hnone.
    assert (Hs : forall index, index < 4 -> sub index = None).
    { intros index Hlt. specialize (Hnone index Hlt).
      rewrite <- Hy in Hnone. unfold yields in Hnone.
      destruct (sub index); [now elim Hnone | reflexivity]. }
    simpl. now rewrite !Hs by lia.
Qed.

Lemma generate_images_batch_witness :
  length (images_of (POST two_of_four (inr fox_request))) = 2.
Proof.
  assert (Hl : launches two_of_four fox_request) by (split; reflexivity).
  pose proof (generate_images_batch two_of_four fox_request Hl) as H.
  cbv zeta in H. destruct H as (_ & _ & _ & _ & _ & Hlen & _).
  rewrite Hlen. reflexivity.
Defined.

(** C1, the claim as it stands, fails: with four sub-calls of which none
    produces a payload, the route answers 200 with [success: true] and an
    empty list of images, which is no failure; the component, given that
    answer, completes the generation with no image and shows no error. *)
Lemma generate_images_none_of_four :
  launches none_of_four fox_request /\
  (forall index, index < 4 ->
     ~ produced_payload none_of_four "a red fox" None index) /\
  POST none_of_four (inr fox_request)
  = {| status := 200;
       body := {| success := Some true; images := Some [];
                  body_prompt := Some "a red fox";
                  error := None; details := None |} |} /\
  is_failure (POST none_of_four (inr fox_request)) = false /\
  (let s := exec (handleNewGeneration_settle TImage RedFox.fox_loading
                    (App.images_answer (POST none_of_four (inr fox_request))))
                 (Timelines.state_of [Loading RedFox.fox_loading]) in
   generations s
   = [Images {| ig_id := "loading-7"; ig_prompt := "a red fox";
                ig_images := []; ig_timestamp := 7; ig_isLoading := false |}] /\
   alerts s = [] /\ showApiKeyDialog s = false).
Proof.
  split; [split; reflexivity|]. split; [|repeat split; reflexivity].
  intros index Hlt Hp. apply imagePromise_some in Hp as [img Hp].
  do 4 (destruct index as [|index]; [discriminate|]). lia.
Qed.

(* ------------------------------------------------------------------ *)
(** ** The video routes: polling a long-running operation *)

Section Polling.
Import VideoRoutes VideoRoutesSpec.

Lemma rounds_snoc (t : list Effect) (n : nat) (op : Operation) :
  rounds t n -> rounds (t ++ [Wait 10000%Z; StatusCheck op]) (S n).
Proof.
  revert t. induction n as [|n IH]; intros t H.
  - destruct t; [simpl; tauto | destruct H].
  - destruct t as [|[ms|?] [|[?|op'] t]]; try destruct H as [Hms H]; try easy.
    specialize (IH t H). simpl app. cbn [rounds]. split; [exact Hms|].
    exact IH.
Qed.

Lemma status_checks_snoc (t : list Effect) (op : Operation) :
  status_checks (t ++ [Wait 10000%Z; StatusCheck op]) = S (status_checks t).
Proof.
  unfold status_checks. rewrite filter_app, length_app. simpl. lia.
Qed.

Lemma poll_unfold (env : Env) (fuel : nat) (st : Loop) :
  poll env (S fuel) st
  = if negb (Js.truthy_flag (done (operation st)))
       && (attempts st <? maxAttempts)%nat
    then
      match getVideosOperation env (attempts st) (operation st) with
      | inl thrown =>
          Some (inl (thrown,
                     {| operation := operation st;
                        attempts := attempts st;
                        trace := (trace st ++ [Wait 10000%Z])
                                 ++ [StatusCheck (operation st)] |}))
      | inr operation' =>
          poll env fuel {| operation := operation';
                           attempts := S (attempts st);
                           trace := (trace st ++ [Wait 10000%Z])
                                    ++ [StatusCheck (operation st)] |}
      end
    else Some (inr st).
Proof. reflexivity. Qed.

Lemma handle_after_next (env : Env) (op0 op : Operation) (k : nat) :
  handle_after env op0 k = Some op ->
  handle_after env op0 (S k)
  = match getVideosOperation env k op with
    | inr op' => Some op'
    | inl _ => None
    end.
Proof. simpl. now intros ->. Qed.

(** The loop, started anywhere on the way of a handle that stays pending
    for its first [n] checks, leaves after check [n] when that one
    reports done or the attempts are used up. *)
Lemma poll_leaves (env : Env) (op0 opn : Operation) (n : nat) :
  n <= maxAttempts ->
  (forall i, i < n -> pending_after env op0 i) ->
  handle_after env op0 n = Some opn ->
  Js.truthy_flag (done opn) = true \/ n = maxAttempts ->
  forall fuel st,
    attempts st <= n -> n - attempts st < fuel ->
    handle_after env op0 (attempts st) = Some (operation st) ->
    rounds (trace st) (attempts st) ->
    status_checks (trace st) = attempts st ->
    exists t, poll env fuel st
              = Some (inr {| operation := opn; attempts := n; trace := t |}) /\
              rounds t n /\ status_checks t = n.
Proof.
  intros Hn Hpend Hopn Hexit.
  induction fuel as [|fuel IH]; intros st Ha Hfuel Hop Hr Hc; [lia|].
  rewrite poll_unfold.
  destruct (Nat.eq_dec (attempts st) n) as [Heq|Hne].
  - rewrite Heq in Hop. rewrite Hopn in Hop. injection Hop as Hop.
    replace (negb (Js.truthy_flag (done (operation st)))
             && (attempts st <? maxAttempts)%nat) with false.
    + exists (trace st). destruct st as [o a t]; simpl in *. subst.
      auto.
    + symmetry. rewrite <- Hop. destruct Hexit as [->|Hmax]; [reflexivity|].
      apply andb_false_iff. right. apply Nat.ltb_ge. lia.
  - assert (Hlt : attempts st < n) by lia.
    destruct (Hpend _ Hlt) as (op & Hop' & Hnd).
    rewrite Hop in Hop'. injection Hop' as <-.
    rewrite Hnd. simpl negb.
    replace (attempts st <? maxAttempts)%nat with true
      by (symmetry; apply Nat.ltb_lt; lia).
    simpl andb.
    assert (Hnext : exists op', handle_after env op0 (S (attempts st)) = Some op').
    { destruct (Nat.eq_dec (S (attempts st)) n) as [E|E].
      - rewrite E. eauto.
      - destruct (Hpend (S (attempts st))) as (op' & H' & _); [lia|eauto]. }
    destruct Hnext as [op' Hop'].
    rewrite (handle_after_next _ _ _ _ Hop) in Hop'.
    destruct (getVideosOperation env (attempts st) (operation st))
      as [thrown|op''] eqn:Eg; [discriminate|].
    injection Hop' as ->.
    apply IH; cbn [operation attempts trace].
    + lia.
    + lia.
    + rewrite (handle_after_next _ _ _ _ Hop), Eg. reflexivity.
    + rewrite <- app_assoc. simpl. now apply rounds_snoc.
    + rewrite <- app_assoc. simpl. now rewrite status_checks_snoc, Hc.
Qed.

(** Fuel for one more test than there are attempts left is enough for
    the loop to leave. *)
Lemma poll_total (env : Env) (fuel : nat) (st : Loop) :
  maxAttempts - attempts st < fuel -> poll env fuel st <> None.
Proof.
  revert st. induction fuel as [|fuel IH]; intros st Hfuel; [lia|].
  rewrite poll_unfold.
  destruct (negb (Js.truthy_flag (done (operation st)))) ; simpl andb;
    [|discriminate].
  destruct (attempts st <? maxAttempts)%nat eqn:E; [|discriminate].
  apply Nat.ltb_lt in E.
  destruct (getVideosOperation env (attempts st) (operation st));
    [discriminate|].
  apply IH. cbn [attempts]. lia.
Qed.

(** Either route answers every request. *)
Lemma POST_total (route : Route) (env : Env)
      (request_json : Js.Thrown + RequestBody) :
  exists answer t, POST route env request_json = Some (answer, t).
Proof.
  unfold POST, POST_with.
  destruct request_json as [e|req]; [eauto|].
  destruct (invalid route req); [eauto|].
  destruct (negb _); [eauto|].
  destruct (generateVideos env (model_call route req)) as [e|op0]; [eauto|].
  pose proof (poll_total env (S maxAttempts)
                {| operation := op0; attempts := 0; trace := [] |}) as Ht.
  destruct (poll env (S maxAttempts) _) as [[[e st]|st]|].
  - eauto.
  - destruct (negb _); eauto.
  - exfalso. apply Ht; [cbn [attempts]; lia | reflexivity].
Qed.

Lemma POST_accepted (route : Route) (env : Env) (req : RequestBody) :
  accepted route env req ->
  POST route env (inr req)
  = match generateVideos env (model_call route req) with
    | inl _ => Some (error_response 500 (catch_message route), [])
    | inr operation0 =>
        match poll env (S maxAttempts)
                   {| operation := operation0; attempts := 0; trace := [] |} with
        | None => None
        | Some (inl (_, st)) =>
            Some (error_response 500 (catch_message route), trace st)
        | Some (inr st) =>
            if negb (Js.truthy_flag (done (operation st))) then
              Some (error_response 408 "Video generation timed out", trace st)
            else
              Some ({| status := 200;
                       body := {| success := Some true;
                                  videos := Some (collect_videos env (key_of env req)
                                                                 (operation st));
                                  body_prompt := prompt req;
                                  error := None |} |},
                    trace st)
        end
    end.
Proof.
  intros [Hv Hk]. unfold POST, POST_with, key_of. rewrite Hv.
  destruct (Js.truthy_opt (apiKey req)) eqn:Ea; simpl in Hk.
  - rewrite Ea. reflexivity.
  - rewrite Hk. reflexivity.
Qed.

End Polling.

Import VideoRoutes VideoRoutesSpec.

(** C2. For either video route and a request it accepts, with [op0] the
    handle the model call returns: the route waits ten seconds before
    each status check; if the handle stays pending for its first [n]
    checks and reports done at check [n] (at most the sixtieth; [n] is 0
    for a handle done at once), the route makes exactly [n] checks and
    answers 200 with the videos of that result; if the handle is still
    pending after each of its first sixty checks, the route makes
    exactly sixty checks and answers 408 "Video generation timed out".
    That answer differs in status and in message from the 500 answer the
    route gives when the provider throws. *)
Theorem poller_spec (route : Route) (env : Env) (req : RequestBody)
        (op0 : Operation) :
  accepted route env req ->
  generateVideos env (model_call route req) = inr op0 ->
  (forall n op,
     n <= maxAttempts ->
     (forall i, i < n -> pending_after env op0 i) ->
     done_after env op0 n op ->
     exists t,
       POST route env (inr req)
       = Some ({| status := 200;
                  body := {| success := Some true;
                             videos := Some (collect_videos env (key_of env req) op);
                             body_prompt := prompt req;
                             error := None |} |}, t) /\
       rounds t n /\ status_checks t = n) /\
  ((forall i, i <= maxAttempts -> pending_after env op0 i) ->
   exists t,
     POST route env (inr req)
     = Some (error_response 408 "Video generation timed out", t) /\
     rounds t 60 /\ status_checks t = 60) /\
  (forall thrown,
     getVideosOperation env 0 op0 = inl thrown ->
     Js.truthy_flag (done op0) = false ->
     exists t, POST route env (inr req)
               = Some (error_response 500 (catch_message route), t)) /\
  error_response 408 "Video generation timed out"
  <> error_response 500 (catch_message route).
Proof.
  intros Hacc Hgen. rewrite (POST_accepted route env req Hacc), Hgen.
  repeat split.
  - intros n op Hn Hpend [Hop Hdone].
    destruct (poll_leaves env op0 op n Hn Hpend Hop (or_introl Hdone)
                (S maxAttempts)
                {| operation := op0; attempts := 0; trace := [] |})
      as (t & -> & Hr & Hc); simpl; auto; try lia.
    exists t. rewrite Hdone. simpl. auto.
  - intros Hpend.
    destruct (Hpend maxAttempts (le_n _)) as (op & Hop & Hnd).
    destruct (poll_leaves env op0 op maxAttempts (le_n _)
                (fun i Hi => Hpend i (Nat.lt_le_incl _ _ Hi)) Hop
                (or_intror eq_refl) (S maxAttempts)
                {| operation := op0; attempts := 0; trace := [] |})
      as (t & -> & Hr & Hc); simpl; auto; try lia.
    exists t. rewrite Hnd. simpl. auto.
  - intros thrown Hthrow Hnd. rewrite poll_unfold.
    cbn [operation attempts trace]. rewrite Hnd, Hthrow. cbn. eauto.
  - destruct route; discriminate.
Qed.

Lemma poller_spec_witness :
  (exists t,
     POST GenerateVideos done_at_third (inr skyline)
     = Some ({| status := 200;
                body := {| success := Some true;
                           videos := Some (collect_videos done_at_third "env-key"
                                                          finished);
                           body_prompt := Some "a city skyline";
                           error := None |} |}, t) /\
     rounds t 3 /\ status_checks t = 3) /\
  (exists t,
     POST ImageToVideo never_done (inr skyline)
     = Some (error_response 408 "Video generation timed out", t) /\
     rounds t 60 /\ status_checks t = 60).
Proof.
  split.
  - assert (Hacc : accepted GenerateVideos done_at_third skyline)
      by (split; reflexivity).
    destruct (poller_spec GenerateVideos done_at_third skyline pending
                          Hacc eq_refl) as (Hdone & _).
    apply (Hdone 3 finished).
    + unfold maxAttempts. lia.
    + intros i Hi. exists pending.
      destruct i as [|[|[|i]]]; try lia; split; reflexivity.
    + split; reflexivity.
  - assert (Hacc : accepted ImageToVideo never_done skyline)
      by (split; reflexivity).
    destruct (poller_spec ImageToVideo never_done skyline pending
                          Hacc eq_refl) as (_ & Htimeout & _).
    apply Htimeout. intros i _. exists pending. split; [|reflexivity].
    induction i as [|i IH]; [reflexivity|]. simpl. now rewrite IH.
Defined.

(* ------------------------------------------------------------------ *)
(** ** Image to video from the grid *)

Lemma convert_to_video_accepted (s : State) (generation : ImageGeneration)
      (imageData : ImageItem) (index : nat) (now_id now_ts : Z) (bytes : string) :
  ContentGrid.imageBytes imageData = Some bytes -> Js.truthy bytes = true ->
  Js.truthy_flag (isSample imageData) = false ->
  let s' := exec (App.convertToVideo generation imageData index now_id now_ts) s in
  ContentGrid.fetches s'
  = ContentGrid.fetches s
    ++ [PostImageToVideo (ig_prompt generation ^^ " - animated video") bytes
                         (gemini_api_key s)] /\
  length (generations s') = S (length (generations s)).
Proof.
  intros Hb Ht Hs. unfold App.convertToVideo, ImageGrid.handleConvertToVideo.
  rewrite Hb, Hs. simpl. rewrite Ht. simpl. auto.
Qed.

(** C7. Asking the grid to animate an image that is flagged as a sample
    or has kept no bytes is turned down at once: the handler logs
    "Image to video conversion not available for sample images" and
    calls nothing, so the state of the timeline is what it was (no
    loading record) and no request is sent; the button itself is
    disabled for such an image. *)
Theorem convert_to_video_rejected (s : State) (generation : ImageGeneration)
        (imageData : ImageItem) (index : nat) (now_id now_ts : Z)
        (provided : bool) (converting : option nat) :
  Js.truthy_flag (isSample imageData) = true \/
  Js.truthy_opt (ContentGrid.imageBytes imageData) = false ->
  ImageGrid.handleConvertToVideo provided generation imageData index
  = [ImageGrid.ConsoleError
       "Image to video conversion not available for sample images"] /\
  App.convertToVideo generation imageData index now_id now_ts s
  = ([ImageGrid.ConsoleError
        "Image to video conversion not available for sample images"], s) /\
  generations (exec (App.convertToVideo generation imageData index
                                        now_id now_ts) s)
  = generations s /\
  ContentGrid.fetches (exec (App.convertToVideo generation imageData index
                                                now_id now_ts) s)
  = ContentGrid.fetches s /\
  ImageGrid.animate_disabled converting imageData index = true.
Proof.
  intros H.
  assert (Hh : forall p,
             ImageGrid.handleConvertToVideo p generation imageData index
             = [ImageGrid.ConsoleError
                  "Image to video conversion not available for sample images"]).
  { intros p. unfold ImageGrid.handleConvertToVideo.
    destruct H as [-> | ->]; simpl; rewrite ?orb_true_r; reflexivity. }
  assert (Hrun : App.convertToVideo generation imageData index now_id now_ts s
                 = ([ImageGrid.ConsoleError
                       "Image to video conversion not available for sample images"],
                    s)).
  { unfold App.convertToVideo. rewrite Hh. reflexivity. }
  repeat split.
  - apply Hh.
  - exact Hrun.
  - unfold exec. now rewrite Hrun.
  - unfold exec. now rewrite Hrun.
  - unfold ImageGrid.animate_disabled.
    destruct H as [-> | ->]; simpl; rewrite ?orb_true_r; reflexivity.
Qed.

Lemma convert_to_video_rejected_witness :
  App.convertToVideo Screens.sample_generation Screens.sample_image 0 7 7
                     (mounted 0 0 None)
  = ([ImageGrid.ConsoleError
        "Image to video conversion not available for sample images"],
     mounted 0 0 None).
Proof.
  apply (convert_to_video_rejected (mounted 0 0 None)
           Screens.sample_generation Screens.sample_image 0 7 7 true None).
  left. reflexivity.
Defined.

(* ------------------------------------------------------------------ *)
(** ** The focused viewer *)

Lemma viewer_never_converts (props : FocusedMediaView.Props) (currentIndex : Z)
      (a : FocusedMediaView.Action) (u b p : string) :
  ~ In (FocusedMediaView.OnImageToVideo u b p)
       (FocusedMediaView.handle props currentIndex a).
Proof.
  unfold FocusedMediaView.handle, FocusedMediaView.handleDownload.
  destruct a;
    repeat match goal with
           | |- context [match ?x with _ => _ end] => destruct x
           end;
    simpl; intuition discriminate.
Qed.

Lemma viewer_effects_close (now_id now_ts : Z) (s : State) :
  let s' := exec (App.viewer_effects now_id now_ts [FocusedMediaView.OnClose]) s in
  generations s' = generations s /\
  ContentGrid.fetches s' = ContentGrid.fetches s /\
  isOpen (focusedView s') = false.
Proof. simpl. auto. Qed.


Lemma viewer_animate_on_generated :
  FocusedMediaView.handle (App.viewer_props Screens.viewing_generated) 0
                          (FocusedMediaView.ClickAnimate FocusedMediaView.Desktop)
  = [FocusedMediaView.OnClose] /\
  option_map m_imageBytes
             (FocusedMediaView.currentItem
                (App.viewer_props Screens.viewing_generated) 0)
  = Some (Some "b") /\
  ContentGrid.fetches
    (exec (App.viewer_action 0 (FocusedMediaView.ClickAnimate
                                  FocusedMediaView.Desktop) 7 7)
          Screens.viewing_generated)
  = [].
Proof. repeat split. Qed.

(* ------------------------------------------------------------------ *)
(** ** Improve image: the derived prompt and the displayed prompt *)

Lemma occurs_in_prefix (s t : string) : Spec.occurs_in s (s ^^ t).
Proof. exists "", t. reflexivity. Qed.

Lemma occurs_in_suffix (s t : string) : Spec.occurs_in t (s ^^ t).
Proof.
  exists s, "". clear. induction s as [|c s IH]; simpl.
  - induction t as [|c t IH]; simpl; congruence.
  - now rewrite <- IH.
Qed.

Lemma occurs_in_middle (s t u : string) : Spec.occurs_in u (s ^^ t ^^ u).
Proof.
  exists (s ^^ t), "".
  assert (E : forall a b c : string, (a ^^ b) ^^ c = a ^^ b ^^ c).
  { clear. induction a as [|x a IH]; simpl; intros; [reflexivity|].
    now rewrite IH. }
  rewrite E. f_equal. f_equal.
  clear. induction u as [|c u IH]; simpl; congruence.
Qed.

Lemma improve_POST_accepted (env : ImproveImage.Env) (o i bytes : string)
      (key : option string) :
  Js.truthy o = true -> Js.truthy i = true -> Js.truthy bytes = true ->
  (Js.truthy_opt key || Js.truthy_opt (ImproveImage.GOOGLE_AI_API_KEY env)) = true ->
  ImproveImage.POST env
    (inr {| ImproveImage.originalPrompt := Some o;
            ImproveImage.improvementPrompt := Some i;
            ImproveImage.imageBytes := Some bytes;
            ImproveImage.apiKey := key |})
  = match ImproveImage.generateImages env
            {| ImproveImage.config_prompt := ImproveImage.compose o i;
               ImproveImage.numberOfImages := 4 |} with
    | inl err =>
        {| ImproveImage.status := 500;
           ImproveImage.body :=
             {| ImproveImage.success := Some false;
                ImproveImage.images := None;
                ImproveImage.body_originalPrompt := None;
                ImproveImage.body_improvementPrompt := None;
                ImproveImage.enhancedPrompt := None;
                ImproveImage.error :=
                  Some (Js.message_or_default err "Failed to improve image");
                ImproveImage.details :=
                  Some (Js.name_or_default err "Unknown error") |} |}
    | inr response =>
        {| ImproveImage.status := 200;
           ImproveImage.body :=
             {| ImproveImage.success := Some true;
                ImproveImage.images :=
                  Some (Js.filter_Boolean (ImproveImage.convert env response));
                ImproveImage.body_originalPrompt := Some o;
                ImproveImage.body_improvementPrompt := Some i;
                ImproveImage.enhancedPrompt := Some (ImproveImage.compose o i);
                ImproveImage.error := None;
                ImproveImage.details := None |} |}
    end.
Proof.
  intros Ho Hi Hb Hk. unfold ImproveImage.POST. simpl.
  rewrite Ho, Hi, Hb. simpl.
  destruct (Js.truthy_opt key) eqn:Ek; simpl in Hk.
  - rewrite Ek. simpl. reflexivity.
  - rewrite Hk. simpl. reflexivity.
Qed.

(** C8. The improve route, for a request with both prompts, image bytes
    and a key, calls the model with the prompt
    ["<original>. Please improve this image by: <improvement>"] and, when
    the model answers, echoes that prompt as [enhancedPrompt].  In the
    component, the loading record of an improve run is labelled
    ["<original> - improved: <improvement>"], which contains both texts;
    when the run succeeds, the record that replaces it at the head of
    the timeline shows the [enhancedPrompt] of the answer when that is a
    non-empty string and the label otherwise. *)
Theorem improve_image_prompt (env : ImproveImage.Env) (key : option string)
        (bytes : string) (improvementPrompt : string) (now_id now_ts : Z)
        (data : Data) (imgs : list ImageData) (s : State) :
  let originalPrompt := im_originalPrompt (improveImageModal s) in
  let label := originalPrompt ^^ " - improved: " ^^ improvementPrompt in
  let lg := eval (handleImproveImage_start improvementPrompt now_id now_ts) s in
  let s1 := exec (handleImproveImage_start improvementPrompt now_id now_ts) s in
  let s2 := exec (handleImproveImage_settle lg (Resolved data)) s1 in
  (Js.truthy originalPrompt = true -> Js.truthy improvementPrompt = true ->
   Js.truthy bytes = true ->
   (Js.truthy_opt key || Js.truthy_opt (ImproveImage.GOOGLE_AI_API_KEY env)) = true ->
   forall response,
     ImproveImage.generateImages env
       {| ImproveImage.config_prompt :=
            originalPrompt ^^ ". Please improve this image by: "
            ^^ improvementPrompt;
          ImproveImage.numberOfImages := 4 |} = inr response ->
     let answer :=
       ImproveImage.POST env
         (inr {| ImproveImage.originalPrompt := Some originalPrompt;
                 ImproveImage.improvementPrompt := Some improvementPrompt;
                 ImproveImage.imageBytes := Some bytes;
                 ImproveImage.apiKey := key |}) in
     ImproveImage.status answer = 200 /\
     ImproveImage.success (ImproveImage.body answer) = Some true /\
     ImproveImage.enhancedPrompt (ImproveImage.body answer)
     = Some (originalPrompt ^^ ". Please improve this image by: "
             ^^ improvementPrompt)) /\
  lg_prompt lg = label /\
  Spec.occurs_in originalPrompt label /\
  Spec.occurs_in improvementPrompt label /\
  (Js.truthy_flag (ContentGrid.success data) = true ->
   ContentGrid.images data = Some imgs ->
   exists c,
     generations s2
     = Images c :: completeGeneration (lg_id lg) (Images c) (generations s) /\
     ig_id c = lg_id lg /\
     ig_prompt c
     = match ContentGrid.enhancedPrompt data with
       | Some enhanced => if Js.truthy enhanced then enhanced else label
       | None => label
       end).
Proof.
  intros originalPrompt label lg s1 s2.
  split; [|split; [|split; [|split]]].
  - intros Ho Hi Hb Hk response Hgen answer. unfold answer.
    rewrite (improve_POST_accepted env _ _ _ key Ho Hi Hb Hk).
    unfold ImproveImage.compose. rewrite Hgen. simpl. auto.
  - reflexivity.
  - apply occurs_in_prefix.
  - apply occurs_in_middle.
  - intros Hs Hi.
    set (c := {| ig_id := lg_id lg;
                 ig_prompt := Js.or_else (ContentGrid.enhancedPrompt data)
                                         (lg_prompt lg);
                 ig_images := map (fun img => {| ContentGrid.url := d_url img;
                                                 ContentGrid.imageBytes := d_imageBytes img;
                                                 isSample := None |}) imgs;
                 ig_timestamp := lg_timestamp lg;
                 ig_isLoading := false |}).
    assert (Ht : handleImproveImage_try lg (Resolved data) = inr (Images c)).
    { unfold handleImproveImage_try, map_images. rewrite Hs, Hi. reflexivity. }
    exists c. split; [|split; reflexivity].
    unfold s2, handleImproveImage_settle. rewrite Ht.
    unfold exec at 1. simpl. rewrite String.eqb_refl. reflexivity.
Qed.

Lemma improve_image_prompt_witness :
  let s := Screens.fox_dialog in
  let lg := eval (handleImproveImage_start "sharper fur" 7 7) s in
  let s1 := exec (handleImproveImage_start "sharper fur" 7 7) s in
  map App.improve_request (ContentGrid.fetches s1)
  = [Some ImproveFox.fox_improve_request] /\
  App.improve_answer
    (ImproveImage.POST Screens.four_improved (inr ImproveFox.fox_improve_request))
  = Resolved ImproveFox.fox_improved /\
  (exists c,
     generations (exec (handleImproveImage_settle lg
                          (Resolved ImproveFox.fox_improved)) s1)
     = Images c :: createSampleGenerations 0 0 /\
     ig_prompt c = "a fox. Please improve this image by: sharper fur") /\
  (exists c,
     generations (exec (handleImproveImage_settle lg
                          (Resolved ImproveFox.fox_improved_silent)) s1)
     = Images c :: createSampleGenerations 0 0 /\
     ig_prompt c = "a fox - improved: sharper fur").
Proof.
  cbv zeta. split; [reflexivity|]. split; [reflexivity|]. split.
  - destruct (improve_image_prompt Screens.four_improved (Some "key") "AAAA"
                "sharper fur" 7 7 ImproveFox.fox_improved
                (map (fun b => {| d_url := "data:image/png;base64," ^^ b;
                                  d_imageBytes := Some b |})
                     ["AAAA"; "BBBB"; "CCCC"; "DDDD"])
                Screens.fox_dialog) as (_ & _ & _ & _ & H).
    destruct H as (c & Hg & _ & Hp); [reflexivity|reflexivity|].
    exists c. split; [exact Hg | exact Hp].
  - destruct (improve_image_prompt Screens.four_improved (Some "key") "AAAA"
                "sharper fur" 7 7 ImproveFox.fox_improved_silent
                (map (fun b => {| d_url := "data:image/png;base64," ^^ b;
                                  d_imageBytes := Some b |})
                     ["AAAA"; "BBBB"; "CCCC"; "DDDD"])
                Screens.fox_dialog) as (_ & _ & _ & _ & H).
    destruct H as (c & Hg & _ & Hp); [reflexivity|reflexivity|].
    exists c. split; [exact Hg | exact Hp].
Defined.

(* ------------------------------------------------------------------ *)
(** ** Timelines of a session under a clock that does not go back *)

Lemma newest_first_map {A : Type} (key : A -> Z) (l : list A) :
  StronglySorted (Spec.newest_first key) l <->
  StronglySorted (fun x y => (y <= x)%Z) (map key l).
Proof.
  induction l as [|a l IH]; simpl.
  - split; constructor.
  - split; intros H; inversion H as [|? ? Hs Hf]; subst; constructor.
    + now apply IH.
    + rewrite Forall_map. exact Hf.
    + now apply IH.
    + rewrite Forall_map in Hf. exact Hf.
Qed.

Lemma newest_first_filter {A : Type} (key : A -> Z) (keep : A -> bool)
      (l : list A) :
  StronglySorted (Spec.newest_first key) l ->
  StronglySorted (Spec.newest_first key) (filter keep l).
Proof.
  induction 1 as [|a l Hs IH Hf]; simpl; [constructor|].
  destruct (keep a); [|exact IH].
  constructor; [exact IH|].
  rewrite Forall_forall in Hf |- *. intros x Hx.
  apply filter_In in Hx as [Hx _]. auto.
Qed.

Lemma NoDup_ids_filter (keep : Generation -> bool) (l : list Generation) :
  NoDup (Spec.ids l) -> NoDup (Spec.ids (filter keep l)).
Proof.
  unfold Spec.ids. induction l as [|g l IH]; simpl; intros H; [constructor|].
  inversion H as [|? ? Hg Hl]; subst.
  destruct (keep g); simpl; [|auto].
  constructor; [|auto]. rewrite in_map_iff in Hg |- *.
  intros (x & Hx & Hin). apply filter_In in Hin as [Hin _]. eauto.
Qed.

Section MonotoneClock.

Variables now1 now2 : Z.

#[local] Abbreviation in_order := (Spec.in_order now1 now2).

Lemma in_order_start (s : State) (started : list LoadingGeneration)
      (seen : list (string * Z)) (hi : Z) (w : Workflow) (n t : Z) :
  in_order s started seen hi ->
  ~ In (id_prefix w, n) seen -> (hi <= t)%Z ->
  in_order (step s (Start w n t)) (eval (start w n t) s :: started)
           (seen ++ [(id_prefix w, n)]) t.
Proof.
  intros (I1 & I2 & I3 & I4 & I5) Hfresh Hhi.
  pose proof (start_spec w n t s) as Hst. simpl step. unfold exec, eval.
  destruct (start w n t s) as [lg s']. simpl.
  destruct Hst as (Hg & Hid & Hts & _).
  assert (Hnew : forall lg', In lg' started -> lg_id lg <> lg_id lg').
  { intros lg' Hin Heq. destruct (I4 lg' Hin) as (w' & n' & Hseen & Hid').
    rewrite Hid, Hid' in Heq. apply id_prefix_inj in Heq as [Hp ->].
    apply Hfresh. now rewrite Hp. }
  repeat split.
  - rewrite Hg. constructor; [exact I1|].
    apply Forall_forall. intros g Hin. unfold Spec.newest_first. simpl.
    specialize (I2 g Hin). lia.
  - rewrite Hg. intros g [<-|Hin]; [simpl; lia|].
    specialize (I2 g Hin). lia.
  - rewrite Hg. intros g [<-|Hin].
    + right. exists lg. simpl. auto.
    + destruct (I3 g Hin) as [Hs|(lg' & Hin' & H)]; [now left|].
      right. exists lg'. simpl. tauto.
  - intros lg' [<-|Hin].
    + exists w, n. split; [|exact Hid]. apply in_or_app. right. now left.
    + destruct (I4 lg' Hin) as (w' & n' & Hseen & Hid').
      exists w', n'. split; [|exact Hid']. apply in_or_app. now left.
  - intros a b [<-|Ha] [<-|Hb] Heq; try reflexivity.
    + now elim (Hnew b Hb).
    + symmetry in Heq. now elim (Hnew a Ha).
    + now apply I5.
Qed.

Lemma in_order_settle (s : State) (started : list LoadingGeneration)
      (seen : list (string * Z)) (hi : Z) (w : Workflow)
      (lg : LoadingGeneration) (r : FetchResult) :
  in_order s started seen hi -> In lg started ->
  in_order (step s (Settle w lg r)) started seen hi.
Proof.
  intros (I1 & I2 & I3 & I4 & I5) Hlg. simpl step.
  destruct (attempt w lg r) as [e|c] eqn:E.
  - pose proof (settle_failure w lg r e s E) as Hg.
    repeat split; auto; rewrite Hg; unfold failGeneration.
    + now apply newest_first_filter.
    + intros g Hin. apply filter_In in Hin as [Hin _]. auto.
    + intros g Hin. apply filter_In in Hin as [Hin _]. auto.
  - pose proof (settle_success w lg r c s E) as Hg.
    destruct (attempt_completed _ _ _ _ E) as (Hid & Hts & _).
    assert (Hsame : forall g, In g (generations s) -> gen_id g = lg_id lg ->
                              gen_timestamp g = lg_timestamp lg).
    { intros g Hin Heq. destruct (I3 g Hin) as [Hs|(lg' & Hin' & Hid' & Hts')].
      - exfalso. destruct (I4 lg Hlg) as (w' & n' & _ & Hlid).
        rewrite Heq, Hlid in Hs. exact (id_prefix_not_sample _ _ _ _ Hs).
      - rewrite Hts'. apply I5; auto. congruence. }
    assert (Hmap : map gen_timestamp (completeGeneration (lg_id lg) c (generations s))
                   = map gen_timestamp (generations s)).
    { unfold completeGeneration. rewrite map_map. apply map_ext_in.
      intros g Hin. destruct (gen_id g =? lg_id lg)%string eqn:Eq; [|reflexivity].
      apply String.eqb_eq in Eq. rewrite Hts. symmetry. now apply Hsame. }
    assert (Hin' : forall g, In g (completeGeneration (lg_id lg) c (generations s)) ->
                             g = c \/ In g (generations s)).
    { unfold completeGeneration. intros g Hin. apply in_map_iff in Hin as (x & Hx & Hin).
      destruct (gen_id x =? lg_id lg)%string; subst; auto. }
    repeat split; auto; rewrite Hg.
    + apply (proj2 (newest_first_map gen_timestamp _)). rewrite Hmap.
      apply (proj1 (newest_first_map gen_timestamp _)). exact I1.
    + intros g Hin.
      assert (Hb : In (gen_timestamp g) (map gen_timestamp (generations s)))
        by (rewrite <- Hmap; now apply in_map).
      apply in_map_iff in Hb as (x & <- & Hx). auto.
    + intros g Hin. destruct (Hin' g Hin) as [->|Hold]; [|auto].
      right. exists lg. auto.
Qed.

Lemma run_in_order (events : list Event) (s : State)
      (started : list LoadingGeneration) (seen : list (string * Z)) (hi : Z) :
  in_order s started seen hi ->
  Spec.resumes_started started s events ->
  NoDup (seen ++ Spec.id_clock_readings events) ->
  StronglySorted Z.le (hi :: Spec.timestamp_readings events) ->
  StronglySorted (Spec.newest_first gen_timestamp)
                 (generations (run events s)).
Proof.
  revert s started seen hi.
  induction events as [|e events IH]; intros s started seen hi Hinv Hres Hclk Hts.
  - apply Hinv.
  - simpl run. destruct e as [w n t|w lg r|gid i|u b p].
    + simpl in Hres, Hclk, Hts.
      inversion Hts as [|? ? Hts' Hhi]; subst.
      inversion Hhi as [|? ? Hle _]; subst.
      apply (IH _ (eval (start w n t) s :: started)
                (seen ++ [(id_prefix w, n)]) t).
      * apply (in_order_start s started seen hi); auto.
        apply NoDup_remove_2 in Hclk. intros Hin. apply Hclk.
        apply in_or_app. now left.
      * exact Hres.
      * now rewrite <- app_assoc.
      * exact Hts'.
    + destruct Hres as [Hlg Hres].
      apply (IH _ started seen hi); auto.
      now apply in_order_settle.
    + apply (IH _ started seen hi); auto.
    + apply (IH _ started seen hi); auto.
Qed.

(** In a session whose clock does not go back and gives each handler a
    different reading for each of its ids, the viewer opens on the item
    asked for. *)
Lemma session_locate_exact (key : option string) (events : list Event) :
  (now2 - 1000 * 60 * 5 <= now1 - 1000 * 60 * 2)%Z ->
  Spec.resumes_started [] (mounted now1 now2 key) events ->
  NoDup (Spec.id_clock_readings events) ->
  StronglySorted Z.le ((now1 - 1000 * 60 * 2)%Z :: Spec.timestamp_readings events) ->
  let timeline := generations (run events (mounted now1 now2 key)) in
  forall g i m,
    In g timeline -> nth_error (items_of g) i = Some m ->
    nth_error (getAllMediaItems timeline)
              (locateGlobalIndex timeline (gen_id g) i) = Some m.
Proof.
  intros Hsamples Hres Hclk Hts timeline g i m Hin Hm.
  assert (Hsorted : StronglySorted (Spec.newest_first gen_timestamp) timeline).
  { apply (run_in_order events _ [] [] (now1 - 1000 * 60 * 2)%Z); auto.
    split; [|split; [|split; [|split]]].
    - simpl. repeat constructor. unfold Spec.newest_first. simpl. lia.
    - simpl. intros x [<-|[<-|[]]]; simpl; lia.
    - intros x Hx. left. now apply in_map.
    - intros lg [].
    - intros lg lg' []. }
  assert (Hnd : NoDup (Spec.ids timeline)).
  { apply (run_ids_unique now1 now2 events _ []).
    - simpl. repeat constructor; simpl; intuition discriminate.
    - intros id Hid. now left.
    - exact Hclk. }
  rewrite getAllMediaItems_in_order
    by (now apply newest_first_filter).
  destruct (locate_from_nth timeline g i 0 m Hin
              (NoDup_ids_filter _ _ Hnd) Hm) as (k & Hk & Hnth).
  unfold locateGlobalIndex. now rewrite Hk.
Qed.

End MonotoneClock.

(* ================================================================== *)
(** * Further properties of the components and routes *)
(* ================================================================== *)

Import ContentGrid.

(* ------------------------------------------------------------------ *)
(** ** Workflows keep to their own record *)

Lemma others_complete (id : string) (c : Generation) (l : list Generation) :
  gen_id c = id ->
  Notions.others id (completeGeneration id c l) = Notions.others id l.
Proof.
  intros Hc. unfold Notions.others, completeGeneration.
  induction l as [|g l IH]; simpl; [reflexivity|].
  destruct (gen_id g =? id)%string eqn:E; simpl.
  - rewrite Hc, String.eqb_refl. simpl. exact IH.
  - rewrite E. simpl. now rewrite IH.
Qed.

Lemma others_fail (id : string) (l : list Generation) :
  Notions.others id (failGeneration id l) = Notions.others id l.
Proof.
  unfold Notions.others, failGeneration.
  induction l as [|g l IH]; simpl; [reflexivity|].
  destruct (gen_id g =? id)%string eqn:E; simpl; [exact IH|].
  rewrite E. simpl. now rewrite IH.
Qed.

Lemma settle_generations (w : Workflow) (lg : LoadingGeneration)
      (r : FetchResult) (s : State) :
  generations (exec (settle w lg r) s)
  = match attempt w lg r with
    | inr c => completeGeneration (lg_id lg) c (generations s)
    | inl _ => failGeneration (lg_id lg) (generations s)
    end.
Proof.
  destruct (attempt w lg r) as [e|c] eqn:E.
  - now apply settle_failure with (e := e).
  - now apply settle_success.
Qed.

Lemma catch_block_rest (label fallback : string) (lg : LoadingGeneration)
      (e : Js.Thrown) (s : State) :
  let s' := exec (catch_block label fallback lg e) s in
  ContentGrid.fetches s' = ContentGrid.fetches s /\
  focusedView s' = focusedView s /\
  improveImageModal s' = improveImageModal s /\
  gemini_api_key s' = gemini_api_key s.
Proof.
  unfold catch_block, exec, bind. simpl.
  destruct (Js.includes "API key" (Js.message_or e fallback)); simpl; auto.
Qed.

(** X1. A workflow that resumes, with a result or with a failure, leaves
    every record that carries another id than its loading record where
    and as it was; it sends no request and touches neither the viewer,
    nor the improve dialog, nor the stored key. *)
Theorem settle_keeps_other_records (w : Workflow) (lg : LoadingGeneration)
        (r : FetchResult) (s : State) :
  let s' := exec (settle w lg r) s in
  Notions.others (lg_id lg) (generations s')
  = Notions.others (lg_id lg) (generations s) /\
  ContentGrid.fetches s' = ContentGrid.fetches s /\
  focusedView s' = focusedView s /\
  improveImageModal s' = improveImageModal s /\
  gemini_api_key s' = gemini_api_key s.
Proof.
  cbv zeta. split.
  - rewrite settle_generations.
    destruct (attempt w lg r) as [e|c] eqn:E.
    + apply others_fail.
    + apply others_complete. now apply attempt_completed in E.
  - destruct w; simpl;
      unfold handleNewGeneration_settle, handleImageToVideo_settle,
             handleImproveImage_settle;
      match goal with
      | |- context [match ?x with _ => _ end] => destruct x
      end;
      first [ apply catch_block_rest | simpl; auto ].
Qed.

Lemma complete_complete_comm (a b : string) (ca cb : Generation)
      (l : list Generation) :
  a <> b -> gen_id ca = a -> gen_id cb = b ->
  completeGeneration a ca (completeGeneration b cb l)
  = completeGeneration b cb (completeGeneration a ca l).
Proof.
  intros Hab Ha Hb. subst a b.
  assert (Hba : (gen_id cb =? gen_id ca)%string = false)
    by (apply String.eqb_neq; congruence).
  assert (Hab' : (gen_id ca =? gen_id cb)%string = false)
    by (now apply String.eqb_neq).
  unfold completeGeneration. rewrite !map_map.
  apply map_ext. intros g.
  destruct (gen_id g =? gen_id cb)%string eqn:Eb;
    destruct (gen_id g =? gen_id ca)%string eqn:Ea;
    rewrite ?Hba, ?Hab', ?Ea, ?Eb, ?String.eqb_refl; try reflexivity.
  apply String.eqb_eq in Ea, Eb. congruence.
Qed.

Lemma complete_fail_comm (a b : string) (ca : Generation)
      (l : list Generation) :
  a <> b -> gen_id ca = a ->
  completeGeneration a ca (failGeneration b l)
  = failGeneration b (completeGeneration a ca l).
Proof.
  intros Hab Ha. subst a.
  assert (Hab' : (gen_id ca =? b)%string = false)
    by (now apply String.eqb_neq).
  unfold completeGeneration, failGeneration.
  induction l as [|g l IH]; simpl; [reflexivity|].
  destruct (gen_id g =? b)%string eqn:Eb;
    destruct (gen_id g =? gen_id ca)%string eqn:Ea;
    simpl; rewrite ?Hab', ?Ea, ?Eb; simpl; rewrite ?IH; try reflexivity.
  apply String.eqb_eq in Ea, Eb. congruence.
Qed.

Lemma fail_fail_comm (a b : string) (l : list Generation) :
  failGeneration a (failGeneration b l) = failGeneration b (failGeneration a l).
Proof.
  unfold failGeneration. induction l as [|g l IH]; simpl; [reflexivity|].
  destruct (gen_id g =? b)%string eqn:Eb, (gen_id g =? a)%string eqn:Ea;
    simpl; rewrite ?Ea, ?Eb; simpl; now rewrite ?IH.
Qed.

(** X2. Two workflows whose loading records carry different ids may
    resume in either order: the timeline is the same afterwards. *)
Theorem settle_order_irrelevant (wa wb : Workflow)
        (lga lgb : LoadingGeneration) (ra rb : FetchResult) (s : State) :
  lg_id lga <> lg_id lgb ->
  generations (exec (settle wb lgb rb) (exec (settle wa lga ra) s))
  = generations (exec (settle wa lga ra) (exec (settle wb lgb rb) s)).
Proof.
  intros Hne.
  rewrite !settle_generations.
  destruct (attempt wa lga ra) as [ea|ca] eqn:Ea;
    destruct (attempt wb lgb rb) as [eb|cb] eqn:Eb.
  - apply fail_fail_comm.
  - apply complete_fail_comm.
    + congruence.
    + now apply attempt_completed in Eb.
  - symmetry. apply complete_fail_comm.
    + exact Hne.
    + now apply attempt_completed in Ea.
  - apply complete_complete_comm.
    + congruence.
    + now apply attempt_completed in Eb.
    + now apply attempt_completed in Ea.
Qed.

Lemma settle_order_irrelevant_witness :
  generations
    (exec (settle Sessions.fox RedFox.fox_loading RedFox.four_images)
          (exec (settle (ImageToVideo "1.png" "b" "a red fox")
                        (eval (start (ImageToVideo "1.png" "b" "a red fox") 7 7)
                              (mounted 0 0 None))
                        (Rejected Js.NonError))
                (run [Start Sessions.fox 7 7;
                      Start (ImageToVideo "1.png" "b" "a red fox") 7 7]
                     (mounted 0 0 None))))
  = RedFox.fox_completed :: createSampleGenerations 0 0.
Proof.
  rewrite <- (settle_order_irrelevant
                Sessions.fox (ImageToVideo "1.png" "b" "a red fox")
                RedFox.fox_loading
                (eval (start (ImageToVideo "1.png" "b" "a red fox") 7 7)
                      (mounted 0 0 None))
                RedFox.four_images (Rejected Js.NonError)).
  - reflexivity.
  - simpl. discriminate.
Defined.

(* ------------------------------------------------------------------ *)
(** ** Ids of the flattened items *)

Lemma show_nat_digits (n : nat) : Notions.all_digits (Js.show_nat n) = true.
Proof.
  unfold Js.show_nat. generalize (Nat.to_uint n). intros d.
  induction d; simpl; auto.
Qed.

Lemma media_tag_cases (g : Generation) (i : nat) (m : MediaItem) :
  nth_error (items_of g) i = Some m ->
  Spec.media_tag g = "-img-" \/ Spec.media_tag g = "-vid-".
Proof.
  intros H. apply items_of_nth in H as (Hl & _).
  destruct g; simpl in *; auto. discriminate.
Qed.

Lemma digits_hold_no_tag (u t d2 d1 : string) :
  t = "-img-" \/ t = "-vid-" ->
  Notions.all_digits d1 = true -> u ^^ t ^^ d2 <> d1.
Proof.
  intros Ht. revert d1. induction u as [|c u IH]; intros d1 Hd H.
  - destruct Ht as [-> | ->]; simpl in H; subst d1; discriminate.
  - destruct d1 as [|c1 d1]; [discriminate|].
    simpl in H. injection H as _ H. simpl in Hd.
    apply andb_true_iff in Hd as [_ Hd]. exact (IH d1 Hd H).
Qed.

Lemma tag_not_inside (t1 t2 d1 d2 u : string) (c : ascii) :
  t1 = "-img-" \/ t1 = "-vid-" -> t2 = "-img-" \/ t2 = "-vid-" ->
  Notions.all_digits d1 = true ->
  t1 ^^ d1 <> String c (u ^^ t2 ^^ d2).
Proof.
  intros H1 H2 Hd H.
  assert (Hk : forall v, v ^^ t2 ^^ d2 <> d1)
    by (intros v; now apply digits_hold_no_tag).
  destruct H1 as [-> | ->]; simpl in H; injection H as _ H;
    (destruct u as [|c1 [|c2 [|c3 [|c4 u]]]]; simpl in H;
     [ destruct H2 as [-> | ->]; discriminate
     | destruct H2 as [-> | ->]; discriminate
     | destruct H2 as [-> | ->]; discriminate
     | injection H as _ _ _ H; destruct H2 as [-> | ->]; simpl in H;
       injection H as H; subst d1; discriminate
     | injection H as _ _ _ _ H; symmetry in H; exact (Hk u H) ]).
Qed.

(** The id of a flattened item tells the id of its generation, its kind
    and its local index. *)
Lemma composite_id_inj (s1 s2 t1 t2 d1 d2 : string) :
  t1 = "-img-" \/ t1 = "-vid-" -> t2 = "-img-" \/ t2 = "-vid-" ->
  Notions.all_digits d1 = true -> Notions.all_digits d2 = true ->
  s1 ^^ t1 ^^ d1 = s2 ^^ t2 ^^ d2 ->
  s1 = s2 /\ t1 = t2 /\ d1 = d2.
Proof.
  intros H1 H2 Hd1 Hd2. revert s2.
  induction s1 as [|c s1 IH]; intros [|c' s2] H.
  - simpl in H. destruct H1 as [-> | ->], H2 as [-> | ->];
      simpl in H; try discriminate;
      injection H as H; auto.
  - simpl in H. exfalso. exact (tag_not_inside t1 t2 d1 d2 s2 c' H1 H2 Hd1 H).
  - simpl in H. exfalso. symmetry in H.
    exact (tag_not_inside t2 t1 d2 d1 s1 c H2 H1 Hd2 H).
  - simpl in H. injection H as -> H.
    destruct (IH s2 H) as (-> & Ht & Hd). auto.
Qed.

Lemma items_of_ids_unique (g : Generation) :
  NoDup (Notions.item_ids (items_of g)).
Proof.
  unfold Notions.item_ids. apply NoDup_nth_error. intros i j Hi Heq.
  rewrite length_map in Hi. rewrite !nth_error_map in Heq.
  destruct (nth_error (items_of g) i) as [m|] eqn:Ei;
    [|apply nth_error_None in Ei; lia].
  destruct (nth_error (items_of g) j) as [m'|] eqn:Ej; [|discriminate].
  simpl in Heq. injection Heq as Heq.
  pose proof (items_of_nth _ _ _ Ei) as (_ & _ & Hm & _).
  pose proof (items_of_nth _ _ _ Ej) as (_ & _ & Hm' & _).
  rewrite Hm, Hm' in Heq.
  apply append_inj_l, append_inj_l in Heq. now apply show_nat_inj.
Qed.

Lemma flat_map_item_ids_unique (gens : list Generation) :
  NoDup (Spec.ids gens) ->
  NoDup (Notions.item_ids (flat_map items_of gens)).
Proof.
  unfold Notions.item_ids, Spec.ids.
  induction gens as [|h gens IH]; simpl; intros Hnd; [constructor|].
  inversion Hnd as [|? ? Hh Hrest]; subst.
  rewrite map_app. apply NoDup_app.
  - apply items_of_ids_unique.
  - now apply IH.
  - intros id Hin Hin'.
    apply in_map_iff in Hin as (m & <- & Hm).
    apply in_map_iff in Hin' as (m' & Heq & Hm').
    apply in_flat_map in Hm' as (g' & Hg' & Hm').
    apply In_nth_error in Hm as [i Hi]. apply In_nth_error in Hm' as [j Hj].
    pose proof (items_of_nth _ _ _ Hi) as (_ & _ & Hid & _).
    pose proof (items_of_nth _ _ _ Hj) as (_ & _ & Hid' & _).
    rewrite Hid, Hid' in Heq.
    apply composite_id_inj in Heq as (Hs & _).
    + apply Hh. rewrite <- Hs. now apply in_map.
    + exact (media_tag_cases _ _ _ Hj).
    + exact (media_tag_cases _ _ _ Hi).
    + apply show_nat_digits.
    + apply show_nat_digits.
Qed.

(** X3. When the completed records of a timeline carry distinct ids, the
    items of its flattened list carry distinct ids too, whatever strings
    the ids of the records are. *)
Theorem flattened_ids_unique (timeline : list Generation) :
  NoDup (Spec.ids (Spec.completed timeline)) ->
  NoDup (Notions.item_ids (getAllMediaItems timeline)).
Proof.
  intros H. unfold Notions.item_ids.
  apply (Permutation_NoDup
           (l := map m_id (flat_map items_of (Spec.completed timeline)))).
  - apply Permutation_map. rewrite <- flat_map_items_completed.
    apply Permutation_sym, getAllMediaItems_perm.
  - now apply flat_map_item_ids_unique.
Qed.

Lemma flattened_ids_unique_witness :
  NoDup (Notions.item_ids (getAllMediaItems (createSampleGenerations 0 0))).
Proof.
  apply flattened_ids_unique.
  simpl. repeat constructor; simpl; intuition discriminate.
Defined.

Lemma start_generations (w : Workflow) (now_id now_ts : Z) (s : State) :
  generations (exec (start w now_id now_ts) s)
  = Loading (eval (start w now_id now_ts) s) :: generations s /\
  lg_id (eval (start w now_id now_ts) s) = id_prefix w ^^ Js.show_Z now_id /\
  lg_timestamp (eval (start w now_id now_ts) s) = now_ts.
Proof.
  pose proof (start_spec w now_id now_ts s) as H. unfold exec, eval.
  destruct (start w now_id now_ts s) as [lg s']. simpl. tauto.
Qed.

Lemma flat_map_items_pending (before after : list Generation)
      (lg : LoadingGeneration) :
  flat_map items_of (before ++ Loading lg :: after)
  = flat_map items_of (before ++ after).
Proof. now rewrite !flat_map_app. Qed.

(** X4. While a workflow is pending, its loading record standing
    anywhere in the timeline and no other record carrying its id, it
    adds nothing to the flattened list, whatever else has been begun or
    completed since it began.  When it resumes with a result, the
    completed record takes the place of the loading record, and the
    flattened list holds the media of that record, one item each,
    stamped with the time at which the workflow began, together with
    the items it held before. *)
Theorem completion_shows_media (w : Workflow) (lg : LoadingGeneration)
        (r : FetchResult) (c : Generation) (s1 : State)
        (before after : list Generation) :
  attempt w lg r = inr c ->
  generations s1 = before ++ Loading lg :: after ->
  ~ In (lg_id lg) (Spec.ids before) ->
  ~ In (lg_id lg) (Spec.ids after) ->
  let s2 := exec (settle w lg r) s1 in
  getAllMediaItems (generations s1) = getAllMediaItems (before ++ after) /\
  generations s2 = before ++ c :: after /\
  Permutation (getAllMediaItems (generations s2))
              (items_of c ++ getAllMediaItems (generations s1)) /\
  length (getAllMediaItems (generations s2))
  = media_length c + length (getAllMediaItems (generations s1)) /\
  (forall m, In m (items_of c) -> m_timestamp m = lg_timestamp lg).
Proof.
  intros Hc Hg Hb Ha s2.
  destruct (attempt_completed _ _ _ _ Hc) as (Hid & Hcts & Hl).
  assert (H2 : generations s2 = before ++ c :: after).
  { unfold s2. rewrite (settle_success _ _ _ _ _ Hc), Hg.
    unfold completeGeneration. rewrite map_app. simpl.
    rewrite String.eqb_refl.
    fold (completeGeneration (lg_id lg) c before).
    fold (completeGeneration (lg_id lg) c after).
    now rewrite !completeGeneration_absent. }
  assert (Hperm : Permutation (getAllMediaItems (before ++ c :: after))
                              (items_of c
                               ++ getAllMediaItems (before ++ Loading lg :: after))).
  { eapply perm_trans; [apply getAllMediaItems_perm|].
    eapply perm_trans;
      [|apply Permutation_app_head, Permutation_sym, getAllMediaItems_perm].
    rewrite flat_map_items_pending, !flat_map_app. simpl.
    rewrite !app_assoc. apply Permutation_app_tail, Permutation_app_comm. }
  split; [|split; [|split; [|split]]].
  - rewrite Hg. unfold getAllMediaItems.
    now rewrite flat_map_items_pending.
  - exact H2.
  - rewrite H2, Hg. exact Hperm.
  - rewrite H2, Hg, (Permutation_length Hperm), length_app, items_of_length, Hl.
    reflexivity.
  - intros m Hm. rewrite (items_of_timestamp _ _ Hm). exact Hcts.
Qed.

Lemma completion_shows_media_witness :
  let s1 := exec (start (ImageToVideo "1.png" "b" "a red fox") 8 8)
                 (exec (start Sessions.fox 7 7) (Timelines.state_of [])) in
  map m_url (getAllMediaItems
               (generations
                  (exec (settle Sessions.fox RedFox.fox_loading RedFox.four_images)
                        s1)))
  = ["1.png"; "2.png"; "3.png"; "4.png"].
Proof.
  pose proof (completion_shows_media Sessions.fox RedFox.fox_loading
                RedFox.four_images RedFox.fox_completed
                (exec (start (ImageToVideo "1.png" "b" "a red fox") 8 8)
                      (exec (start Sessions.fox 7 7) (Timelines.state_of [])))
                [Loading (eval (start (ImageToVideo "1.png" "b" "a red fox") 8 8)
                               (exec (start Sessions.fox 7 7)
                                     (Timelines.state_of [])))]
                []
                eq_refl eq_refl) as H.
  cbv zeta in H. destruct H as (_ & H & _).
  - simpl. intuition discriminate.
  - simpl. tauto.
  - cbv zeta. rewrite H. reflexivity.
Defined.

(* ------------------------------------------------------------------ *)
(** ** A workflow with its route *)

Lemma start_request (w : Workflow) (now_id now_ts : Z) (s : State) :
  ContentGrid.fetches (exec (start w now_id now_ts) s)
  = ContentGrid.fetches s ++ [Network.request_of w s].
Proof. destruct w as [[|] ?| |]; reflexivity. Qed.

Lemma start_rest (w : Workflow) (now_id now_ts : Z) (s : State) :
  let s1 := exec (start w now_id now_ts) s in
  alerts s1 = alerts s /\ showApiKeyDialog s1 = showApiKeyDialog s /\
  gemini_api_key s1 = gemini_api_key s /\
  improveImageModal s1 = improveImageModal s /\
  focusedView s1 = focusedView s.
Proof. destruct w as [[|] ?| |]; simpl; auto. Qed.

Lemma last_snoc {A : Type} (l : list A) (x d : A) : last (l ++ [x]) d = x.
Proof.
  induction l as [|a l IH]; [reflexivity|].
  simpl. destruct (l ++ [x]) eqn:E; [destruct l; discriminate|exact IH].
Qed.

Lemma round_trip_unfold (srv : Network.Servers) (w : Workflow)
      (now_id now_ts : Z) (s : State) :
  Network.round_trip srv w now_id now_ts s
  = option_map
      (fun answer => exec (settle w (eval (start w now_id now_ts) s) answer)
                          (exec (start w now_id now_ts) s))
      (Network.serve srv (Network.request_of w s)).
Proof.
  unfold Network.round_trip.
  pose proof (start_request w now_id now_ts s) as Hr.
  unfold exec, eval in *. destruct (start w now_id now_ts s) as [lg s1].
  simpl in *. rewrite Hr, map_app. simpl. rewrite last_snoc.
  destruct (Network.serve srv (Network.request_of w s)); reflexivity.
Qed.

(** How a handler ends on an answer whose [success] is not true. *)
Lemma settle_error_response (w : Workflow) (lg : LoadingGeneration)
      (data : Data) (s : State) :
  Js.truthy_flag (ContentGrid.success data) = false ->
  let message :=
    Js.or_else (ContentGrid.error data)
               (match w with
                | NewGeneration TImage _ => "Image generation failed"
                | NewGeneration TVideo _ => "Video generation failed"
                | ImageToVideo _ _ _ => "Video conversion failed"
                | ImproveImage _ => "Image improvement failed"
                end) in
  exec (settle w lg (Resolved data)) s
  = exec (catch_block (Network.alert_label w) (Network.alert_label w) lg
                      (Js.new_Error message)) s.
Proof.
  intros H. destruct w as [[|] ?| |]; simpl;
    unfold handleNewGeneration_settle, handleNewGeneration_try,
           handleImageToVideo_settle, handleImageToVideo_try,
           handleImproveImage_settle, handleImproveImage_try;
    rewrite H; reflexivity.
Qed.

Lemma video_POST_no_key (route : VideoRoutes.Route) (env : VideoRoutes.Env)
      (req : VideoRoutes.RequestBody) :
  VideoRoutes.invalid route req = None ->
  Js.truthy_opt (VideoRoutes.apiKey req) = false ->
  Js.truthy_opt (VideoRoutes.GOOGLE_AI_API_KEY env) = false ->
  VideoRoutes.POST route env (inr req)
  = Some (VideoRoutes.error_response 401
            "No API key provided. Please add your Google AI API key in the settings.",
          []).
Proof.
  intros Hv Hk He. unfold VideoRoutes.POST, VideoRoutes.POST_with.
  rewrite Hv, Hk, He. reflexivity.
Qed.

Lemma serve_no_key (srv : Network.Servers) (w : Workflow) (s : State) :
  Network.callable w s -> Network.no_key srv s ->
  exists data,
    Network.serve srv (Network.request_of w s) = Some (Resolved data) /\
    Js.truthy_flag (ContentGrid.success data) = false /\
    ContentGrid.error data
    = Some "No API key provided. Please add your Google AI API key in the settings.".
Proof.
  intros Hc (Hk & Hi & Hv & Him).
  destruct w as [[|] prompt|url bytes prompt|improvement];
    cbn [Network.callable] in Hc;
    cbn [Network.request_of Network.serve].
  - unfold GenerateImages.POST.
    cbn [GenerateImages.prompt GenerateImages.apiKey Js.truthy_opt].
    rewrite Hc. cbn [negb]. fold (Js.truthy_opt (gemini_api_key s)).
    rewrite Hk, Hi. cbn [negb].
    eexists. split; [reflexivity|]. split; reflexivity.
  - rewrite video_POST_no_key; auto.
    + eexists. split; [reflexivity|]. split; reflexivity.
    + cbn. now rewrite Hc.
  - rewrite video_POST_no_key; auto.
    + eexists. split; [reflexivity|]. split; reflexivity.
    + cbn. rewrite Hc. destruct prompt; reflexivity.
  - destruct Hc as (Hi' & Ho & Hb). unfold ImproveImage.POST.
    cbn [ImproveImage.originalPrompt ImproveImage.improvementPrompt
         ImproveImage.imageBytes ImproveImage.apiKey Js.truthy_opt].
    rewrite Hi', Ho, Hb. cbn [negb orb].
    fold (Js.truthy_opt (gemini_api_key s)).
    rewrite Hk, Him. cbn [negb].
    eexists. split; [reflexivity|]. split; reflexivity.
Qed.

Lemma catch_block_dialog (label fallback : string) (lg : LoadingGeneration)
      (e : Js.Thrown) (s : State) :
  Js.includes "API key" (Js.message_or e fallback) = true ->
  showApiKeyDialog (exec (catch_block label fallback lg e) s) = true /\
  alerts (exec (catch_block label fallback lg e) s) = alerts s.
Proof.
  intros H. unfold catch_block, exec, bind. simpl. rewrite H. simpl. auto.
Qed.

Lemma catch_block_alert (label fallback : string) (lg : LoadingGeneration)
      (e : Js.Thrown) (s : State) :
  Js.includes "API key" (Js.message_or e fallback) = false ->
  showApiKeyDialog (exec (catch_block label fallback lg e) s)
  = showApiKeyDialog s /\
  alerts (exec (catch_block label fallback lg e) s)
  = alerts s ++ [label ^^ ": " ^^ Js.message_or e fallback].
Proof.
  intros H. unfold catch_block, exec, bind. simpl. rewrite H. simpl. auto.
Qed.

Lemma fail_after_start (w : Workflow) (now_id now_ts : Z) (s : State) :
  failGeneration (lg_id (eval (start w now_id now_ts) s))
                 (generations (exec (start w now_id now_ts) s))
  = Notions.others (id_prefix w ^^ Js.show_Z now_id) (generations s).
Proof.
  destruct (start_generations w now_id now_ts s) as (Hg & Hid & _).
  rewrite Hg. unfold failGeneration, Notions.others.
  cbn [filter gen_id]. rewrite String.eqb_refl. cbn [negb].
  now rewrite Hid.
Qed.

(** X5. When no key is stored in the browser and none is set on the
    server, a workflow whose arguments the route accepts is answered
    401; the handler then removes its loading record, opens the dialog
    that asks for a key and shows no alert. *)
Theorem missing_key_opens_dialog (srv : Network.Servers) (w : Workflow)
        (now_id now_ts : Z) (s : State) :
  Network.callable w s -> Network.no_key srv s ->
  exists s',
    Network.round_trip srv w now_id now_ts s = Some s' /\
    showApiKeyDialog s' = true /\
    alerts s' = alerts s /\
    generations s'
    = Notions.others (id_prefix w ^^ Js.show_Z now_id) (generations s).
Proof.
  intros Hc Hk.
  destruct (serve_no_key srv w s Hc Hk) as (data & Hserve & Hfail & Herr).
  rewrite round_trip_unfold, Hserve. cbn [option_map].
  eexists. split; [reflexivity|].
  rewrite (settle_error_response w _ data _ Hfail). rewrite Herr.
  destruct (start_rest w now_id now_ts s) as (Ha & _).
  destruct (catch_block_dialog (Network.alert_label w) (Network.alert_label w)
              (eval (start w now_id now_ts) s)
              (Js.new_Error
                 (Js.or_else
                    (Some "No API key provided. Please add your Google AI API key in the settings.")
                    (match w with
                     | NewGeneration TImage _ => "Image generation failed"
                     | NewGeneration TVideo _ => "Video generation failed"
                     | ImageToVideo _ _ _ => "Video conversion failed"
                     | ImproveImage _ => "Image improvement failed"
                     end)))
              (exec (start w now_id now_ts) s) eq_refl) as (Hd & Hal).
  split; [exact Hd|]. split; [now rewrite Hal|].
  rewrite catch_block_generations. apply fail_after_start.
Qed.

Lemma missing_key_opens_dialog_witness :
  exists s',
    Network.round_trip
      {| Network.images_env := GenerateImagesSpec.none_of_four;
         Network.videos_env :=
           {| VideoRoutes.GOOGLE_AI_API_KEY := None;
              VideoRoutes.generateVideos := fun _ => inr VideoRoutesSpec.pending;
              VideoRoutes.getVideosOperation := fun _ _ => inr VideoRoutesSpec.pending;
              VideoRoutes.Date_now := fun _ => 0%Z |};
         Network.improve_env := Screens.four_improved |}
      (NewGeneration TVideo "a city skyline") 7 7 (mounted 0 0 None)
    = Some s' /\
    showApiKeyDialog s' = true /\
    alerts s' = [] /\
    generations s' = createSampleGenerations 0 0.
Proof.
  destruct (missing_key_opens_dialog
              {| Network.images_env := GenerateImagesSpec.none_of_four;
                 Network.videos_env :=
                   {| VideoRoutes.GOOGLE_AI_API_KEY := None;
                      VideoRoutes.generateVideos :=
                        fun _ => inr VideoRoutesSpec.pending;
                      VideoRoutes.getVideosOperation :=
                        fun _ _ => inr VideoRoutesSpec.pending;
                      VideoRoutes.Date_now := fun _ => 0%Z |};
                 Network.improve_env := Screens.four_improved |}
              (NewGeneration TVideo "a city skyline") 7 7 (mounted 0 0 None))
    as (s' & Hr & Hd & Ha & Hg).
  - reflexivity.
  - repeat split.
  - exists s'. rewrite Hg. repeat split; assumption.
Defined.

(* ------------------------------------------------------------------ *)
(** ** Polling, whatever the provider does *)

Lemma poll_invariant (env : VideoRoutes.Env) (P : VideoRoutes.Operation -> Prop) :
  (forall k op op',
      P op -> VideoRoutes.getVideosOperation env k op = inr op' -> P op') ->
  forall fuel st res,
    VideoRoutesSpec.rounds (VideoRoutes.trace st) (VideoRoutes.attempts st) ->
    VideoRoutesSpec.status_checks (VideoRoutes.trace st) = VideoRoutes.attempts st ->
    VideoRoutes.attempts st <= VideoRoutes.maxAttempts ->
    P (VideoRoutes.operation st) ->
    VideoRoutes.poll env fuel st = Some res ->
    match res with
    | inl (_, st') =>
        Notions.paced (VideoRoutes.trace st') /\
        VideoRoutesSpec.status_checks (VideoRoutes.trace st')
        <= VideoRoutes.maxAttempts
    | inr st' =>
        Notions.paced (VideoRoutes.trace st') /\
        VideoRoutesSpec.status_checks (VideoRoutes.trace st')
        <= VideoRoutes.maxAttempts /\
        P (VideoRoutes.operation st')
    end.
Proof.
  intros HP. induction fuel as [|fuel IH]; intros st res Hr Hc Ha Hp Hres;
    [discriminate|].
  rewrite poll_unfold in Hres.
  destruct (negb (Js.truthy_flag (VideoRoutes.done (VideoRoutes.operation st)))
            && (VideoRoutes.attempts st <? VideoRoutes.maxAttempts)%nat) eqn:Eg.
  - apply andb_true_iff in Eg as [_ Elt]. apply Nat.ltb_lt in Elt.
    destruct (VideoRoutes.getVideosOperation env (VideoRoutes.attempts st)
                                             (VideoRoutes.operation st))
      as [thrown|op'] eqn:Eop.
    + injection Hres as <-. cbn [VideoRoutes.trace].
      rewrite <- app_assoc. simpl app. unfold Notions.paced.
      rewrite status_checks_snoc, Hc. split; [|lia].
      now apply rounds_snoc.
    + apply IH in Hres; cbn [VideoRoutes.trace VideoRoutes.attempts
                              VideoRoutes.operation]; auto.
      * rewrite <- app_assoc. simpl app. now apply rounds_snoc.
      * rewrite <- app_assoc. simpl app. now rewrite status_checks_snoc, Hc.
      * eapply HP; eauto.
  - injection Hres as <-. unfold Notions.paced. rewrite Hc. auto with arith.
Qed.

(** X6. Whatever the provider answers or throws, a video route makes at
    most sixty status checks, each after a wait of ten seconds, and its
    trace holds nothing else; and when no handle the provider returns is
    ever done, the route does not answer 200. *)
Theorem polling_is_bounded (route : VideoRoutes.Route) (env : VideoRoutes.Env)
        (request_json : Js.Thrown + VideoRoutes.RequestBody)
        (answer : VideoRoutes.Response) (t : list VideoRoutes.Effect) :
  VideoRoutes.POST route env request_json = Some (answer, t) ->
  Notions.paced t /\
  VideoRoutesSpec.status_checks t <= 60 /\
  ((forall call op, VideoRoutes.generateVideos env call = inr op ->
                    Js.truthy_flag (VideoRoutes.done op) = false) ->
   (forall k op op', VideoRoutes.getVideosOperation env k op = inr op' ->
                     Js.truthy_flag (VideoRoutes.done op') = false) ->
   VideoRoutes.status answer <> 200).
Proof.
  unfold VideoRoutes.POST, VideoRoutes.POST_with.
  assert (Hnil : Notions.paced [] /\ VideoRoutesSpec.status_checks [] <= 60)
    by (split; [exact I | apply Nat.le_0_l]).
  destruct request_json as [e|req].
  { intros H. injection H as <- <-. repeat split; try apply Hnil.
    intros _ _. discriminate. }
  destruct (VideoRoutes.invalid route req).
  { intros H. injection H as <- <-. repeat split; try apply Hnil.
    intros _ _. discriminate. }
  destruct (negb _).
  { intros H. injection H as <- <-. repeat split; try apply Hnil.
    intros _ _. discriminate. }
  destruct (VideoRoutes.generateVideos env (VideoRoutes.model_call route req))
    as [e|op0] eqn:Egen.
  { intros H. injection H as <- <-. repeat split; try apply Hnil.
    intros _ _. discriminate. }
  destruct (VideoRoutes.poll env (S VideoRoutes.maxAttempts) _)
    as [[[thrown st]|st]|] eqn:Epoll; [| |discriminate].
  - intros H. injection H as <- <-.
    pose proof (poll_invariant env (fun _ => True) (fun _ _ _ _ _ => I)
                  (S VideoRoutes.maxAttempts)
                  {| VideoRoutes.operation := op0; VideoRoutes.attempts := 0;
                     VideoRoutes.trace := [] |}
                  _ I eq_refl (Nat.le_0_l _) I Epoll) as (Hp & Hc).
    repeat split; auto. intros _ _. discriminate.
  - intros H.
    pose proof (poll_invariant env (fun _ => True) (fun _ _ _ _ _ => I)
                  (S VideoRoutes.maxAttempts)
                  {| VideoRoutes.operation := op0; VideoRoutes.attempts := 0;
                     VideoRoutes.trace := [] |}
                  _ I eq_refl (Nat.le_0_l _) I Epoll) as (Hp & Hc & _).
    destruct (negb (Js.truthy_flag (VideoRoutes.done (VideoRoutes.operation st))))
      eqn:Ed; injection H as <- <-; repeat split; auto.
    + intros _ _. discriminate.
    + intros Hgen Hchk _.
      pose proof (poll_invariant env
                    (fun op => Js.truthy_flag (VideoRoutes.done op) = false)
                    (fun k op op' _ H => Hchk k op op' H)
                    (S VideoRoutes.maxAttempts)
                    {| VideoRoutes.operation := op0; VideoRoutes.attempts := 0;
                       VideoRoutes.trace := [] |}
                    _ I eq_refl (Nat.le_0_l _)
                    (Hgen _ _ Egen) Epoll) as (_ & _ & Hnd).
      rewrite Hnd in Ed. discriminate.
Qed.

Lemma polling_is_bounded_witness :
  exists answer t,
    VideoRoutes.POST VideoRoutes.GenerateVideos VideoRoutesSpec.done_at_third
                     (inr VideoRoutesSpec.skyline) = Some (answer, t) /\
    Notions.paced t /\ VideoRoutesSpec.status_checks t <= 60.
Proof.
  destruct (VideoRoutes.POST VideoRoutes.GenerateVideos
              VideoRoutesSpec.done_at_third (inr VideoRoutesSpec.skyline))
    as [[answer t]|] eqn:H.
  - exists answer, t. split; [reflexivity|].
    destruct (polling_is_bounded _ _ _ _ _ H) as (Hp & Hc & _). auto.
  - vm_compute in H. discriminate.
Defined.

(* ------------------------------------------------------------------ *)
(** ** Video workflows with their routes *)

Lemma truthy_append_r (p q : string) :
  Js.truthy q = true -> Js.truthy (p ^^ q) = true.
Proof. destruct p; simpl; auto. Qed.

Lemma serve_video (srv : Network.Servers) (w : Workflow) (s : State)
      (route : VideoRoutes.Route) :
  Network.video_route w = Some route ->
  Network.serve srv (Network.request_of w s)
  = option_map (fun a => Network.videos_answer (fst a))
      (VideoRoutes.POST route (Network.videos_env srv)
                        (inr (Network.video_body w s))).
Proof.
  destruct w as [[|] ?| |]; cbn [Network.video_route]; intros H;
    try discriminate; injection H as <-; reflexivity.
Qed.

Lemma video_accepted (srv : Network.Servers) (w : Workflow) (s : State)
      (route : VideoRoutes.Route) :
  Network.video_route w = Some route ->
  Network.callable w s -> Network.video_key_there srv s ->
  VideoRoutesSpec.accepted route (Network.videos_env srv)
                           (Network.video_body w s) /\
  VideoRoutesSpec.key_of (Network.videos_env srv) (Network.video_body w s)
  = Network.video_key srv s.
Proof.
  intros Hr Hc Hk. destruct w as [[|] prompt|url bytes prompt|];
    simpl in Hr; try discriminate; injection Hr as <-; simpl in Hc.
  - split; [split|reflexivity]; [|exact Hk].
    unfold VideoRoutes.invalid. cbn. now rewrite Hc.
  - split; [split|reflexivity]; [|exact Hk].
    unfold VideoRoutes.invalid. cbn.
    rewrite (truthy_append_r prompt " - animated video" eq_refl), Hc.
    reflexivity.
Qed.

(** The answer of a video route once the loop has left. *)
Lemma video_POST_left (route : VideoRoutes.Route) (env : VideoRoutes.Env)
      (req : VideoRoutes.RequestBody) (op0 opn : VideoRoutes.Operation)
      (n : nat) :
  VideoRoutesSpec.accepted route env req ->
  VideoRoutes.generateVideos env (VideoRoutes.model_call route req) = inr op0 ->
  n <= VideoRoutes.maxAttempts ->
  (forall i, i < n -> VideoRoutesSpec.pending_after env op0 i) ->
  VideoRoutesSpec.handle_after env op0 n = Some opn ->
  Js.truthy_flag (VideoRoutes.done opn) = true \/ n = VideoRoutes.maxAttempts ->
  exists t,
    VideoRoutes.POST route env (inr req)
    = Some (if negb (Js.truthy_flag (VideoRoutes.done opn)) then
              VideoRoutes.error_response 408 "Video generation timed out"
            else
              {| VideoRoutes.status := 200;
                 VideoRoutes.body :=
                   {| VideoRoutes.success := Some true;
                      VideoRoutes.videos :=
                        Some (VideoRoutes.collect_videos env
                                (VideoRoutesSpec.key_of env req) opn);
                      VideoRoutes.body_prompt := VideoRoutes.prompt req;
                      VideoRoutes.error := None |} |},
            t).
Proof.
  intros Hacc Hgen Hn Hpend Hop Hexit.
  rewrite (POST_accepted route env req Hacc), Hgen.
  destruct (poll_leaves env op0 opn n Hn Hpend Hop Hexit
              (S VideoRoutes.maxAttempts)
              {| VideoRoutes.operation := op0; VideoRoutes.attempts := 0;
                 VideoRoutes.trace := [] |})
    as (t & -> & _); cbn [VideoRoutes.attempts VideoRoutes.operation
                          VideoRoutes.trace]; auto; try lia.
  - exact I.
  - exists t. cbn [VideoRoutes.operation VideoRoutes.trace].
    destruct (negb (Js.truthy_flag (VideoRoutes.done opn))); reflexivity.
Qed.

(** X7. A video workflow (text to video or image to video) whose handle
    is still pending after sixty status checks ends with its loading
    record removed and one alert, "<label>: Video generation timed
    out"; the key dialog is left as it is. *)
Theorem timeout_is_alerted (srv : Network.Servers) (w : Workflow)
        (route : VideoRoutes.Route) (now_id now_ts : Z) (s : State)
        (op0 : VideoRoutes.Operation) :
  Network.video_route w = Some route ->
  Network.callable w s -> Network.video_key_there srv s ->
  (forall call,
      VideoRoutes.generateVideos (Network.videos_env srv) call = inr op0) ->
  (forall i, i <= VideoRoutes.maxAttempts ->
             VideoRoutesSpec.pending_after (Network.videos_env srv) op0 i) ->
  exists s',
    Network.round_trip srv w now_id now_ts s = Some s' /\
    alerts s'
    = alerts s ++ [Network.alert_label w ^^ ": Video generation timed out"] /\
    showApiKeyDialog s' = showApiKeyDialog s /\
    generations s'
    = Notions.others (id_prefix w ^^ Js.show_Z now_id) (generations s).
Proof.
  intros Hr Hc Hk Hgen Hpend.
  destruct (video_accepted srv w s route Hr Hc Hk) as (Hacc & _).
  destruct (Hpend VideoRoutes.maxAttempts (le_n _)) as (op & Hop & Hnd).
  destruct (video_POST_left route (Network.videos_env srv)
              (Network.video_body w s) op0 op VideoRoutes.maxAttempts
              Hacc (Hgen _) (le_n _)
              (fun i Hi => Hpend i (Nat.lt_le_incl _ _ Hi)) Hop
              (or_intror eq_refl)) as (t & HP).
  rewrite Hnd in HP. cbn [negb] in HP.
  rewrite round_trip_unfold, (serve_video srv w s route Hr), HP.
  cbn [option_map fst].
  eexists. split; [reflexivity|].
  change (Network.videos_answer
            (VideoRoutes.error_response 408 "Video generation timed out"))
    with (Resolved {| ContentGrid.success := None;
                      ContentGrid.images := None;
                      ContentGrid.videos := None;
                      ContentGrid.error := Some "Video generation timed out";
                      ContentGrid.enhancedPrompt := None |}).
  match goal with
  | |- context [Resolved ?d] => rewrite (settle_error_response w _ d _ eq_refl)
  end.
  cbn [ContentGrid.error Js.or_else Js.truthy].
  destruct (start_rest w now_id now_ts s) as (Ha & Hd & _).
  destruct (catch_block_alert (Network.alert_label w) (Network.alert_label w)
              (eval (start w now_id now_ts) s)
              (Js.new_Error "Video generation timed out")
              (exec (start w now_id now_ts) s) eq_refl) as (Hd' & Hal).
  split; [rewrite Hal, Ha; reflexivity|].
  split; [now rewrite Hd'|].
  rewrite catch_block_generations. apply fail_after_start.
Qed.

Lemma timeout_is_alerted_witness :
  exists s',
    Network.round_trip
      {| Network.images_env := GenerateImagesSpec.none_of_four;
         Network.videos_env := VideoRoutesSpec.never_done;
         Network.improve_env := Screens.four_improved |}
      (ImageToVideo "1.png" "AAAA" "a red fox") 7 7 (mounted 0 0 None)
    = Some s' /\
    alerts s' = ["Video conversion failed: Video generation timed out"] /\
    generations s' = createSampleGenerations 0 0.
Proof.
  destruct (timeout_is_alerted
              {| Network.images_env := GenerateImagesSpec.none_of_four;
                 Network.videos_env := VideoRoutesSpec.never_done;
                 Network.improve_env := Screens.four_improved |}
              (ImageToVideo "1.png" "AAAA" "a red fox")
              VideoRoutes.ImageToVideo 7 7 (mounted 0 0 None)
              VideoRoutesSpec.pending)
    as (s' & Hr & Ha & _ & Hg).
  - reflexivity.
  - reflexivity.
  - reflexivity.
  - reflexivity.
  - intros i _. exists VideoRoutesSpec.pending. split; [|reflexivity].
    change (VideoRoutesSpec.handle_after VideoRoutesSpec.never_done
              VideoRoutesSpec.pending i = Some VideoRoutesSpec.pending).
    induction i as [|i IH]; [reflexivity|]. simpl. now rewrite IH.
  - exists s'. rewrite Hg. repeat split; assumption.
Defined.

Lemma map_mapi_from {A B C : Type} (f : A -> nat -> B) (g : B -> C)
      (h : A -> C) (l : list A) (i : nat) :
  (forall x k, g (f x k) = h x) ->
  map g (Js.mapi_from i f l) = map h l.
Proof.
  intros H. revert i. induction l as [|x l IH]; intros i; simpl;
    [reflexivity|]. now rewrite H, IH.
Qed.

Lemma map_urls_all (l : list (option VideoData)) :
  Forall (fun x => x <> None) l ->
  map_urls l
  = inr (map (fun x => match x with Some v => v_url v | None => "" end) l).
Proof.
  induction 1 as [|x l Hx Hl IH]; [reflexivity|].
  destruct x as [v|]; [|congruence]. simpl. now rewrite IH.
Qed.

Lemma map_urls_null (l : list (option VideoData)) :
  In None l -> map_urls l = inl TypeError.
Proof.
  induction l as [|x l IH]; intros H; [destruct H|].
  destruct x as [v|]; [|reflexivity].
  destruct H as [H|H]; [discriminate|]. simpl. now rewrite IH.
Qed.

Lemma attempt_video (w : Workflow) (route : VideoRoutes.Route)
      (lg : LoadingGeneration) (data : Data) :
  Network.video_route w = Some route ->
  Js.truthy_flag (ContentGrid.success data) = true ->
  attempt w lg (Resolved data)
  = match map_videos data with
    | inl e => inl e
    | inr urls =>
        inr (Videos {| vg_id := lg_id lg;
                       vg_prompt := lg_prompt lg;
                       vg_videos := urls;
                       vg_timestamp := lg_timestamp lg;
                       vg_isLoading := false;
                       vg_sourceImage := Network.source_image w |})
    end.
Proof.
  destruct w as [[|] ?| |]; cbn [Network.video_route]; intros Hr Hs;
    try discriminate; simpl;
    unfold handleNewGeneration_try, handleImageToVideo_try; rewrite Hs;
    reflexivity.
Qed.

(** What the component reads of the videos of a finished operation. *)
Lemma videos_read (env : VideoRoutes.Env) (key : string)
      (op : VideoRoutes.Operation) (gvs : list VideoRoutes.GeneratedVideo) :
  VideoRoutes.generatedVideos op = Some gvs ->
  map (option_map (fun v => {| v_url := VideoRoutes.url v |}))
      (VideoRoutes.collect_videos env key op)
  = map (fun gv =>
           match VideoRoutes.video_uri gv with
           | Some u => if Js.truthy u
                       then Some {| v_url := u ^^ "&key=" ^^ key |}
                       else None
           | None => None
           end) gvs.
Proof.
  intros H. unfold VideoRoutes.collect_videos, Js.mapi. rewrite H.
  apply map_mapi_from. intros gv k.
  destruct (VideoRoutes.video_uri gv) as [u|]; [|reflexivity].
  destruct (Js.truthy u); reflexivity.
Qed.

Lemma video_round_trip_done (srv : Network.Servers) (w : Workflow)
      (route : VideoRoutes.Route) (now_id now_ts : Z) (s : State)
      (op0 op : VideoRoutes.Operation) (n : nat)
      (gvs : list VideoRoutes.GeneratedVideo) :
  Network.video_route w = Some route ->
  Network.callable w s -> Network.video_key_there srv s ->
  (forall call,
      VideoRoutes.generateVideos (Network.videos_env srv) call = inr op0) ->
  n <= VideoRoutes.maxAttempts ->
  (forall i, i < n ->
             VideoRoutesSpec.pending_after (Network.videos_env srv) op0 i) ->
  VideoRoutesSpec.done_after (Network.videos_env srv) op0 n op ->
  VideoRoutes.generatedVideos op = Some gvs ->
  let read :=
    map (fun gv =>
           match VideoRoutes.video_uri gv with
           | Some u => if Js.truthy u
                       then Some {| v_url := u ^^ "&key="
                                             ^^ Network.video_key srv s |}
                       else None
           | None => None
           end) gvs in
  let lg := eval (start w now_id now_ts) s in
  exists data,
    Network.serve srv (Network.request_of w s) = Some (Resolved data) /\
    Js.truthy_flag (ContentGrid.success data) = true /\
    ContentGrid.videos data = Some read /\
    Network.round_trip srv w now_id now_ts s
    = Some (exec (settle w lg (Resolved data)) (exec (start w now_id now_ts) s)) /\
    attempt w lg (Resolved data)
    = match map_urls read with
      | inl e => inl e
      | inr urls =>
          inr (Videos {| vg_id := lg_id lg;
                         vg_prompt := lg_prompt lg;
                         vg_videos := urls;
                         vg_timestamp := lg_timestamp lg;
                         vg_isLoading := false;
                         vg_sourceImage := Network.source_image w |})
      end.
Proof.
  intros Hr Hc Hk Hgen Hn Hpend [Hop Hdone] Hgv read lg.
  destruct (video_accepted srv w s route Hr Hc Hk) as (Hacc & Hkey).
  destruct (video_POST_left route (Network.videos_env srv)
              (Network.video_body w s) op0 op n
              Hacc (Hgen _) Hn Hpend Hop (or_introl Hdone)) as (t & HP).
  rewrite Hdone in HP. cbn [negb] in HP. rewrite Hkey in HP.
  assert (Hserve : Network.serve srv (Network.request_of w s)
                   = Some (Resolved
                             {| ContentGrid.success := Some true;
                                ContentGrid.images := None;
                                ContentGrid.videos := Some read;
                                ContentGrid.error := None;
                                ContentGrid.enhancedPrompt := None |})).
  { rewrite (serve_video srv w s route Hr), HP. cbn [option_map fst].
    unfold Network.videos_answer.
    cbn [VideoRoutes.body VideoRoutes.success VideoRoutes.videos
         VideoRoutes.error option_map].
    rewrite (videos_read _ _ _ _ Hgv). reflexivity. }
  eexists. split; [exact Hserve|]. split; [reflexivity|].
  split; [reflexivity|]. split.
  - rewrite round_trip_unfold, Hserve. reflexivity.
  - rewrite (attempt_video w route lg _ Hr) by reflexivity. reflexivity.
Qed.

(** X8. When the handle of a video workflow reports done within sixty
    status checks and every video of its result has a uri, the loading
    record gives way to a video record whose urls are, in order, those
    uris each followed by ["&key="] and the key the route used: the key
    stored in the browser when there is one, the key of the server
    otherwise. *)
Theorem video_urls_carry_key (srv : Network.Servers) (w : Workflow)
        (route : VideoRoutes.Route) (now_id now_ts : Z) (s : State)
        (op0 op : VideoRoutes.Operation) (n : nat)
        (gvs : list VideoRoutes.GeneratedVideo) :
  Network.video_route w = Some route ->
  Network.callable w s -> Network.video_key_there srv s ->
  (forall call,
      VideoRoutes.generateVideos (Network.videos_env srv) call = inr op0) ->
  n <= VideoRoutes.maxAttempts ->
  (forall i, i < n ->
             VideoRoutesSpec.pending_after (Network.videos_env srv) op0 i) ->
  VideoRoutesSpec.done_after (Network.videos_env srv) op0 n op ->
  VideoRoutes.generatedVideos op = Some gvs ->
  Forall (fun gv => Js.truthy_opt (VideoRoutes.video_uri gv) = true) gvs ->
  exists s',
    Network.round_trip srv w now_id now_ts s = Some s' /\
    hd_error (generations s')
    = Some (Videos
              {| vg_id := id_prefix w ^^ Js.show_Z now_id;
                 vg_prompt := lg_prompt (eval (start w now_id now_ts) s);
                 vg_videos :=
                   map (fun gv => Js.or_else (VideoRoutes.video_uri gv) ""
                                  ^^ "&key=" ^^ Network.video_key srv s) gvs;
                 vg_timestamp := now_ts;
                 vg_isLoading := false;
                 vg_sourceImage := Network.source_image w |}) /\
    length (generations s') = S (length (generations s)) /\
    Network.video_key srv s
    = (if Js.truthy_opt (gemini_api_key s)
       then Js.or_else (gemini_api_key s) ""
       else Js.or_else
              (VideoRoutes.GOOGLE_AI_API_KEY (Network.videos_env srv)) "").
Proof.
  intros Hr Hc Hk Hgen Hn Hpend Hdone Hgv Hall.
  destruct (video_round_trip_done srv w route now_id now_ts s op0 op n gvs
              Hr Hc Hk Hgen Hn Hpend Hdone Hgv)
    as (data & _ & _ & _ & Hrt & Hatt).
  rewrite Hrt. eexists. split; [reflexivity|].
  rewrite map_urls_all in Hatt.
  - rewrite (settle_success _ _ _ _ _ Hatt).
    destruct (start_generations w now_id now_ts s) as (Hg & Hid & Hts).
    rewrite Hg. unfold completeGeneration.
    cbn [map gen_id hd_error length]. rewrite String.eqb_refl, length_map.
    split; [|split; [reflexivity|]].
    + rewrite Hid, Hts, map_map. do 3 f_equal.
      apply map_ext_in. intros gv Hin.
      rewrite Forall_forall in Hall. specialize (Hall gv Hin).
      destruct (VideoRoutes.video_uri gv) as [u|]; [|discriminate].
      simpl in Hall. simpl. rewrite Hall. reflexivity.
    + unfold Network.video_key.
      destruct (Js.truthy_opt (gemini_api_key s)); reflexivity.
  - rewrite Forall_map. eapply Forall_impl; [|exact Hall].
    intros gv H. cbv beta in H |- *.
    destruct (VideoRoutes.video_uri gv) as [u|]; [|discriminate].
    simpl in H. rewrite H. discriminate.
Qed.

Lemma video_urls_carry_key_witness :
  exists s',
    Network.round_trip
      {| Network.images_env := GenerateImagesSpec.none_of_four;
         Network.videos_env := VideoRoutesSpec.done_at_third;
         Network.improve_env := Screens.four_improved |}
      (NewGeneration TVideo "a city skyline") 7 7 (mounted 0 0 None)
    = Some s' /\
    option_map gen_id (hd_error (generations s')) = Some "loading-7" /\
    match hd_error (generations s') with
    | Some (Videos g) => vg_videos g
    | _ => []
    end
    = ["https://v/1?alt=media&key=env-key"; "https://v/2?alt=media&key=env-key"].
Proof.
  destruct (video_urls_carry_key
              {| Network.images_env := GenerateImagesSpec.none_of_four;
                 Network.videos_env := VideoRoutesSpec.done_at_third;
                 Network.improve_env := Screens.four_improved |}
              (NewGeneration TVideo "a city skyline")
              VideoRoutes.GenerateVideos 7 7 (mounted 0 0 None)
              VideoRoutesSpec.pending VideoRoutesSpec.finished 3
              [ {| VideoRoutes.video_uri := Some "https://v/1?alt=media" |};
                {| VideoRoutes.video_uri := Some "https://v/2?alt=media" |} ])
    as (s' & Hr & Hh & _).
  - reflexivity.
  - reflexivity.
  - reflexivity.
  - reflexivity.
  - unfold VideoRoutes.maxAttempts. lia.
  - intros i Hi. exists VideoRoutesSpec.pending.
    destruct i as [|[|[|i]]]; try lia; split; reflexivity.
  - split; reflexivity.
  - reflexivity.
  - repeat constructor.
  - exists s'. rewrite Hh. split; [exact Hr|]. split; reflexivity.
Defined.

(** X9. When the handle of a video workflow reports done but one of the
    videos of its result has no uri, the route still answers 200 with
    [success: true], holding [null] in the place of that video; the
    handler then fails on it, removes the loading record and completes
    nothing, whatever the other videos are. *)
Theorem video_without_uri_fails (srv : Network.Servers) (w : Workflow)
        (route : VideoRoutes.Route) (now_id now_ts : Z) (s : State)
        (op0 op : VideoRoutes.Operation) (n : nat)
        (gvs : list VideoRoutes.GeneratedVideo) :
  Network.video_route w = Some route ->
  Network.callable w s -> Network.video_key_there srv s ->
  (forall call,
      VideoRoutes.generateVideos (Network.videos_env srv) call = inr op0) ->
  n <= VideoRoutes.maxAttempts ->
  (forall i, i < n ->
             VideoRoutesSpec.pending_after (Network.videos_env srv) op0 i) ->
  VideoRoutesSpec.done_after (Network.videos_env srv) op0 n op ->
  VideoRoutes.generatedVideos op = Some gvs ->
  Exists (fun gv => Js.truthy_opt (VideoRoutes.video_uri gv) = false) gvs ->
  exists data s',
    Network.serve srv (Network.request_of w s) = Some (Resolved data) /\
    Js.truthy_flag (ContentGrid.success data) = true /\
    (exists vids, ContentGrid.videos data = Some vids /\ In None vids /\
                  length vids = length gvs) /\
    Network.round_trip srv w now_id now_ts s = Some s' /\
    generations s'
    = Notions.others (id_prefix w ^^ Js.show_Z now_id) (generations s).
Proof.
  intros Hr Hc Hk Hgen Hn Hpend Hdone Hgv Hex.
  destruct (video_round_trip_done srv w route now_id now_ts s op0 op n gvs
              Hr Hc Hk Hgen Hn Hpend Hdone Hgv)
    as (data & Hserve & Hs & Hv & Hrt & Hatt).
  assert (Hnull : In None
                    (map (fun gv =>
                            match VideoRoutes.video_uri gv with
                            | Some u =>
                                if Js.truthy u
                                then Some {| v_url := u ^^ "&key="
                                                      ^^ Network.video_key srv s |}
                                else None
                            | None => None
                            end) gvs)).
  { apply Exists_exists in Hex as (gv & Hin & Hu).
    apply in_map_iff. exists gv. split; [|exact Hin].
    destruct (VideoRoutes.video_uri gv) as [u|]; [|reflexivity].
    simpl in Hu. now rewrite Hu. }
  exists data. eexists. split; [exact Hserve|]. split; [exact Hs|].
  split; [|split; [exact Hrt|]].
  - eexists. split; [exact Hv|]. split; [exact Hnull|]. apply length_map.
  - rewrite (map_urls_null _ Hnull) in Hatt.
    rewrite (settle_failure _ _ _ _ _ Hatt). apply fail_after_start.
Qed.

Lemma video_without_uri_fails_witness :
  exists s',
    Network.round_trip
      {| Network.images_env := GenerateImagesSpec.none_of_four;
         Network.videos_env := Screens.one_without_uri;
         Network.improve_env := Screens.four_improved |}
      (NewGeneration TVideo "a city skyline") 7 7 (mounted 0 0 (Some "key"))
    = Some s' /\
    generations s' = createSampleGenerations 0 0.
Proof.
  destruct (video_without_uri_fails
              {| Network.images_env := GenerateImagesSpec.none_of_four;
                 Network.videos_env := Screens.one_without_uri;
                 Network.improve_env := Screens.four_improved |}
              (NewGeneration TVideo "a city skyline")
              VideoRoutes.GenerateVideos 7 7 (mounted 0 0 (Some "key"))
              Screens.half_finished Screens.half_finished 0
              [ {| VideoRoutes.video_uri := Some "https://v/1?alt=media" |};
                {| VideoRoutes.video_uri := None |} ])
    as (data & s' & _ & _ & _ & Hr & Hg).
  - reflexivity.
  - reflexivity.
  - reflexivity.
  - reflexivity.
  - apply Nat.le_0_l.
  - intros i Hi. lia.
  - split; reflexivity.
  - reflexivity.
  - apply Exists_cons_tl, Exists_cons_hd. reflexivity.
  - exists s'. rewrite Hg. split; [exact Hr|reflexivity].
Defined.

(* ------------------------------------------------------------------ *)
(** ** Generated images in the grid *)

Lemma settle_rest (w : Workflow) (lg : LoadingGeneration) (r : FetchResult)
      (s : State) :
  let s' := exec (settle w lg r) s in
  ContentGrid.fetches s' = ContentGrid.fetches s /\
  focusedView s' = focusedView s /\
  improveImageModal s' = improveImageModal s /\
  gemini_api_key s' = gemini_api_key s.
Proof.
  destruct w; simpl;
    unfold handleNewGeneration_settle, handleImageToVideo_settle,
           handleImproveImage_settle;
    match goal with
    | |- context [match ?x with _ => _ end] => destruct x
    end;
    first [ apply catch_block_rest | simpl; auto ].
Qed.

Lemma first_part_truthy (parts : list GenerateImages.Part) (bytes mime : string) :
  GenerateImages.first_part parts = Some (bytes, mime) -> Js.truthy bytes = true.
Proof.
  induction parts as [|part parts IH]; simpl; [discriminate|].
  destruct (GenerateImages.inlineData part) as [d|]; [|exact IH].
  destruct (GenerateImages.data d) as [b|]; [|exact IH].
  destruct (Js.truthy b) eqn:E; [|exact IH].
  intros H. injection H as <- _. exact E.
Qed.

Lemma first_image_truthy (cands : list GenerateImages.Candidate)
      (bytes mime : string) :
  GenerateImages.first_image cands = Some (bytes, mime) -> Js.truthy bytes = true.
Proof.
  induction cands as [|c cands IH]; simpl; [discriminate|].
  destruct (GenerateImages.content_parts c) as [parts|]; [|exact IH].
  destruct (GenerateImages.first_part parts) as [[b m]|] eqn:E; [|exact IH].
  intros H. injection H as <- _. now apply first_part_truthy in E.
Qed.

Lemma imagePromise_bytes (env : GenerateImages.Env) (prompt : string)
      (imageBytes : option string) (index : nat) (img : GenerateImages.Image) :
  GenerateImages.imagePromise env prompt imageBytes index = Some img ->
  Js.truthy (GenerateImages.image_imageBytes img) = true.
Proof.
  unfold GenerateImages.imagePromise.
  destruct (GenerateImages.generateContent env index _) as [e|response];
    [discriminate|].
  destruct (GenerateImages.first_image _) as [[b m]|] eqn:E; [|discriminate].
  intros H. injection H as <-. simpl. now apply first_image_truthy in E.
Qed.

(** X10. An image workflow with a prompt and a key is answered with
    at most four images, and when it resumes with that answer, whatever
    has happened to the timeline since it began, its completed record,
    under the prompt asked for, stands wherever its loading record
    stood.  Each of its images kept its bytes, so that in the grid its
    "Animate" button is enabled and a click on it begins an
    image-to-video workflow: a loading record at the head of the
    timeline, labelled with the prompt followed by
    [" - animated video"] and with the image as source, and a request
    to the image-to-video route with that label, the bytes of the image
    and the key stored at the time of the click. *)
Theorem generated_images_can_be_animated (srv : Network.Servers)
        (prompt : string) (now_id now_ts : Z) (s s1 : State) :
  Js.truthy prompt = true -> Network.image_key_there srv s ->
  let w := NewGeneration TImage prompt in
  let lg := eval (start w now_id now_ts) s in
  In (Loading lg) (generations s1) ->
  exists answer g,
    Network.serve srv (Network.request_of w s) = Some answer /\
    let s' := exec (settle w lg answer) s1 in
    generations s'
    = completeGeneration (lg_id lg) (Images g) (generations s1) /\
    In (Images g) (generations s') /\
    ig_id g = "loading-" ^^ Js.show_Z now_id /\
    ig_prompt g = prompt /\
    length (ig_images g) <= 4 /\
    forall k img,
      nth_error (ig_images g) k = Some img ->
      exists bytes,
        ContentGrid.imageBytes img = Some bytes /\ Js.truthy bytes = true /\
        ImageGrid.animate_disabled None img k = false /\
        forall now_id' now_ts',
          let s'' := exec (App.convertToVideo g img k now_id' now_ts') s' in
          ContentGrid.fetches s''
          = ContentGrid.fetches s'
            ++ [PostImageToVideo (prompt ^^ " - animated video") bytes
                                 (gemini_api_key s1)] /\
          generations s''
          = Loading {| lg_id := "video-loading-" ^^ Js.show_Z now_id';
                       lg_prompt := prompt ^^ " - animated video";
                       lg_type := TVideo;
                       lg_timestamp := now_ts';
                       lg_sourceImage := Some (ContentGrid.url img) |}
            :: generations s'.
Proof.
  intros Hp Hk w lg Hin.
  set (req := {| GenerateImages.prompt := Some prompt;
                 GenerateImages.apiKey := gemini_api_key s;
                 GenerateImages.imageBytes := None |}).
  assert (HP := POST_launched (Network.images_env srv) req
                  (conj Hp Hk)).
  unfold req in HP at 2 3 4.
  cbn [GenerateImages.prompt GenerateImages.imageBytes Js.or_else] in HP.
  rewrite Hp in HP.
  set (route_images :=
         Js.filter_Boolean
           (map (GenerateImages.imagePromise (Network.images_env srv)
                   prompt None) (seq 0 4))) in *.
  set (items :=
         map (fun img => {| ContentGrid.url := d_url img;
                            ContentGrid.imageBytes := d_imageBytes img;
                            isSample := None |})
             (map (fun img =>
                     {| d_url := GenerateImages.url img;
                        d_imageBytes :=
                          Some (GenerateImages.image_imageBytes img) |})
                  route_images)).
  set (g := {| ig_id := lg_id lg; ig_prompt := lg_prompt lg;
               ig_images := items; ig_timestamp := lg_timestamp lg;
               ig_isLoading := false |}).
  set (answer := App.images_answer
                   (GenerateImages.POST (Network.images_env srv) (inr req))).
  assert (Hserve : Network.serve srv (Network.request_of w s) = Some answer)
    by reflexivity.
  assert (Hatt : attempt w lg answer = inr (Images g)).
  { unfold answer. rewrite HP. reflexivity. }
  destruct (start_generations w now_id now_ts s) as (_ & Hid & _).
  fold lg in Hid.
  destruct (settle_rest w lg answer s1) as (_ & _ & _ & Hkey).
  exists answer, g. split; [exact Hserve|]. cbv zeta.
  set (s' := exec (settle w lg answer) s1) in *.
  assert (Hgs : generations s'
                = completeGeneration (lg_id lg) (Images g) (generations s1))
    by (unfold s'; now rewrite (settle_success _ _ _ _ _ Hatt)).
  split; [exact Hgs|]. split.
  { rewrite Hgs. unfold completeGeneration. apply in_map_iff.
    exists (Loading lg). split; [|exact Hin].
    cbn [gen_id]. now rewrite String.eqb_refl. }
  split; [exact Hid|]. split; [reflexivity|].
  split.
  { cbn [ig_images g]. unfold items. rewrite !length_map. unfold route_images.
    rewrite filter_Boolean_length.
    etransitivity; [apply filter_length_le|]. now rewrite length_seq. }
  intros k img Hnth. apply nth_error_In in Hnth.
  cbn [ig_images g] in Hnth. unfold items in Hnth.
  rewrite map_map in Hnth. apply in_map_iff in Hnth as (ri & <- & Hri).
  unfold route_images in Hri.
  apply filter_Boolean_In in Hri as (i & _ & Hi).
  apply imagePromise_bytes in Hi.
  exists (GenerateImages.image_imageBytes ri).
  split; [reflexivity|]. split; [exact Hi|]. split.
  { unfold ImageGrid.animate_disabled. cbn. now rewrite Hi. }
  intros now_id' now_ts'. cbv zeta.
  unfold App.convertToVideo, ImageGrid.handleConvertToVideo.
  cbn [ContentGrid.imageBytes ContentGrid.isSample d_imageBytes d_url
       ContentGrid.url Js.truthy_opt Js.truthy_flag negb orb Js.or_else].
  rewrite Hi. cbn [negb orb].
  rewrite <- Hkey. split; reflexivity.
Qed.

Lemma generated_images_can_be_animated_witness :
  let s := mounted 0 0 (Some "key") in
  let s1 := exec (start (NewGeneration TVideo "a city skyline") 8 8)
                 (exec (start (NewGeneration TImage "a red fox") 7 7) s) in
  exists answer g,
    Network.serve
      {| Network.images_env := GenerateImagesSpec.two_of_four;
         Network.videos_env := VideoRoutesSpec.done_at_third;
         Network.improve_env := Screens.four_improved |}
      (Network.request_of (NewGeneration TImage "a red fox") s)
    = Some answer /\
    In (Images g)
       (generations
          (exec (settle (NewGeneration TImage "a red fox")
                        RedFox.fox_loading answer) s1)) /\
    ig_prompt g = "a red fox" /\
    length (ig_images g) <= 4.
Proof.
  intros s s1.
  destruct (generated_images_can_be_animated
              {| Network.images_env := GenerateImagesSpec.two_of_four;
                 Network.videos_env := VideoRoutesSpec.done_at_third;
                 Network.improve_env := Screens.four_improved |}
              "a red fox" 7 7 s s1)
    as (answer & g & Hs & _ & Hin & _ & Hp & Hl & _).
  - reflexivity.
  - reflexivity.
  - right. left. reflexivity.
  - exists answer, g. auto.
Defined.

(* ------------------------------------------------------------------ *)
(** ** The improve route and the image it is sent *)

Lemma improve_POST_bytes (env : ImproveImage.Env) (o i : option string)
      (b1 b2 : string) (key : option string) :
  Js.truthy b1 = true -> Js.truthy b2 = true ->
  ImproveImage.POST env
    (inr {| ImproveImage.originalPrompt := o;
            ImproveImage.improvementPrompt := i;
            ImproveImage.imageBytes := Some b1;
            ImproveImage.apiKey := key |})
  = ImproveImage.POST env
      (inr {| ImproveImage.originalPrompt := o;
              ImproveImage.improvementPrompt := i;
              ImproveImage.imageBytes := Some b2;
              ImproveImage.apiKey := key |}).
Proof.
  intros H1 H2. unfold ImproveImage.POST.
  cbn [ImproveImage.originalPrompt ImproveImage.improvementPrompt
       ImproveImage.imageBytes ImproveImage.apiKey Js.truthy_opt].
  rewrite H1, H2. reflexivity.
Qed.

(** X11. The improve route insists on image data but makes no use of
    it: two improve workflows begun with the same text from dialogs
    that differ only in the bytes of their image, both non-empty, are
    given the same answer by the route and leave the same timeline. *)
Theorem improve_ignores_image (srv : Network.Servers)
        (improvementPrompt bytes : string) (now_id now_ts : Z) (s : State) :
  Js.truthy (im_imageBytes (improveImageModal s)) = true ->
  Js.truthy bytes = true ->
  let w := ImproveImage improvementPrompt in
  let t := Network.with_image_bytes bytes s in
  Network.serve srv (Network.request_of w t)
  = Network.serve srv (Network.request_of w s) /\
  option_map generations (Network.round_trip srv w now_id now_ts t)
  = option_map generations (Network.round_trip srv w now_id now_ts s).
Proof.
  intros H1 H2 w t.
  assert (Hserve : Network.serve srv (Network.request_of w t)
                   = Network.serve srv (Network.request_of w s)).
  { cbn [Network.request_of w Network.serve]. do 2 f_equal.
    apply improve_POST_bytes; assumption. }
  split; [exact Hserve|].
  rewrite !round_trip_unfold, Hserve.
  destruct (Network.serve srv (Network.request_of w s)) as [answer|];
    [|reflexivity].
  cbn [option_map]. f_equal. rewrite !settle_generations.
  destruct (start_generations w now_id now_ts s) as (Hs & _).
  destruct (start_generations w now_id now_ts t) as (Ht & _).
  rewrite Hs, Ht. reflexivity.
Qed.

Lemma improve_ignores_image_witness :
  option_map generations
    (Network.round_trip
       {| Network.images_env := GenerateImagesSpec.two_of_four;
          Network.videos_env := VideoRoutesSpec.done_at_third;
          Network.improve_env := Screens.four_improved |}
       (ImproveImage "sharper fur") 7 7
       (Network.with_image_bytes "ZZZZ" Screens.fox_dialog))
  = option_map generations
      (Network.round_trip
         {| Network.images_env := GenerateImagesSpec.two_of_four;
            Network.videos_env := VideoRoutesSpec.done_at_third;
            Network.improve_env := Screens.four_improved |}
         (ImproveImage "sharper fur") 7 7 Screens.fox_dialog).
Proof.
  apply (improve_ignores_image
           {| Network.images_env := GenerateImagesSpec.two_of_four;
              Network.videos_env := VideoRoutesSpec.done_at_third;
              Network.improve_env := Screens.four_improved |}
           "sharper fur" "ZZZZ" 7 7 Screens.fox_dialog); reflexivity.
Defined.

(* ------------------------------------------------------------------ *)
(** ** Going through the viewer *)

Lemma viewer_effects_frame (now_id now_ts : Z)
      (es : list FocusedMediaView.Effect) (s : State) :
  (forall u b p, ~ In (FocusedMediaView.OnImageToVideo u b p) es) ->
  let s' := exec (App.viewer_effects now_id now_ts es) s in
  generations s' = generations s /\
  ContentGrid.fetches s' = ContentGrid.fetches s /\
  mediaItems (focusedView s') = mediaItems (focusedView s) /\
  initialIndex (focusedView s') = initialIndex (focusedView s) /\
  gemini_api_key s' = gemini_api_key s.
Proof.
  revert s. induction es as [|e es IH]; intros s Hno; [simpl; auto|].
  assert (Hes : forall u b p, ~ In (FocusedMediaView.OnImageToVideo u b p) es)
    by (intros u b p H; apply (Hno u b p); now right).
  destruct e as [|u b p|u b p|i|h f].
  - destruct (IH (exec (App.viewer_effect now_id now_ts FocusedMediaView.OnClose) s) Hes)
      as (H1 & H2 & H3 & H4 & H5).
    change (exec (App.viewer_effects now_id now_ts (FocusedMediaView.OnClose :: es)) s)
      with (exec (App.viewer_effects now_id now_ts es)
                 (exec (App.viewer_effect now_id now_ts FocusedMediaView.OnClose) s)).
    cbv zeta. rewrite H1, H2, H3, H4, H5. simpl. auto.
  - destruct (IH (exec (App.viewer_effect now_id now_ts
                          (FocusedMediaView.OnImageImprove u b p)) s) Hes)
      as (H1 & H2 & H3 & H4 & H5).
    change (exec (App.viewer_effects now_id now_ts
                    (FocusedMediaView.OnImageImprove u b p :: es)) s)
      with (exec (App.viewer_effects now_id now_ts es)
                 (exec (App.viewer_effect now_id now_ts
                          (FocusedMediaView.OnImageImprove u b p)) s)).
    cbv zeta. rewrite H1, H2, H3, H4, H5. simpl. auto.
  - exfalso. apply (Hno u b p). now left.
  - apply (IH s Hes).
  - apply (IH s Hes).
Qed.

Lemma handle_index_in_range (props : FocusedMediaView.Props) (cur : Z)
      (a : FocusedMediaView.Action) :
  (0 <= cur < Z.of_nat (length (FocusedMediaView.mediaItems props)))%Z ->
  Viewer.offered (FocusedMediaView.mediaItems props) a ->
  (0 <= Viewer.index_after cur (FocusedMediaView.handle props cur a)
   < Z.of_nat (length (FocusedMediaView.mediaItems props)))%Z.
Proof.
  intros Hc Ho.
  unfold FocusedMediaView.handle, FocusedMediaView.handleDownload,
         FocusedMediaView.last_index.
  destruct a; simpl in Ho;
    repeat match goal with
           | |- context [match ?x with _ => _ end] => destruct x
           end;
    unfold Viewer.index_after; simpl; lia.
Qed.

Lemma browse_invariant (now_id now_ts : Z)
      (actions : list FocusedMediaView.Action) (st : State * Z) :
  (0 <= snd st < Z.of_nat (length (mediaItems (focusedView (fst st)))))%Z ->
  Forall (Viewer.offered (mediaItems (focusedView (fst st)))) actions ->
  let st' := Viewer.browse now_id now_ts st actions in
  generations (fst st') = generations (fst st) /\
  ContentGrid.fetches (fst st') = ContentGrid.fetches (fst st) /\
  mediaItems (focusedView (fst st')) = mediaItems (focusedView (fst st)) /\
  initialIndex (focusedView (fst st')) = initialIndex (focusedView (fst st)) /\
  gemini_api_key (fst st') = gemini_api_key (fst st) /\
  (0 <= snd st' < Z.of_nat (length (mediaItems (focusedView (fst st)))))%Z.
Proof.
  revert st. induction actions as [|a actions IH]; intros st Hc Ho;
    [simpl; auto 10|].
  inversion Ho as [|? ? Ha Hrest]; subst.
  destruct (viewer_effects_frame now_id now_ts
              (FocusedMediaView.handle (App.viewer_props (fst st)) (snd st) a)
              (fst st)
              (fun u b p => viewer_never_converts _ _ _ u b p))
    as (H1 & H2 & H3 & H4 & H5).
  pose proof (handle_index_in_range (App.viewer_props (fst st)) (snd st) a Hc Ha)
    as Hi.
  cbn [App.viewer_props FocusedMediaView.mediaItems] in Hi.
  specialize (IH (Viewer.act now_id now_ts st a)).
  assert (A1 : generations (fst (Viewer.act now_id now_ts st a))
               = generations (fst st)) by exact H1.
  assert (A2 : ContentGrid.fetches (fst (Viewer.act now_id now_ts st a))
               = ContentGrid.fetches (fst st)) by exact H2.
  assert (A3 : mediaItems (focusedView (fst (Viewer.act now_id now_ts st a)))
               = mediaItems (focusedView (fst st))) by exact H3.
  assert (A4 : initialIndex (focusedView (fst (Viewer.act now_id now_ts st a)))
               = initialIndex (focusedView (fst st))) by exact H4.
  assert (A5 : gemini_api_key (fst (Viewer.act now_id now_ts st a))
               = gemini_api_key (fst st)) by exact H5.
  rewrite A1, A2, A3, A4, A5 in IH. specialize (IH Hi Hrest).
  change (Viewer.browse now_id now_ts st (a :: actions))
    with (Viewer.browse now_id now_ts (Viewer.act now_id now_ts st a) actions).
  exact IH.
Qed.

(** X12. From an index within the list the viewer holds, whatever
    the user does in the viewer (keys, wheel, buttons of either layout,
    thumbnails of the film strip) the index stays within that list and
    there is a current item, one of the list; the list itself and the
    timeline are left as they are, no request is sent and the stored
    key is not touched. *)
Theorem viewer_browsing_stays_in_range (s : State) (cur : Z)
        (now_id now_ts : Z) (actions : list FocusedMediaView.Action) :
  (0 <= cur < Z.of_nat (length (mediaItems (focusedView s))))%Z ->
  Forall (Viewer.offered (mediaItems (focusedView s))) actions ->
  let st := Viewer.browse now_id now_ts (s, cur) actions in
  (0 <= snd st < Z.of_nat (length (mediaItems (focusedView s))))%Z /\
  (exists item,
      FocusedMediaView.currentItem (App.viewer_props (fst st)) (snd st)
      = Some item /\
      In item (mediaItems (focusedView s))) /\
  mediaItems (focusedView (fst st)) = mediaItems (focusedView s) /\
  generations (fst st) = generations s /\
  ContentGrid.fetches (fst st) = ContentGrid.fetches s /\
  gemini_api_key (fst st) = gemini_api_key s.
Proof.
  intros Hc Ho st.
  destruct (browse_invariant now_id now_ts actions (s, cur) Hc Ho)
    as (I1 & I2 & I3 & I4 & I5 & I6).
  fold st in I1, I2, I3, I4, I5, I6. cbn [fst snd] in *.
  split; [exact I6|]. split; [|auto].
  unfold FocusedMediaView.currentItem.
  cbn [App.viewer_props FocusedMediaView.mediaItems]. rewrite I3.
  destruct (snd st <? 0)%Z eqn:E; [apply Z.ltb_lt in E; lia|].
  destruct (nth_error (mediaItems (focusedView s)) (Z.to_nat (snd st)))
    as [item|] eqn:En.
  - exists item. split; [reflexivity|]. now apply nth_error_In in En.
  - apply nth_error_None in En. lia.
Qed.

Lemma viewer_browsing_stays_in_range_witness :
  let s := exec (openFocusedView "loading-7" 2)
                (Timelines.state_of [RedFox.fox_completed]) in
  let st :=
    Viewer.browse 9 9 (s, 2%Z)
      [ FocusedMediaView.KeyDown "ArrowRight";
        FocusedMediaView.KeyDown "ArrowRight";
        FocusedMediaView.WheelNavigate true;
        FocusedMediaView.ClickThumbnail FocusedMediaView.Mobile 1;
        FocusedMediaView.ClickPrevious FocusedMediaView.Desktop;
        FocusedMediaView.ClickPrevious FocusedMediaView.Desktop;
        FocusedMediaView.ClickImprove FocusedMediaView.Desktop;
        FocusedMediaView.KeyDown "ArrowLeft" ] in
  (0 <= snd st < 4)%Z /\ generations (fst st) = [RedFox.fox_completed].
Proof.
  destruct (viewer_browsing_stays_in_range
              (exec (openFocusedView "loading-7" 2)
                    (Timelines.state_of [RedFox.fox_completed]))
              2 9 9
              [ FocusedMediaView.KeyDown "ArrowRight";
                FocusedMediaView.KeyDown "ArrowRight";
                FocusedMediaView.WheelNavigate true;
                FocusedMediaView.ClickThumbnail FocusedMediaView.Mobile 1;
                FocusedMediaView.ClickPrevious FocusedMediaView.Desktop;
                FocusedMediaView.ClickPrevious FocusedMediaView.Desktop;
                FocusedMediaView.ClickImprove FocusedMediaView.Desktop;
                FocusedMediaView.KeyDown "ArrowLeft" ])
    as (Hr & _ & _ & Hg & _).
  - simpl. lia.
  - repeat constructor.
  - split; [exact Hr | exact Hg].
Defined.

(* ------------------------------------------------------------------ *)
(** ** The lightbox *)

Lemma goToNext_mod (n i : Z) :
  (0 <= i < n)%Z -> LightboxModal.goToNext n i = ((i + 1) mod n)%Z.
Proof.
  intros H. unfold LightboxModal.goToNext.
  destruct (i <? n - 1)%Z eqn:E.
  - apply Z.ltb_lt in E. rewrite Z.mod_small; lia.
  - apply Z.ltb_ge in E. replace (i + 1)%Z with n by lia.
    now rewrite Z.mod_same by lia.
Qed.

Lemma goToPrevious_mod (n i : Z) :
  (0 <= i < n)%Z -> LightboxModal.goToPrevious n i = ((i - 1) mod n)%Z.
Proof.
  intros H. unfold LightboxModal.goToPrevious.
  destruct (i >? 0)%Z eqn:E.
  - apply Z.gtb_lt in E. rewrite Z.mod_small; lia.
  - assert (i = 0)%Z as -> by (rewrite Z.gtb_ltb in E; apply Z.ltb_ge in E; lia).
    replace (0 - 1)%Z with (n - 1 + (-1) * n)%Z by lia.
    rewrite Z.mod_add by lia. rewrite Z.mod_small; lia.
Qed.

Lemma after_keys_snoc (n i : Z) (keys : list string) (key : string) :
  LightboxModal.after_keys n i (keys ++ [key])
  = LightboxModal.index_after n (LightboxModal.after_keys n i keys)
      (LightboxModal.handleKeyDown true key).
Proof. unfold LightboxModal.after_keys. now rewrite fold_left_app. Qed.

Lemma repeat_snoc {A : Type} (x : A) (k : nat) :
  repeat x (S k) = repeat x k ++ [x].
Proof. induction k as [|k IH]; [reflexivity|]. simpl in *. now rewrite <- IH. Qed.

Lemma after_keys_in_range (n i : Z) (keys : list string) :
  (0 <= i < n)%Z -> (0 <= LightboxModal.after_keys n i keys < n)%Z.
Proof.
  revert i. induction keys as [|key keys IH]; intros i H; [exact H|].
  change (LightboxModal.after_keys n i (key :: keys))
    with (LightboxModal.after_keys n
            (LightboxModal.index_after n i (LightboxModal.handleKeyDown true key))
            keys).
  apply IH. unfold LightboxModal.handleKeyDown. cbn [negb].
  destruct (key =? "Escape")%string; [exact H|].
  destruct (key =? "ArrowLeft")%string;
    [cbn; rewrite goToPrevious_mod by exact H; apply Z.mod_pos_bound; lia|].
  destruct (key =? "ArrowRight")%string;
    [cbn; rewrite goToNext_mod by exact H; apply Z.mod_pos_bound; lia|].
  exact H.
Qed.

(** X13. In the open lightbox the arrow keys go round the items: from
    an index within the list, [k] presses of ArrowRight lead to
    [(i + k) mod n] and [k] presses of ArrowLeft to [(i - k) mod n],
    so that as many presses as there are items lead back to where one
    was and each arrow undoes the other; whatever keys are pressed,
    the index stays within the list. *)
Theorem lightbox_arrows_go_round (n i : Z) (k : nat) (keys : list string) :
  (0 <= i < n)%Z ->
  LightboxModal.after_keys n i (repeat "ArrowRight" k)
  = ((i + Z.of_nat k) mod n)%Z /\
  LightboxModal.after_keys n i (repeat "ArrowLeft" k)
  = ((i - Z.of_nat k) mod n)%Z /\
  LightboxModal.after_keys n i (repeat "ArrowRight" (Z.to_nat n)) = i /\
  LightboxModal.after_keys n i (repeat "ArrowLeft" (Z.to_nat n)) = i /\
  LightboxModal.after_keys n i ["ArrowRight"; "ArrowLeft"] = i /\
  LightboxModal.after_keys n i ["ArrowLeft"; "ArrowRight"] = i /\
  (0 <= LightboxModal.after_keys n i keys < n)%Z.
Proof.
  intros H.
  assert (Hr : forall k, LightboxModal.after_keys n i (repeat "ArrowRight" k)
                         = ((i + Z.of_nat k) mod n)%Z).
  { clear k. induction k as [|k IH].
    - simpl. rewrite Z.add_0_r, Z.mod_small; lia.
    - rewrite repeat_snoc, after_keys_snoc, IH. cbn.
      rewrite goToNext_mod by (apply Z.mod_pos_bound; lia).
      rewrite Z.add_mod_idemp_l by lia. f_equal. lia. }
  assert (Hl : forall k, LightboxModal.after_keys n i (repeat "ArrowLeft" k)
                         = ((i - Z.of_nat k) mod n)%Z).
  { clear k. induction k as [|k IH].
    - simpl. rewrite Z.sub_0_r, Z.mod_small; lia.
    - rewrite repeat_snoc, after_keys_snoc, IH. cbn.
      rewrite goToPrevious_mod by (apply Z.mod_pos_bound; lia).
      rewrite Zminus_mod_idemp_l. f_equal. lia. }
  split; [apply Hr|]. split; [apply Hl|]. split; [|split; [|split; [|split]]].
  - rewrite Hr, Z2Nat.id by lia.
    replace (i + n)%Z with (i + 1 * n)%Z by lia.
    rewrite Z.mod_add by lia. apply Z.mod_small; lia.
  - rewrite Hl, Z2Nat.id by lia.
    replace (i - n)%Z with (i + (-1) * n)%Z by lia.
    rewrite Z.mod_add by lia. apply Z.mod_small; lia.
  - cbn. rewrite (goToNext_mod n i H).
    rewrite goToPrevious_mod by (apply Z.mod_pos_bound; lia).
    rewrite Zminus_mod_idemp_l. replace (i + 1 - 1)%Z with i by lia.
    apply Z.mod_small; lia.
  - cbn. rewrite (goToPrevious_mod n i H).
    rewrite goToNext_mod by (apply Z.mod_pos_bound; lia).
    rewrite Z.add_mod_idemp_l by lia. replace (i - 1 + 1)%Z with i by lia.
    apply Z.mod_small; lia.
  - now apply after_keys_in_range.
Qed.

Lemma lightbox_arrows_go_round_witness :
  LightboxModal.after_keys 4 3 (repeat "ArrowRight" 6) = 1%Z /\
  LightboxModal.after_keys 4 3 (repeat "ArrowLeft" 6) = 1%Z.
Proof.
  destruct (lightbox_arrows_go_round 4 3 6 [] ltac:(lia)) as (Hr & Hl & _).
  split; [exact Hr | exact Hl].
Defined.

(* ------------------------------------------------------------------ *)
(** ** The age shown under a generation *)

(** X14. The age a grid shows for a generation is the time elapsed
    since its timestamp, rounded down to whole minutes below an hour,
    to whole hours below a day and to whole days from then on, the
    number shown never being 0; below a minute, and for a timestamp
    in the future, it is "Just now". *)
Theorem formatTimeAgo_rounds_down (now date : Z) :
  let elapsed := (now - date)%Z in
  let minute := 60000%Z in
  let hour := 3600000%Z in
  let day := 86400000%Z in
  ((elapsed < minute)%Z -> Grids.formatTimeAgo now date = "Just now") /\
  ((minute <= elapsed < hour)%Z ->
   exists n, Grids.formatTimeAgo now date = Js.show_Z n ^^ "m ago" /\
             (1 <= n <= 59)%Z /\
             (n * minute <= elapsed < (n + 1) * minute)%Z) /\
  ((hour <= elapsed < day)%Z ->
   exists n, Grids.formatTimeAgo now date = Js.show_Z n ^^ "h ago" /\
             (1 <= n <= 23)%Z /\
             (n * hour <= elapsed < (n + 1) * hour)%Z) /\
  ((day <= elapsed)%Z ->
   exists n, Grids.formatTimeAgo now date = Js.show_Z n ^^ "d ago" /\
             (1 <= n)%Z /\
             (n * day <= elapsed < (n + 1) * day)%Z).
Proof.
  cbv zeta. unfold Grids.formatTimeAgo.
  change (1000 * 60)%Z with 60000%Z.
  set (e := (now - date)%Z).
  pose proof (Z.div_mod e 60000 ltac:(lia)) as Em.
  pose proof (Z.mod_pos_bound e 60000 ltac:(lia)) as Bm.
  pose proof (Z.div_mod (e / 60000) 60 ltac:(lia)) as Eh.
  pose proof (Z.mod_pos_bound (e / 60000) 60 ltac:(lia)) as Bh.
  pose proof (Z.div_mod (e / 60000 / 60) 24 ltac:(lia)) as Ed.
  pose proof (Z.mod_pos_bound (e / 60000 / 60) 24 ltac:(lia)) as Bd.
  split; [|split; [|split]]; intros H.
  - destruct (e / 60000 <? 1)%Z eqn:E1; [reflexivity|].
    apply Z.ltb_ge in E1. lia.
  - destruct (e / 60000 <? 1)%Z eqn:E1; [apply Z.ltb_lt in E1; lia|].
    destruct (e / 60000 <? 60)%Z eqn:E2; [|apply Z.ltb_ge in E2; lia].
    apply Z.ltb_ge in E1. apply Z.ltb_lt in E2.
    exists (e / 60000)%Z. split; [reflexivity|]. lia.
  - destruct (e / 60000 <? 1)%Z eqn:E1; [apply Z.ltb_lt in E1; lia|].
    destruct (e / 60000 <? 60)%Z eqn:E2; [apply Z.ltb_lt in E2; lia|].
    destruct (e / 60000 / 60 <? 24)%Z eqn:E3; [|apply Z.ltb_ge in E3; lia].
    apply Z.ltb_lt in E3.
    exists (e / 60000 / 60)%Z. split; [reflexivity|]. lia.
  - destruct (e / 60000 <? 1)%Z eqn:E1; [apply Z.ltb_lt in E1; lia|].
    destruct (e / 60000 <? 60)%Z eqn:E2; [apply Z.ltb_lt in E2; lia|].
    destruct (e / 60000 / 60 <? 24)%Z eqn:E3; [apply Z.ltb_lt in E3; lia|].
    exists (e / 60000 / 60 / 24)%Z. split; [reflexivity|]. lia.
Qed.

Lemma formatTimeAgo_rounds_down_witness :
  Grids.formatTimeAgo 11000000 0 = "3h ago".
Proof.
  destruct (proj1 (proj2 (proj2 (formatTimeAgo_rounds_down 11000000 0))))
    as (n & Hlabel & _ & Hn); [lia|].
  assert (n = 3)%Z as -> by lia. exact Hlabel.
Defined.

(* ------------------------------------------------------------------ *)
(** ** From a tile of the grid to the viewer *)

Lemma currentItem_of_nat (props : FocusedMediaView.Props) (k : nat) :
  FocusedMediaView.currentItem props (Z.of_nat k)
  = nth_error (FocusedMediaView.mediaItems props) k.
Proof.
  unfold FocusedMediaView.currentItem.
  destruct (Z.of_nat k <? 0)%Z eqn:E; [apply Z.ltb_lt in E; lia|].
  now rewrite Nat2Z.id.
Qed.

(** X15. In a session whose clock does not go back and gives each
    handler a different reading for each of its ids, a click on a tile
    of the grid opens the viewer with the flattened timeline and with
    the index of the very image or video of that tile, leaving the
    timeline as it is and sending no request.  The viewer then shows
    that item whenever this index is another one than it was last
    given, or it still stands on it; when it is given the index it was
    given before, it stays where the user left it. *)
Theorem tile_opens_viewer_on_itself (now1 now2 : Z) (key : option string)
        (events : list Event) (g : Generation) (i : nat) (m : MediaItem)
        (cur : Z) :
  (now2 - 1000 * 60 * 5 <= now1 - 1000 * 60 * 2)%Z ->
  Spec.resumes_started [] (mounted now1 now2 key) events ->
  NoDup (Spec.id_clock_readings events) ->
  StronglySorted Z.le ((now1 - 1000 * 60 * 2)%Z :: Spec.timestamp_readings events) ->
  let s := run events (mounted now1 now2 key) in
  In g (generations s) -> nth_error (items_of g) i = Some m ->
  let st := Tiles.click_tile (s, cur) g i in
  let k := initialIndex (focusedView (fst st)) in
  isOpen (focusedView (fst st)) = true /\
  mediaItems (focusedView (fst st)) = getAllMediaItems (generations s) /\
  nth_error (getAllMediaItems (generations s)) k = Some m /\
  (k <> initialIndex (focusedView s) \/ cur = Z.of_nat k ->
   FocusedMediaView.currentItem (App.viewer_props (fst st)) (snd st) = Some m) /\
  (k = initialIndex (focusedView s) -> snd st = cur) /\
  generations (fst st) = generations s /\
  ContentGrid.fetches (fst st) = ContentGrid.fetches s.
Proof.
  intros Hsamples Hres Hclk Hts s Hin Hm st k.
  assert (Hl : isLoading g = false).
  { destruct (isLoading g) eqn:E; [|reflexivity].
    unfold items_of in Hm. rewrite E in Hm. destruct i; discriminate. }
  assert (Hs' : fst st = exec (openFocusedView (gen_id g) i) s).
  { unfold st, Tiles.click_tile, Tiles.viewFullscreen. cbn [fst].
    rewrite Hl. reflexivity. }
  destruct (openFocusedView_spec (gen_id g) i s) as (Hv & Hg & Hf).
  rewrite <- Hs' in Hv, Hg, Hf.
  assert (Hk : k = locateGlobalIndex (generations s) (gen_id g) i)
    by (unfold k; now rewrite Hv).
  assert (Hnth : nth_error (getAllMediaItems (generations s)) k = Some m)
    by (rewrite Hk; now apply (session_locate_exact now1 now2 key events)).
  assert (Hcell : snd st = Viewer.follow s (fst st) cur) by reflexivity.
  unfold Viewer.follow in Hcell. fold k in Hcell.
  split; [now rewrite Hv|]. split; [now rewrite Hv|]. split; [exact Hnth|].
  split; [|split; [|split; assumption]].
  - intros Hcase. rewrite Hcell.
    destruct (k =? initialIndex (focusedView s))%nat eqn:E.
    + apply Nat.eqb_eq in E. destruct Hcase as [Hne|Hcur]; [congruence|].
      rewrite Hcur, currentItem_of_nat.
      cbn [App.viewer_props FocusedMediaView.mediaItems]. now rewrite Hv.
    + rewrite currentItem_of_nat.
      cbn [App.viewer_props FocusedMediaView.mediaItems]. now rewrite Hv.
  - intros E. rewrite Hcell. apply Nat.eqb_eq in E. now rewrite E.
Qed.

Lemma tile_opens_viewer_on_itself_witness :
  let s := run [ Start Sessions.fox 7 7;
                 Settle Sessions.fox RedFox.fox_loading RedFox.four_images ]
               (mounted 0 0 None) in
  let st := Tiles.click_tile (s, Viewer.mounted_index) RedFox.fox_completed 2 in
  option_map m_id
    (FocusedMediaView.currentItem (App.viewer_props (fst st)) (snd st))
  = Some "loading-7-img-2".
Proof.
  destruct (nth_error (items_of RedFox.fox_completed) 2) as [m|] eqn:Hm;
    [|vm_compute in Hm; discriminate].
  destruct (tile_opens_viewer_on_itself 0 0 None
              [ Start Sessions.fox 7 7;
                Settle Sessions.fox RedFox.fox_loading RedFox.four_images ]
              RedFox.fox_completed 2 m Viewer.mounted_index)
    as (_ & _ & _ & Hc & _).
  - lia.
  - simpl. split; [left; reflexivity | exact I].
  - repeat constructor. intros [].
  - repeat constructor; lia.
  - left. reflexivity.
  - exact Hm.
  - cbv zeta. rewrite Hc.
    + vm_compute in Hm. injection Hm as <-. reflexivity.
    + left. vm_compute. discriminate.
Defined.

(* ------------------------------------------------------------------ *)
(** ** From the viewer to the improve route *)

Lemma exec_bind {A B : Type} (c : M A) (k : A -> M B) (s : State) :
  exec (bind c k) s = exec (k (eval c s)) (exec c s).
Proof. unfold exec, eval, bind. now destruct (c s). Qed.

(** X16. In the viewer open on an image that kept its bytes, a click
    on "Improve Image" (either layout) closes the viewer and opens the
    improve dialog on that image, leaving the timeline as it is.  A
    blank text submitted in the dialog does nothing.  Any other text
    begins one improve workflow: a loading record labelled with the
    prompt of the image, [" - improved: "] and the trimmed text, and one
    request carrying the prompt of the image, the trimmed text, the
    bytes of the image and the stored key; once the request is answered
    the timeline is what the workflow leaves and the dialog is closed. *)
Theorem improve_from_viewer (trim : string -> string) (s : State) (cur : Z)
        (item : MediaItem) (bytes text : string)
        (layout : FocusedMediaView.Layout) (n0 t0 now_id now_ts : Z) :
  isOpen (focusedView s) = true ->
  FocusedMediaView.currentItem (App.viewer_props s) cur = Some item ->
  m_type item = TImage ->
  m_imageBytes item = Some bytes -> Js.truthy bytes = true ->
  Js.truthy (trim text) = true ->
  let s1 := fst (Viewer.act n0 t0 (s, cur) (FocusedMediaView.ClickImprove layout)) in
  let s2 := exec (Page.improve_start trim text now_id now_ts) s1 in
  let lg := {| lg_id := "improve-loading-" ^^ Js.show_Z now_id;
               lg_prompt := m_prompt item ^^ " - improved: " ^^ trim text;
               lg_type := TImage;
               lg_timestamp := now_ts;
               lg_sourceImage := None |} in
  (isOpen (focusedView s1) = false /\
   improveImageModal s1 = {| im_isOpen := true;
                             im_imageUrl := m_url item;
                             im_imageBytes := bytes;
                             im_originalPrompt := m_prompt item |} /\
   generations s1 = generations s /\
   ContentGrid.fetches s1 = ContentGrid.fetches s) /\
  (forall blank n t,
      Js.truthy (trim blank) = false ->
      Page.improve_start trim blank n t s1 = (None, s1)) /\
  (eval (Page.improve_start trim text now_id now_ts) s1 = Some lg /\
   generations s2 = Loading lg :: generations s /\
   ContentGrid.fetches s2
   = ContentGrid.fetches s
     ++ [PostImproveImage (m_prompt item) (trim text) bytes (gemini_api_key s)]) /\
  (forall r n t,
      let s3 := exec (Page.improve_resume lg r n t) s2 in
      generations s3
      = generations (exec (settle (ImproveImage (trim text)) lg r) s2) /\
      im_isOpen (improveImageModal s3) = false /\
      ContentGrid.fetches s3 = ContentGrid.fetches s2).
Proof.
  intros Ho Hc Ht Hb Hbt Htext.
  assert (Heff : FocusedMediaView.handle (App.viewer_props s) cur
                   (FocusedMediaView.ClickImprove layout)
                 = [FocusedMediaView.OnImageImprove (m_url item) bytes
                                                    (m_prompt item);
                    FocusedMediaView.OnClose]).
  { unfold FocusedMediaView.handle. rewrite Hc.
    cbn [App.viewer_props FocusedMediaView.isOpen]. rewrite Ho. cbn [negb].
    unfold FocusedMediaView.improve_rendered.
    cbn [App.viewer_props FocusedMediaView.onImageImprove].
    rewrite Ht, Hb. cbn [Js.truthy_opt andb Js.or_else]. now rewrite Hbt. }
  unfold Viewer.act. cbn [fst snd]. rewrite Heff. cbv zeta.
  set (s1 := exec (App.viewer_effects n0 t0 _) s).
  assert (H1 : isOpen (focusedView s1) = false /\
               improveImageModal s1 = {| im_isOpen := true;
                                         im_imageUrl := m_url item;
                                         im_imageBytes := bytes;
                                         im_originalPrompt := m_prompt item |} /\
               generations s1 = generations s /\
               ContentGrid.fetches s1 = ContentGrid.fetches s /\
               gemini_api_key s1 = gemini_api_key s)
    by (repeat split).
  destruct H1 as (A1 & A2 & A3 & A4 & A5).
  split; [auto|]. split; [|split].
  - intros blank n t Hblank. unfold Page.improve_start,
      ImproveModal.handleImprove_start. now rewrite Hblank.
  - unfold Page.improve_start, ImproveModal.handleImprove_start.
    rewrite Htext. cbn [negb]. unfold eval, exec.
    cbn [Page.modal_effects Page.modal_effect bind ret fst snd
         handleImproveImage_start localStorage_getItem_gemini_api_key
         getImproveImageModal setGenerations fetch beginGeneration
         generations ContentGrid.fetches].
    rewrite A2, A3, A4, A5. cbn [im_originalPrompt im_imageBytes].
    repeat split.
  - intros r n t. cbv zeta. unfold Page.improve_resume,
      ImproveModal.handleImprove_resume.
    set (s2 := exec (Page.improve_start trim text now_id now_ts) s1).
    cbn [settle].
    destruct (settle_rest (ImproveImage (trim text))
                {| lg_id := "improve-loading-" ^^ Js.show_Z now_id;
                   lg_prompt := m_prompt item ^^ " - improved: " ^^ trim text;
                   lg_type := TImage;
                   lg_timestamp := now_ts;
                   lg_sourceImage := None |} r s2) as (F & _).
    cbn [settle] in F. rewrite exec_bind.
    set (sx := exec (handleImproveImage_settle _ r) s2) in *.
    split; [reflexivity|]. split; [reflexivity|exact F].
Qed.

Lemma improve_from_viewer_witness :
  let s1 := fst (Viewer.act 0 0 (Screens.viewing_generated, 0%Z)
                   (FocusedMediaView.ClickImprove FocusedMediaView.Desktop)) in
  ContentGrid.fetches
    (exec (Page.improve_start Text.trim_ascii "  sharper fur " 9 9) s1)
  = [PostImproveImage "p" "sharper fur" "b" (Some "key")].
Proof.
  destruct (improve_from_viewer Text.trim_ascii Screens.viewing_generated 0
              Timelines.item_b "b" "  sharper fur "
              FocusedMediaView.Desktop 0 0 9 9)
    as (_ & _ & (_ & _ & Hf) & _); [reflexivity..|].
  exact Hf.
Defined.

(* ------------------------------------------------------------------ *)
(** ** The status of the answers *)

Lemma video_status (route : VideoRoutes.Route) (env : VideoRoutes.Env)
      (req : VideoRoutes.RequestBody) :
  VideoRoutes.invalid route req = None ->
  exists n,
    option_map (fun a => VideoRoutes.status (fst a))
               (VideoRoutes.POST route env (inr req)) = Some n /\
    (n = 200 \/ n = 401 \/ n = 408 \/ n = 500) /\
    (Js.truthy_opt (VideoRoutes.apiKey req) = true -> n <> 401).
Proof.
  intros Hv.
  destruct (Js.truthy_opt (VideoRoutes.apiKey req)
            || Js.truthy_opt (VideoRoutes.GOOGLE_AI_API_KEY env)) eqn:Ek.
  - rewrite (POST_accepted route env req (conj Hv Ek)).
    destruct (VideoRoutes.generateVideos env (VideoRoutes.model_call route req))
      as [e|op0].
    + exists 500. cbn. split; [reflexivity|]. split; [auto|discriminate].
    + pose proof (poll_total env (S VideoRoutes.maxAttempts)
                    {| VideoRoutes.operation := op0;
                       VideoRoutes.attempts := 0;
                       VideoRoutes.trace := [] |}) as Ht.
      destruct (VideoRoutes.poll env (S VideoRoutes.maxAttempts) _)
        as [[[e st]|st]|].
      * exists 500. cbn. split; [reflexivity|]. split; [auto|discriminate].
      * destruct (negb (Js.truthy_flag
                          (VideoRoutes.done (VideoRoutes.operation st)))).
        { exists 408. cbn. split; [reflexivity|]. split; [auto|discriminate]. }
        { exists 200. cbn. split; [reflexivity|]. split; [auto|discriminate]. }
      * exfalso. apply Ht; [cbn [VideoRoutes.attempts]; lia | reflexivity].
  - apply orb_false_iff in Ek as [Ea Ee].
    rewrite (video_POST_no_key route env req Hv Ea Ee).
    exists 401. cbn. split; [reflexivity|]. split; [auto|].
    intros H. congruence.
Qed.

Lemma status_callable (srv : Network.Servers) (w : Workflow) (s : State) :
  Network.callable w s ->
  exists n,
    Network.status srv (Network.request_of w s) = Some n /\
    (n = 200 \/ n = 401 \/ n = 408 \/ n = 500) /\
    (Js.truthy_opt (gemini_api_key s) = true -> n <> 401).
Proof.
  intros Hc.
  destruct w as [[|] prompt|url bytes prompt|improvement];
    cbn [Network.callable] in Hc;
    cbn [Network.request_of Network.status].
  - unfold GenerateImages.POST.
    cbn [GenerateImages.prompt GenerateImages.apiKey Js.truthy_opt].
    rewrite Hc. cbn [negb]. fold (Js.truthy_opt (gemini_api_key s)).
    destruct (Js.truthy_opt (gemini_api_key s)) eqn:Ek.
    + rewrite Ek. cbn [negb GenerateImages.status]. eexists.
      split; [reflexivity|]. split; [auto|discriminate].
    + destruct (Js.truthy_opt
                  (GenerateImages.GOOGLE_AI_API_KEY (Network.images_env srv)));
        cbn [negb GenerateImages.status GenerateImages.error_response];
        eexists; (split; [reflexivity|]); (split; [auto|discriminate]).
  - apply video_status. cbn. now rewrite Hc.
  - apply video_status. cbn.
    rewrite (truthy_append_r prompt " - animated video" eq_refl), Hc.
    reflexivity.
  - destruct Hc as (Hi & Ho & Hb). unfold ImproveImage.POST.
    cbn [ImproveImage.originalPrompt ImproveImage.improvementPrompt
         ImproveImage.imageBytes ImproveImage.apiKey Js.truthy_opt].
    rewrite Hi, Ho, Hb. cbn [negb orb].
    fold (Js.truthy_opt (gemini_api_key s)).
    destruct (Js.truthy_opt (gemini_api_key s)) eqn:Ek.
    + rewrite Ek. cbn [negb].
      destruct (ImproveImage.generateImages _ _);
        cbn [ImproveImage.status]; eexists;
        (split; [reflexivity|]); (split; [auto|discriminate]).
    + destruct (Js.truthy_opt
                  (ImproveImage.GOOGLE_AI_API_KEY (Network.improve_env srv)));
        cbn [negb].
      * destruct (ImproveImage.generateImages _ _);
          cbn [ImproveImage.status]; eexists;
          (split; [reflexivity|]); (split; [auto|discriminate]).
      * cbn [ImproveImage.status ImproveImage.error_response]. eexists.
        split; [reflexivity|]. split; [auto|discriminate].
Qed.

(* ------------------------------------------------------------------ *)
(** ** The prompt bar and the API-key dialog *)

(** X17. Saving a text that is not blank in the API-key dialog stores
    the trimmed text as the key, closes the dialog and makes every
    settings instance that hears of it show that key, leaving the
    timeline as it is; from then on a workflow whose arguments its
    route accepts is sent with that key and is answered neither 400 nor
    401, whatever key the server has.  Saving a blank text does
    nothing. *)
Theorem saved_key_is_used (trim : string -> string) (srv : Network.Servers)
        (w : Workflow) (text : string) (s : State) :
  Js.truthy (trim text) = true -> Network.callable w s ->
  let s' := exec (Page.saveKey trim text) s in
  gemini_api_key s' = Some (trim text) /\
  showApiKeyDialog s' = false /\
  generations s' = generations s /\
  ContentGrid.fetches s' = ContentGrid.fetches s /\
  (forall x,
      SettingsDropdown.apiKey
        (snd (SettingsDropdown.act trim x (SettingsDropdown.DialogSaved text)))
      = trim text) /\
  (forall now_id now_ts,
      ContentGrid.fetches (exec (start w now_id now_ts) s')
      = ContentGrid.fetches s
        ++ [Network.request_of w (Network.with_key (Some (trim text)) s)]) /\
  (exists n, Network.status srv (Network.request_of w s') = Some n /\
             (n = 200 \/ n = 408 \/ n = 500)) /\
  (forall blank, Js.truthy (trim blank) = false ->
                 Page.saveKey trim blank s = (tt, s)).
Proof.
  intros Ht Hc s'.
  assert (Hs' : s' = exec (setShowApiKeyDialog false)
                          (Network.with_key (Some (trim text)) s)).
  { unfold s', Page.saveKey, ApiKeyDialog.handleSave. rewrite Ht. reflexivity. }
  split; [now rewrite Hs'|]. split; [now rewrite Hs'|].
  split; [now rewrite Hs'|]. split; [now rewrite Hs'|].
  split; [|split; [|split]].
  - intros x. unfold SettingsDropdown.act, ApiKeyDialog.handleSave.
    rewrite Ht. cbn. now rewrite Ht.
  - intros now_id now_ts. rewrite start_request, Hs'.
    destruct w as [[|] ?| |]; reflexivity.
  - destruct (status_callable srv w s') as (n & Hn & Hcases & Hkey).
    + rewrite Hs'. destruct w as [[|] ?| |]; exact Hc.
    + exists n. split; [exact Hn|].
      assert (n <> 401) by (apply Hkey; rewrite Hs'; exact Ht).
      intuition congruence.
  - intros blank Hb. unfold Page.saveKey, ApiKeyDialog.handleSave.
    now rewrite Hb.
Qed.

Lemma saved_key_is_used_witness :
  gemini_api_key
    (exec (Page.saveKey Text.trim_ascii " AIza-123 ") (mounted 0 0 None))
  = Some "AIza-123".
Proof.
  apply (saved_key_is_used Text.trim_ascii
           {| Network.images_env := GenerateImagesSpec.two_of_four;
              Network.videos_env := VideoRoutesSpec.done_at_third;
              Network.improve_env := Screens.four_improved |}
           (NewGeneration TImage "a red fox") " AIza-123 " (mounted 0 0 None));
    reflexivity.
Defined.

(** X18. Asking the prompt bar for an image or a video of a blank
    text does nothing.  For any other text it begins exactly the
    workflow of the trimmed text: one loading record at the head of
    the timeline and one request, to which the route does not answer
    400, the prompt it receives being never empty; Enter without Shift
    asks for an image. *)
Theorem prompt_bar_sends_trimmed_prompt (trim : string -> string)
        (srv : Network.Servers) (text : string) (type : MediaType)
        (now_id now_ts : Z) (s : State) :
  (Js.truthy (trim text) = false ->
   Page.generate trim text type now_id now_ts s = (tt, s)) /\
  (Js.truthy (trim text) = true ->
   let w := NewGeneration type (trim text) in
   let s' := exec (Page.generate trim text type now_id now_ts) s in
   s' = exec (start w now_id now_ts) s /\
   generations s'
   = Loading {| lg_id := "loading-" ^^ Js.show_Z now_id;
                lg_prompt := trim text;
                lg_type := type;
                lg_timestamp := now_ts;
                lg_sourceImage := None |} :: generations s /\
   ContentGrid.fetches s'
   = ContentGrid.fetches s ++ [Network.request_of w s] /\
   exists n, Network.status srv (Network.request_of w s) = Some n /\
             (n = 200 \/ n = 401 \/ n = 408 \/ n = 500)) /\
  PromptBar.handleKeyDown trim true text "Enter" false
  = PromptBar.handleGenerate trim true text TImage /\
  PromptBar.handleKeyDown trim true text "Enter" true = [].
Proof.
  split; [|split; [|split; reflexivity]].
  - intros Hb. unfold Page.generate, PromptBar.handleGenerate.
    now rewrite Hb.
  - intros Ht w s'.
    assert (Hs' : s' = exec (start w now_id now_ts) s).
    { unfold s', Page.generate, PromptBar.handleGenerate. rewrite Ht.
      reflexivity. }
    split; [exact Hs'|]. rewrite Hs'.
    split; [reflexivity|]. split; [apply start_request|].
    destruct (status_callable srv w s Ht) as (n & Hn & Hcases & _).
    exists n. auto.
Qed.

Lemma prompt_bar_sends_trimmed_prompt_witness :
  ContentGrid.fetches
    (exec (Page.generate Text.trim_ascii "  a red fox " TImage 7 7)
          (mounted 0 0 (Some "key")))
  = [PostGenerateImages "a red fox" (Some "key")].
Proof.
  destruct (proj1 (proj2 (prompt_bar_sends_trimmed_prompt Text.trim_ascii
              {| Network.images_env := GenerateImagesSpec.two_of_four;
                 Network.videos_env := VideoRoutesSpec.done_at_third;
                 Network.improve_env := Screens.four_improved |}
              "  a red fox " TImage 7 7 (mounted 0 0 (Some "key"))))
              eq_refl)
    as (_ & _ & Hf & _).
  exact Hf.
Defined.

(* ------------------------------------------------------------------ *)
(** ** The settings *)

(** X19. Whatever the user does in an instance of the settings (typing
    in the key box, clearing the key, toggling dark mode) and whatever
    the API-key dialog saves in between, the key box and the dark-mode
    switch of the instance show what an instance mounted afresh on the
    storage would show: the settings survive a reload as they are. *)
Theorem settings_survive_reload (trim : string -> string)
        (st : SettingsDropdown.Storage)
        (actions : list SettingsDropdown.Action) :
  let x := fold_left (SettingsDropdown.act trim) actions
                     (st, SettingsDropdown.mount st) in
  SettingsDropdown.apiKey (snd x)
  = SettingsDropdown.apiKey (SettingsDropdown.mount (fst x)) /\
  SettingsDropdown.darkMode (snd x)
  = SettingsDropdown.darkMode (SettingsDropdown.mount (fst x)).
Proof.
  cbv zeta.
  assert (Hinv : forall actions x,
             (SettingsDropdown.apiKey (snd x)
              = SettingsDropdown.apiKey (SettingsDropdown.mount (fst x)) /\
              SettingsDropdown.darkMode (snd x)
              = SettingsDropdown.darkMode (SettingsDropdown.mount (fst x))) ->
             let y := fold_left (SettingsDropdown.act trim) actions x in
             SettingsDropdown.apiKey (snd y)
             = SettingsDropdown.apiKey (SettingsDropdown.mount (fst y)) /\
             SettingsDropdown.darkMode (snd y)
             = SettingsDropdown.darkMode (SettingsDropdown.mount (fst y))).
  { clear. induction actions as [|a actions IH]; intros x Hx; [exact Hx|].
    apply IH. destruct x as [[k d] c]. destruct Hx as [Hk Hd].
    unfold SettingsDropdown.mount, SettingsDropdown.loadApiKey in *.
    cbn [fst snd SettingsDropdown.gemini_api_key
         SettingsDropdown.openjourney_dark_mode] in *.
    destruct a as [value|checked| |apiKey];
      cbn [SettingsDropdown.act SettingsDropdown.handleApiKeyChange
           SettingsDropdown.handleDarkModeToggle
           SettingsDropdown.handleClearApiKey fst snd
           SettingsDropdown.gemini_api_key
           SettingsDropdown.openjourney_dark_mode].
    - split.
      + destruct d; cbn; destruct value; reflexivity.
      + destruct d; cbn in *; exact Hd.
    - split.
      + destruct d; cbn in *; exact Hk.
      + destruct checked; reflexivity.
    - split.
      + destruct d; reflexivity.
      + destruct d; cbn in *; exact Hd.
    - unfold ApiKeyDialog.handleSave.
      destruct (negb (Js.truthy (trim apiKey))).
      + cbn [fst snd SettingsDropdown.gemini_api_key
             SettingsDropdown.openjourney_dark_mode]. split; assumption.
      + cbn [fst snd SettingsDropdown.handleApiKeyUpdate
             SettingsDropdown.loadApiKey SettingsDropdown.gemini_api_key
             SettingsDropdown.openjourney_dark_mode
             SettingsDropdown.apiKey SettingsDropdown.darkMode].
        split.
        * destruct d; reflexivity.
        * destruct d; cbn in *; exact Hd. }
  apply Hinv. split; reflexivity.
Qed.

(* ------------------------------------------------------------------ *)
(** ** A stored key that is empty *)

Lemma video_POST_key (route : VideoRoutes.Route) (env : VideoRoutes.Env)
      (p b k1 k2 : option string) :
  Js.truthy_opt k1 = false -> Js.truthy_opt k2 = false ->
  VideoRoutes.POST route env
    (inr {| VideoRoutes.prompt := p; VideoRoutes.imageBytes := b;
            VideoRoutes.apiKey := k1 |})
  = VideoRoutes.POST route env
      (inr {| VideoRoutes.prompt := p; VideoRoutes.imageBytes := b;
              VideoRoutes.apiKey := k2 |}).
Proof.
  intros H1 H2. unfold VideoRoutes.POST, VideoRoutes.POST_with.
  destruct route;
    cbn [VideoRoutes.invalid VideoRoutes.model_call VideoRoutes.prompt
         VideoRoutes.imageBytes VideoRoutes.apiKey];
    rewrite H1, H2; reflexivity.
Qed.

Lemma serve_key (srv : Network.Servers) (w : Workflow) (k1 k2 : option string)
      (s : State) :
  Js.truthy_opt k1 = false -> Js.truthy_opt k2 = false ->
  Network.serve srv (Network.request_of w (Network.with_key k1 s))
  = Network.serve srv (Network.request_of w (Network.with_key k2 s)).
Proof.
  intros H1 H2.
  destruct w as [[|] prompt|url bytes prompt|improvement];
    cbn [Network.request_of Network.serve Network.with_key gemini_api_key
         improveImageModal].
  - unfold GenerateImages.POST.
    cbn [GenerateImages.prompt GenerateImages.apiKey GenerateImages.imageBytes].
    now rewrite H1, H2.
  - now rewrite (video_POST_key _ _ _ _ k1 k2 H1 H2).
  - now rewrite (video_POST_key _ _ _ _ k1 k2 H1 H2).
  - unfold ImproveImage.POST.
    cbn [ImproveImage.originalPrompt ImproveImage.improvementPrompt
         ImproveImage.imageBytes ImproveImage.apiKey].
    now rewrite H1, H2.
Qed.

Lemma settle_visible (w : Workflow) (lg : LoadingGeneration) (r : FetchResult)
      (s t : State) :
  Network.visible s = Network.visible t ->
  Network.visible (exec (settle w lg r) s)
  = Network.visible (exec (settle w lg r) t).
Proof.
  intros H. destruct s, t. unfold Network.visible in H.
  cbn [generations showApiKeyDialog alerts focusedView improveImageModal] in H.
  injection H as -> -> -> -> ->.
  destruct w; cbn [settle];
    unfold handleNewGeneration_settle, handleImageToVideo_settle,
           handleImproveImage_settle;
    match goal with
    | |- context [match ?x with _ => _ end] => destruct x
    end;
    try reflexivity;
    unfold catch_block, exec, bind; cbn;
    match goal with
    | |- context [Js.includes ?a ?b] => destruct (Js.includes a b)
    end; reflexivity.
Qed.

Lemma start_visible (w : Workflow) (now_id now_ts : Z) (k : option string)
      (s : State) :
  Network.visible (exec (start w now_id now_ts) (Network.with_key k s))
  = Network.visible (exec (start w now_id now_ts) s) /\
  eval (start w now_id now_ts) (Network.with_key k s)
  = eval (start w now_id now_ts) s.
Proof. destruct w as [[|] ?| |]; split; reflexivity. Qed.

(** X20. A stored key that is the empty string, as the key box of the
    settings leaves it once its text is deleted, counts as no key at
    all: every route answers a workflow as it does when nothing is
    stored (it falls back on the key of the server), and the workflow
    leaves the user with the same timeline, alerts and dialogs. *)
Theorem empty_key_is_no_key (trim : string -> string) (srv : Network.Servers)
        (w : Workflow) (now_id now_ts : Z) (s : State)
        (x : SettingsDropdown.Storage * SettingsDropdown.Cells) :
  SettingsDropdown.gemini_api_key
    (fst (SettingsDropdown.handleApiKeyChange trim "" x)) = Some "" /\
  Network.serve srv (Network.request_of w (Network.with_key (Some "") s))
  = Network.serve srv (Network.request_of w (Network.with_key None s)) /\
  option_map Network.visible
    (Network.round_trip srv w now_id now_ts (Network.with_key (Some "") s))
  = option_map Network.visible
      (Network.round_trip srv w now_id now_ts (Network.with_key None s)).
Proof.
  split; [reflexivity|].
  pose proof (serve_key srv w (Some "") None s eq_refl eq_refl) as Hs.
  split; [exact Hs|].
  rewrite !round_trip_unfold, Hs.
  destruct (Network.serve srv (Network.request_of w (Network.with_key None s)))
    as [answer|]; [|reflexivity].
  cbn [option_map]. f_equal.
  destruct (start_visible w now_id now_ts (Some "") s) as (V0 & E0).
  destruct (start_visible w now_id now_ts None s) as (V1 & E1).
  rewrite E0, E1. apply settle_visible. now rewrite V0, V1.
Qed.

(* ------------------------------------------------------------------ *)
(** ** The image-conditioned improve route *)

Lemma improve_v2_accepted (env : GenerateImages.Env) (o i bytes : string)
      (key : option string) :
  Js.truthy o = true -> Js.truthy i = true -> Js.truthy bytes = true ->
  (Js.truthy_opt key
   || Js.truthy_opt (GenerateImages.GOOGLE_AI_API_KEY env)) = true ->
  ImproveImageV2.POST env
    (inr {| ImproveImage.originalPrompt := Some o;
            ImproveImage.improvementPrompt := Some i;
            ImproveImage.imageBytes := Some bytes;
            ImproveImage.apiKey := key |})
  = {| ImproveImage.status := 200;
       ImproveImage.body :=
         {| ImproveImage.success := Some true;
            ImproveImage.images :=
              Some (Js.filter_Boolean
                      (map (ImproveImageV2.imagePromise env
                              (ImproveImageV2.compose i) bytes)
                           (seq 0 4)));
            ImproveImage.body_originalPrompt := Some o;
            ImproveImage.body_improvementPrompt := Some i;
            ImproveImage.enhancedPrompt := Some (ImproveImageV2.compose i);
            ImproveImage.error := None;
            ImproveImage.details := None |} |}.
Proof.
  intros Ho Hi Hb Hk. unfold ImproveImageV2.POST.
  cbn [ImproveImage.originalPrompt ImproveImage.improvementPrompt
       ImproveImage.imageBytes ImproveImage.apiKey Js.truthy_opt Js.or_else].
  rewrite Ho, Hi, Hb. cbn [negb orb].
  fold (Js.truthy_opt key).
  destruct (Js.truthy_opt key) eqn:Ek; cbn [orb] in Hk.
  - rewrite Ek. reflexivity.
  - rewrite Hk. reflexivity.
Qed.

(** X21. The image-conditioned version of the improve route insists
    on an original prompt but makes no use of it: each of its four
    calls sends the model the text ["Please improve this image by: "]
    followed by the improvement text, and the image.  So an improve
    workflow answered by this version ends, whatever the prompt of the
    image was, with a record of at most four images shown under that
    text, and the answer is the same for any other original prompt. *)
Theorem improve_v2_drops_original_prompt (env : GenerateImages.Env)
        (improvementPrompt : string) (now_id now_ts : Z) (s : State)
        (other : string) :
  Network.callable (ImproveImage improvementPrompt) s ->
  (Js.truthy_opt (gemini_api_key s)
   || Js.truthy_opt (GenerateImages.GOOGLE_AI_API_KEY env)) = true ->
  Js.truthy other = true ->
  let w := ImproveImage improvementPrompt in
  let lg := eval (start w now_id now_ts) s in
  let bytes := im_imageBytes (improveImageModal s) in
  let shown := "Please improve this image by: " ^^ improvementPrompt in
  let s' := exec (settle w lg (ImproveImageV2.answer env improvementPrompt s))
                 (exec (start w now_id now_ts) s) in
  (exists g,
      hd_error (generations s') = Some (Images g) /\
      ig_prompt g = shown /\
      length (ig_images g) <= 4 /\
      length (generations s') = S (length (generations s))) /\
  (forall index,
      ImproveImageV2.imagePromise env shown bytes index <> None ->
      exists response,
        GenerateImages.generateContent env index
          [GenerateImages.TextPart shown;
           GenerateImages.InlinePart "image/png" bytes] = inr response) /\
  ImproveImage.images
    (ImproveImage.body
       (ImproveImageV2.POST env
          (inr {| ImproveImage.originalPrompt := Some other;
                  ImproveImage.improvementPrompt := Some improvementPrompt;
                  ImproveImage.imageBytes := Some bytes;
                  ImproveImage.apiKey := gemini_api_key s |})))
  = ImproveImage.images
      (ImproveImage.body
         (ImproveImageV2.POST env
            (inr {| ImproveImage.originalPrompt :=
                      Some (im_originalPrompt (improveImageModal s));
                    ImproveImage.improvementPrompt := Some improvementPrompt;
                    ImproveImage.imageBytes := Some bytes;
                    ImproveImage.apiKey := gemini_api_key s |}))).
Proof.
  intros (Hi & Ho & Hb) Hk Hother w lg bytes shown s'.
  pose proof (improve_v2_accepted env _ _ _ (gemini_api_key s) Ho Hi Hb Hk)
    as HP.
  pose proof (improve_v2_accepted env other _ _ (gemini_api_key s)
                Hother Hi Hb Hk) as HP'.
  split; [|split].
  - set (imgs := map (fun img => {| ContentGrid.url := d_url img;
                                    ContentGrid.imageBytes := d_imageBytes img;
                                    isSample := None |})
                     (map (fun img =>
                             {| d_url := ImproveImage.url img;
                                d_imageBytes := Some (ImproveImage.image_bytes img) |})
                          (Js.filter_Boolean
                             (map (ImproveImageV2.imagePromise env shown bytes)
                                  (seq 0 4))))).
    set (g := {| ig_id := lg_id lg; ig_prompt := shown; ig_images := imgs;
                 ig_timestamp := lg_timestamp lg; ig_isLoading := false |}).
    assert (Hatt : attempt w lg (ImproveImageV2.answer env improvementPrompt s)
                   = inr (Images g)).
    { unfold ImproveImageV2.answer. rewrite HP. reflexivity. }
    destruct (start_generations w now_id now_ts s) as (Hg & _).
    fold lg in Hg.
    exists g. unfold s'. rewrite (settle_success _ _ _ _ _ Hatt), Hg.
    unfold completeGeneration. cbn [map gen_id hd_error length].
    rewrite String.eqb_refl, length_map.
    split; [reflexivity|]. split; [reflexivity|]. split; [|reflexivity].
    cbn [ig_images g]. unfold imgs. rewrite !length_map, filter_Boolean_length.
    etransitivity; [apply filter_length_le|]. now rewrite length_seq.
  - intros index Hsome. unfold ImproveImageV2.imagePromise in Hsome.
    fold (ImproveImageV2.parts shown bytes).
    destruct (GenerateImages.generateContent env index
                (ImproveImageV2.parts shown bytes)) as [e|response];
      [congruence|eauto].
  - unfold bytes. rewrite HP, HP'. reflexivity.
Qed.

Lemma improve_v2_drops_original_prompt_witness :
  let s' :=
    exec (settle (ImproveImage "sharper fur")
            (eval (start (ImproveImage "sharper fur") 7 7) Screens.fox_dialog)
            (ImproveImageV2.answer GenerateImagesSpec.two_of_four
                                   "sharper fur" Screens.fox_dialog))
         (exec (start (ImproveImage "sharper fur") 7 7) Screens.fox_dialog) in
  exists g,
    hd_error (generations s') = Some (Images g) /\
    ig_prompt g = "Please improve this image by: sharper fur".
Proof.
  destruct (improve_v2_drops_original_prompt GenerateImagesSpec.two_of_four
              "sharper fur" 7 7 Screens.fox_dialog "a dog")
    as ((g & Hh & Hp & _) & _).
  - repeat split.
  - reflexivity.
  - reflexivity.
  - exists g. split; [exact Hh | exact Hp].
Defined.

(* ------------------------------------------------------------------ *)
(** ** The image route on Imagen that reports the provider's error *)

Lemma message_or_default_truthy (e : Js.Thrown) (fallback : string) :
  Js.truthy fallback = true ->
  Js.truthy (Js.message_or_default e fallback) = true.
Proof.
  intros H. destruct e as [n m|]; [|exact H]. simpl.
  destruct (Js.truthy m) eqn:E; assumption.
Qed.

Lemma imagen_POST_accepted (env : ImproveImage.Env) (prompt : string)
      (key : option string) :
  Js.truthy prompt = true ->
  (Js.truthy_opt key
   || Js.truthy_opt (ImproveImage.GOOGLE_AI_API_KEY env)) = true ->
  GenerateImagesImagen.POST env
    (inr {| GenerateImages.prompt := Some prompt;
            GenerateImages.apiKey := key;
            GenerateImages.imageBytes := None |})
  = match ImproveImage.generateImages env
            {| ImproveImage.config_prompt := prompt;
               ImproveImage.numberOfImages := 4 |} with
    | inl err =>
        {| GenerateImages.status := 500;
           GenerateImages.body :=
             {| GenerateImages.success := Some false;
                GenerateImages.images := None;
                GenerateImages.body_prompt := None;
                GenerateImages.error :=
                  Some (Js.message_or_default err "Failed to generate images");
                GenerateImages.details :=
                  Some (Js.name_or_default err "Unknown error") |} |}
    | inr response =>
        {| GenerateImages.status := 200;
           GenerateImages.body :=
             {| GenerateImages.success := Some true;
                GenerateImages.images :=
                  Some (Js.filter_Boolean
                          (GenerateImagesImagen.convert env response));
                GenerateImages.body_prompt := Some prompt;
                GenerateImages.error := None;
                GenerateImages.details := None |} |}
    end.
Proof.
  intros Hp Hk. unfold GenerateImagesImagen.POST.
  cbn [GenerateImages.prompt GenerateImages.apiKey Js.truthy_opt Js.or_else].
  rewrite Hp. cbn [negb]. fold (Js.truthy_opt key).
  destruct (Js.truthy_opt key) eqn:Ek; cbn [orb] in Hk.
  - rewrite Ek. reflexivity.
  - rewrite Hk. reflexivity.
Qed.

(** X22. In the version of the image route that asks Imagen and
    reports the provider's error, the four images come from one call
    of the model, so that a failure of the provider fails the whole
    batch: the route answers 500 with the message of the error (or
    "Failed to generate images"), and the handler removes
    the loading record and either opens the API-key dialog, when that
    message mentions an API key, or alerts "Generation failed: "
    followed by the message.  When the provider answers, the record is
    completed with the images that came with bytes, at most as many as
    the provider returned. *)
Theorem imagen_batch_fails_whole (env : ImproveImage.Env) (prompt : string)
        (now_id now_ts : Z) (s : State) :
  Js.truthy prompt = true ->
  (Js.truthy_opt (gemini_api_key s)
   || Js.truthy_opt (ImproveImage.GOOGLE_AI_API_KEY env)) = true ->
  let w := NewGeneration TImage prompt in
  let lg := eval (start w now_id now_ts) s in
  let s' := exec (settle w lg (GenerateImagesImagen.answer env prompt s))
                 (exec (start w now_id now_ts) s) in
  let response :=
    GenerateImagesImagen.POST env
      (inr {| GenerateImages.prompt := Some prompt;
              GenerateImages.apiKey := gemini_api_key s;
              GenerateImages.imageBytes := None |}) in
  match ImproveImage.generateImages env
          {| ImproveImage.config_prompt := prompt;
             ImproveImage.numberOfImages := 4 |} with
  | inl err =>
      let message := Js.message_or_default err "Failed to generate images" in
      GenerateImages.status response = 500 /\
      GenerateImages.error (GenerateImages.body response) = Some message /\
      generations s' = Notions.others ("loading-" ^^ Js.show_Z now_id)
                                      (generations s) /\
      (if Js.includes "API key" message
       then showApiKeyDialog s' = true /\ alerts s' = alerts s
       else showApiKeyDialog s' = showApiKeyDialog s /\
            alerts s' = alerts s ++ ["Generation failed: " ^^ message])
  | inr generated =>
      GenerateImages.status response = 200 /\
      exists g,
        hd_error (generations s') = Some (Images g) /\
        ig_prompt g = prompt /\
        length (ig_images g)
        <= length (match ImproveImage.generatedImages generated with
                   | Some l => l
                   | None => []
                   end) /\
        (forall img, In img (ig_images g) ->
                     Js.truthy_opt (ContentGrid.imageBytes img) = true) /\
        alerts s' = alerts s
  end.
Proof.
  intros Hp Hk w lg s' response0.
  pose proof (imagen_POST_accepted env prompt (gemini_api_key s) Hp Hk) as HP.
  fold response0 in HP.
  destruct (start_generations w now_id now_ts s) as (Hg & Hid & _).
  destruct (start_rest w now_id now_ts s) as (Hal & Hdl & _).
  fold lg in Hg, Hid.
  assert (Hans : GenerateImagesImagen.answer env prompt s
                 = App.images_answer response0) by reflexivity.
  destruct (ImproveImage.generateImages env _) as [err|response].
  - cbv zeta. split; [now rewrite HP|]. split; [now rewrite HP|].
    set (message := Js.message_or_default err "Failed to generate images").
    assert (Hm : Js.truthy message = true)
      by (now apply message_or_default_truthy).
    assert (Hs' : s' = exec (catch_block "Generation failed" "Generation failed"
                               lg (Js.new_Error message))
                            (exec (start w now_id now_ts) s)).
    { unfold s'. rewrite Hans, HP.
      unfold App.images_answer.
      cbn [GenerateImages.body GenerateImages.success GenerateImages.images
           GenerateImages.error option_map].
      match goal with
      | |- context [Resolved ?d] =>
          rewrite (settle_error_response w lg d _ eq_refl)
      end.
      cbn [ContentGrid.error Js.or_else Network.alert_label w].
      fold message. now rewrite Hm. }
    split.
    + rewrite Hs', catch_block_generations. apply (fail_after_start w).
    + destruct (Js.includes "API key" message) eqn:E.
      * destruct (catch_block_dialog "Generation failed" "Generation failed" lg
                    (Js.new_Error message) (exec (start w now_id now_ts) s) E)
          as (Hd & Ha).
        rewrite Hs'. split; [exact Hd|]. now rewrite Ha.
      * destruct (catch_block_alert "Generation failed" "Generation failed" lg
                    (Js.new_Error message) (exec (start w now_id now_ts) s) E)
          as (Hd & Ha).
        rewrite Hs'. split; [now rewrite Hd|]. now rewrite Ha, Hal.
  - set (route_images :=
           Js.filter_Boolean (GenerateImagesImagen.convert env response)) in *.
    set (items :=
           map (fun img => {| ContentGrid.url := d_url img;
                              ContentGrid.imageBytes := d_imageBytes img;
                              isSample := None |})
               (map (fun img =>
                       {| d_url := GenerateImages.url img;
                          d_imageBytes :=
                            Some (GenerateImages.image_imageBytes img) |})
                    route_images)).
    set (g := {| ig_id := lg_id lg; ig_prompt := prompt;
                 ig_images := items; ig_timestamp := lg_timestamp lg;
                 ig_isLoading := false |}).
    assert (Hatt : attempt w lg (GenerateImagesImagen.answer env prompt s)
                   = inr (Images g)).
    { rewrite Hans, HP. reflexivity. }
    assert (Hconv : forall l k,
               Forall (fun img => Js.truthy (GenerateImages.image_imageBytes img)
                                  = true)
                      (Js.filter_Boolean
                         (Js.mapi_from k
                            (fun generatedImage index =>
                               match ImproveImage.image_imageBytes generatedImage with
                               | Some imageBytes =>
                                   if Js.truthy imageBytes then
                                     Some {| GenerateImages.id :=
                                               Js.show_Z (ImproveImage.Date_now env index)
                                               ^^ "-" ^^ Js.show_nat index;
                                             GenerateImages.url :=
                                               "data:image/png;base64," ^^ imageBytes;
                                             GenerateImages.image_imageBytes := imageBytes |}
                                   else None
                               | None => None
                               end) l)) /\
               length (Js.filter_Boolean
                         (Js.mapi_from k
                            (fun generatedImage index =>
                               match ImproveImage.image_imageBytes generatedImage with
                               | Some imageBytes =>
                                   if Js.truthy imageBytes then
                                     Some {| GenerateImages.id :=
                                               Js.show_Z (ImproveImage.Date_now env index)
                                               ^^ "-" ^^ Js.show_nat index;
                                             GenerateImages.url :=
                                               "data:image/png;base64," ^^ imageBytes;
                                             GenerateImages.image_imageBytes := imageBytes |}
                                   else None
                               | None => None
                               end) l))
               <= length l).
    { induction l as [|x l IH]; intros k; [split; [constructor|reflexivity]|].
      cbn [Js.mapi_from]. destruct (IH (S k)) as (IH1 & IH2).
      destruct (ImproveImage.image_imageBytes x) as [b|];
        [destruct (Js.truthy b) eqn:Eb|];
        cbn [Js.filter_Boolean length]; split; auto with arith. }
    destruct (Hconv (match ImproveImage.generatedImages response with
                     | Some l => l
                     | None => []
                     end) 0) as (Hall & Hlen).
    split; [now rewrite HP|].
    exists g. unfold s'.
    split; [|split; [reflexivity|split; [|split]]].
    + rewrite (settle_success _ _ _ _ _ Hatt), Hg.
      unfold completeGeneration. cbn [map gen_id hd_error].
      now rewrite String.eqb_refl.
    + cbn [ig_images g]. unfold items. rewrite !length_map. exact Hlen.
    + intros img Hin. cbn [ig_images g] in Hin. unfold items in Hin.
      rewrite map_map in Hin. apply in_map_iff in Hin as (ri & <- & Hri).
      cbn. rewrite Forall_forall in Hall. now apply Hall.
    + unfold settle, w, handleNewGeneration_settle.
      change (handleNewGeneration_try TImage lg
                (GenerateImagesImagen.answer env prompt s))
        with (attempt w lg (GenerateImagesImagen.answer env prompt s)).
      rewrite Hatt. cbn. exact Hal.
Qed.

Lemma imagen_batch_fails_whole_witness :
  let env :=
    {| ImproveImage.GOOGLE_AI_API_KEY := None;
       ImproveImage.generateImages :=
         fun _ => inl (Js.ErrorObj "ApiError" "quota exceeded");
       ImproveImage.Date_now := fun _ => 0%Z |} in
  let w := NewGeneration TImage "a red fox" in
  let s := mounted 0 0 (Some "key") in
  alerts (exec (settle w (eval (start w 7 7) s)
                       (GenerateImagesImagen.answer env "a red fox" s))
               (exec (start w 7 7) s))
  = ["Generation failed: quota exceeded"].
Proof.
  intros env w s.
  pose proof (imagen_batch_fails_whole env "a red fox" 7 7 s eq_refl eq_refl)
    as H.
  destruct H as (_ & _ & _ & H). destruct H as (_ & H). exact H.
Defined.
